(** * jamesql / jomql: the query engine, embedded in Rocq

    A shallow embedding of the engine's helpers
    ([validateExternalArgs], [generateJomqlResolverTree],
    [processJomqlResolverTree], [validateJomqlResults],
    [validateResultFields], [validateResultNullish],
    [generateAnonymousRootResolver], the earlier helper's
    [handleAggregatedQueries], [validateExternalArgs] and
    [validateResultFields], and the earlier [initializeJomql]) together
    with the properties stated about them.

    Request payloads (queries and their [__args]) are JSON trees.
    Result objects are mutable and may be shared, so the functions that
    write to them run over an explicit store of objects. *)

From stdpp Require Import base option list strings gmap.
From Stdlib Require Import ZArith.

Set Warnings "-register-all".
Open Scope string_scope.
Open Scope list_scope.
Open Scope Z_scope.

(* ================================================================== *)
(** * Part I: definitions *)
(* ================================================================== *)

(** ** Thrown values and the result of a call *)

(** Modelled from the spec: the error classes [JomqlArgsError],
    [JomqlQueryError] and [JomqlResultError] are imported from
    [../classes]; each is built from [{message, fieldPath}].  Anything
    else that can be thrown (a [TypeError], what a callback throws) is
    an [OtherError]. *)
Inductive thrown : Type :=
| JomqlArgsError (message : string) (fieldPath : list string)
| JomqlQueryError (message : string) (fieldPath : list string)
| JomqlResultError (message : string) (fieldPath : list string)
| OtherError (description : string).

(** A call returns, throws, or runs out of the fuel that bounds the
    recursion of the model. *)
Inductive result (A : Type) : Type :=
| Ok (a : A)
| Throw (e : thrown)
| OutOfFuel.
Arguments Ok {A} a.
Arguments Throw {A} e.
Arguments OutOfFuel {A}.

#[global] Instance result_ret : MRet result := fun A a => Ok a.
#[global] Instance result_bind : MBind result := fun A B f m =>
  match m with
  | Ok a => f a
  | Throw e => Throw e
  | OutOfFuel => OutOfFuel
  end.

(** [refines r1 r2]: the run [r1] ran out of fuel, or it has the result
    [r2]. *)
Definition refines {A} (r1 r2 : result A) : Prop :=
  r1 = OutOfFuel \/ r1 = r2.

(** [try { m } catch { throw e }] *)
Definition tryCatchThrow {A} (m : result A) (e : thrown) : result A :=
  match m with
  | Ok a => Ok a
  | Throw _ => Throw e
  | OutOfFuel => OutOfFuel
  end.

(** [if (c) throw e] *)
Definition throwIf (c : bool) (e : thrown) : result unit :=
  if c then Throw e else Ok tt.

(** A loop body run over a list in order, threading the state; the
    first throw ends the loop. *)
Definition forEachM {A S} (body : S -> A -> result S)
  : list A -> S -> result S :=
  fix loop l s :=
    match l with
    | [] => Ok s
    | a :: l' => s' ← body s a; loop l' s'
    end.

(** [arr.map(f)] for an [f] that may throw. *)
Definition mapM {A B} (f : A -> result B) : list A -> result (list B) :=
  fix loop l :=
    match l with
    | [] => Ok []
    | a :: l' => b ← f a; bs ← loop l'; Ok (b :: bs)
    end.

(** ** JSON payloads *)

(** A query or argument value.  [JObj] lists an object's own enumerable
    properties in the order [Object.keys] yields them.  [JSymbol] is the
    exported [lookupSymbol]. *)
Inductive json : Type :=
| JUndefined
| JNull
| JBool (b : bool)
| JNum (n : Z)
| JStr (s : string)
| JSymbol
| JArr (elements : list json)
| JObj (properties : list (string * json)).

Definition isUndefined (v : json) : bool :=
  match v with JUndefined => true | _ => false end.

Definition isNull (v : json) : bool :=
  match v with JNull => true | _ => false end.

(** [v === null || v === undefined] *)
Definition isNullish (v : json) : bool := isNull v || isUndefined v.

(** [Array.isArray(v)] *)
Definition isArray (v : json) : bool :=
  match v with JArr _ => true | _ => false end.

(** [Object.prototype.toString.call(ele) === "[object Object]"] *)
Definition isObject (ele : json) : bool :=
  match ele with JObj _ => true | _ => false end.

(** JavaScript truthiness, as in [if (args)]. *)
Definition truthy (v : json) : bool :=
  match v with
  | JUndefined | JNull => false
  | JBool b => b
  | JNum n => negb (n =? 0)
  | JStr s => negb (String.eqb s "")
  | JSymbol | JArr _ | JObj _ => true
  end.

(** [a === b] for a primitive [b]; an array or object is never
    identical to a configured primitive. *)
Definition strictEq (a b : json) : bool :=
  match a, b with
  | JUndefined, JUndefined | JNull, JNull | JSymbol, JSymbol => true
  | JBool x, JBool y => Bool.eqb x y
  | JNum x, JNum y => x =? y
  | JStr x, JStr y => String.eqb x y
  | _, _ => false
  end.

(** [a ?? b] *)
Definition nullishCoalesce (a b : json) : json :=
  if isNullish a then b else a.

(** *** Own properties *)

Definition keys {A} (o : list (string * A)) : list string := o.*1.

(** [key in o], for a plain object whose prototype has no such key. *)
Definition hasKey {A} (key : string) (o : list (string * A)) : bool :=
  bool_decide (key ∈ keys o).

Fixpoint lookupKey {A} (key : string) (o : list (string * A)) : option A :=
  match o with
  | [] => None
  | (k, v) :: o' => if String.eqb k key then Some v else lookupKey key o'
  end.

(** [o[key]] on object properties *)
Definition getProp (o : list (string * json)) (key : string) : json :=
  default JUndefined (lookupKey key o).

(** [v[key]] on any value that is not nullish; only plain objects hold
    properties in a payload. *)
Definition getField (v : json) (key : string) : json :=
  match v with
  | JObj o => getProp o key
  | _ => JUndefined
  end.

(** [o[key] = v]: an existing property keeps its place, a new one goes
    last. *)
Fixpoint setProp {A} (key : string) (v : A) (o : list (string * A))
  : list (string * A) :=
  match o with
  | [] => [(key, v)]
  | (k, w) :: o' =>
      if String.eqb k key then (k, v) :: o' else (k, w) :: setProp key v o'
  end.

(** [delete o[key]] *)
Definition deleteProp {A} (key : string) (o : list (string * A))
  : list (string * A) :=
  filter (fun kv => negb (String.eqb kv.1 key)) o.

(** [new Set(l)]: the distinct elements in order of first insertion. *)
Fixpoint newSet `{EqDecision A} (l : list A) : list A :=
  match l with
  | [] => []
  | a :: l' => a :: filter (fun b => b ≠ a) (newSet l')
  end.

(** [set.delete(a)] *)
Definition setDelete `{EqDecision A} (a : A) (s : list A) : list A :=
  filter (fun b => b ≠ a) s.

(** [l.join(sep)] on strings *)
Fixpoint join (sep : string) (l : list string) : string :=
  match l with
  | [] => ""
  | [a] => a
  | a :: l' => a +:+ sep +:+ join sep l'
  end.

(** ** Type definitions *)

(** Modelled from the spec: [ArrayOptions], [JomqlScalarType],
    [JomqlInputType], [JomqlInputTypeLookup] and [JomqlInputFieldType]
    are declared in [../types] and [../classes]; the fields are the ones
    the helpers read.  An absent optional flag is [false]. *)
Record ArrayOptions : Type := { allowNullElement : bool }.

Record JomqlScalarType : Type := {
  scalarName : string;
  parseValue : option (json -> result json);
  serialize : option (json -> result json);
}.

Inductive JomqlInputType : Type :=
| mkInputType (inputName : string)
    (fields : list (string * JomqlInputFieldType))
    (inputsValidator : option (json -> list string -> result unit))
with JomqlInputFieldType : Type :=
| mkInputFieldType (type : inputFieldKind) (required allowNull : bool)
    (arrayOptions : option ArrayOptions)
with inputFieldKind : Type :=
| InputScalar (scalar : JomqlScalarType)
| InputObject (input : JomqlInputType)
| JomqlInputTypeLookup (name : string).

Definition inputFields (t : JomqlInputType) :=
  match t with mkInputType _ fields _ => fields end.
Definition inputsValidator (t : JomqlInputType) :=
  match t with mkInputType _ _ v => v end.
Definition argType (d : JomqlInputFieldType) :=
  match d with mkInputFieldType t _ _ _ => t end.
Definition argRequired (d : JomqlInputFieldType) :=
  match d with mkInputFieldType _ r _ _ => r end.
Definition argAllowNull (d : JomqlInputFieldType) :=
  match d with mkInputFieldType _ _ n _ => n end.
Definition argArrayOptions (d : JomqlInputFieldType) :=
  match d with mkInputFieldType _ _ _ a => a end.

(** ** validateExternalArgs *)

Section ValidateExternalArgs.
(** The registry of input types, [inputTypeDefs]. *)
Context (inputTypeDefs : gmap string JomqlInputType).

(** The array checks made when [arrayOptions] is set. *)
Definition checkArrayField (args : json) (d : JomqlInputFieldType)
    (fieldPath : list string) : result unit :=
  match argArrayOptions d with
  | Some _ =>
      _ ← throwIf (argAllowNull d && negb (isArray args) && negb (isNull args))
            (JomqlArgsError "Field must be Array or null" fieldPath);
      throwIf (negb (argAllowNull d) && negb (isArray args))
        (JomqlArgsError "Array expected" fieldPath)
  | None => Ok tt
  end.

(** The type after a lookup has been converted from the map: an input
    type or a scalar. *)
Definition resolveArgType (t : inputFieldKind) (fieldPath : list string)
  : result (JomqlInputType + JomqlScalarType) :=
  match t with
  | JomqlInputTypeLookup name =>
      match inputTypeDefs !! name with
      | Some inputDef => Ok (inl inputDef)
      | None =>
          Throw (JomqlArgsError "Unknown inputDef '[object Object]'" fieldPath)
      end
  | InputObject i => Ok (inl i)
  | InputScalar s => Ok (inr s)
  end.

(** [argsArray]: the elements when an array is expected and given,
    else the one value. *)
Definition argsArrayOf (args : json) (d : JomqlInputFieldType)
    (fieldPath : list string) : result (list json) :=
  match args, argArrayOptions d with
  | JArr elements, Some opts =>
      _ ← throwIf (negb (allowNullElement opts) && existsb isNull elements)
            (JomqlArgsError "Null field is not allowed on array element"
               fieldPath);
      Ok elements
  | _, _ => Ok [args]
  end.

Section OneLevel.
(** The recursive call. *)
Context (validate : json -> option JomqlInputFieldType -> list string
                    -> result (json * json)).

(** The callback of [Object.entries(fields).forEach]: the state is
    the object being rewritten in place and [keysToValidate]. *)
Definition validateKey (fieldPath : list string)
    (st : list (string * json) * list string)
    (entry : string * JomqlInputFieldType)
  : result (list (string * json) * list string) :=
  let '(arg, keysToValidate) := st in
  let '(key, argDef) := entry in
  '(validatedArg, _) ← validate (getProp arg key) (Some argDef)
                         (fieldPath ++ [key]);
  let arg' := if isUndefined validatedArg then deleteProp key arg
              else setProp key validatedArg arg in
  Ok (arg', setDelete key keysToValidate).

(** The body of [for (const arg of argsArray)]; it returns the
    element as the loop leaves it. *)
Definition validateArg (inputType : JomqlInputType)
    (d : JomqlInputFieldType) (fieldPath : list string) (arg : json)
  : result json :=
  _ ← throwIf (negb (isObject arg) && negb (argAllowNull d))
        (JomqlArgsError "Object expected" fieldPath);
  match arg with
  | JObj o =>
      '(o', keysToValidate) ←
        forEachM (validateKey fieldPath) (inputFields inputType)
          (o, newSet (keys o));
      _ ← throwIf (bool_decide (0 < length keysToValidate)%nat)
            (JomqlArgsError
               ("Unknown args '" +:+ join "," keysToValidate +:+ "'")
               fieldPath);
      _ ← match inputsValidator inputType with
          | Some check => check (JObj o') fieldPath
          | None => Ok tt
          end;
      Ok (JObj o')
  | _ => Ok arg
  end.

(** The input-type branch.  The elements are rewritten in place, so
    the value of [args] afterwards is rebuilt from them. *)
Definition validateInput (inputType : JomqlInputType)
    (d : JomqlInputFieldType) (fieldPath : list string) (args : json)
  : result json :=
  argsArray ← argsArrayOf args d fieldPath;
  argsArray' ← mapM (validateArg inputType d fieldPath) argsArray;
  Ok match args, argArrayOptions d with
     | JArr _, Some _ => JArr argsArray'
     | _, _ => default args (head argsArray')
     end.
End OneLevel.

(** The body of the [try]: [parseValue] on each element when an array
    is expected and given, else on the value. *)
Definition applyParseValue (parse : json -> result json)
    (d : JomqlInputFieldType) (args : json) : result json :=
  match args, argArrayOptions d with
  | JArr elements, Some _ => parsed ← mapM parse elements; Ok (JArr parsed)
  | _, _ => parse args
  end.

(** The scalar branch: [parsedArgs], undefined when nothing was
    parsed. *)
Definition parseScalar (scalar : JomqlScalarType) (d : JomqlInputFieldType)
    (fieldPath : list string) (args : json) : result json :=
  match parseValue scalar with
  | Some parse =>
      if negb (isNull args) then
        tryCatchThrow (applyParseValue parse d args)
          (JomqlArgsError
             ("Invalid scalar value for '" +:+ scalarName scalar +:+ "'")
             fieldPath)
      else Ok JUndefined
  | None => Ok JUndefined
  end.

(** [validateExternalArgs] rewrites an input-typed [args] in place
    and returns [parsedArgs ?? args].  The model returns that value
    together with [args] as the call leaves it, which is what a caller
    holding the same reference sees afterwards. *)
Fixpoint validateExternalArgs (fuel : nat) (args : json)
    (argDefinition : option JomqlInputFieldType) (fieldPath : list string)
  : result (json * json) :=
  match fuel with
  | O => OutOfFuel
  | S fuel' =>
      match argDefinition with
      | None =>
          if truthy args
          then Throw (JomqlArgsError "Not expecting any args" fieldPath)
          else Ok (JUndefined, args)
      | Some d =>
          if negb (argRequired d) && isUndefined args
          then Ok (JUndefined, args)
          else
            _ ← throwIf (argRequired d && isUndefined args)
                  (JomqlArgsError "Args is required" fieldPath);
            _ ← throwIf (negb (argAllowNull d) && isNull args)
                  (JomqlArgsError "Null field is not allowed" fieldPath);
            _ ← checkArrayField args d fieldPath;
            argDefType ← resolveArgType (argType d) fieldPath;
            '(parsedArgs, args') ←
              match argDefType with
              | inl inputType =>
                  args' ← validateInput (validateExternalArgs fuel')
                            inputType d fieldPath args;
                  Ok (JUndefined, args')
              | inr scalar =>
                  parsedArgs ← parseScalar scalar d fieldPath args;
                  Ok (parsedArgs, args)
              end;
            Ok (nullishCoalesce parsedArgs args', args')
      end
  end.
End ValidateExternalArgs.

(** ** The store of result objects *)

(** Results are JavaScript objects: two rows of an array, or a row and
    a nested value, can be one object.  A result value is a primitive
    or a reference into the store. *)
Abbreviation loc := positive.

Inductive value : Type :=
| VUndefined
| VNull
| VBool (b : bool)
| VNum (n : Z)
| VStr (s : string)
| VRef (l : loc).

#[global] Instance value_eq_dec : EqDecision value.
Proof. solve_decision. Defined.

(** An object of the store: whether [Object.prototype.toString] tags it
    "[object Object]" (an array is not), and its properties. *)
Record object : Type := {
  isPlain : bool;
  properties : gmap string value;
}.

Abbreviation store := (gmap loc object).

(** Truthiness of a result value, as in [if (result)]. *)
Definition truthyV (v : value) : bool :=
  match v with
  | VUndefined | VNull => false
  | VBool b => b
  | VNum n => negb (n =? 0)
  | VStr s => negb (String.eqb s "")
  | VRef _ => true
  end.

Definition isNullishV (v : value) : bool :=
  match v with VUndefined | VNull => true | _ => false end.

(** [isObject(v)] on a result value. *)
Definition isObjectV (h : store) (v : value) : bool :=
  match v with
  | VRef l => from_option isPlain false (h !! l)
  | _ => false
  end.

(** [v[key]] for a [v] that is not nullish; a primitive has no such
    property. *)
Definition getFieldV (h : store) (v : value) (key : string) : value :=
  match v with
  | VRef l => default VUndefined (o ← h !! l; properties o !! key)
  | _ => VUndefined
  end.

(** [l[key] = v] *)
Definition setFieldV (h : store) (l : loc) (key : string) (v : value)
  : store :=
  alter (fun o => {| isPlain := isPlain o;
                     properties := <[key := v]> (properties o) |}) l h.

(** [{}]: a new empty object. *)
Definition allocObject (h : store) : loc * store :=
  let l := fresh (dom h) in
  (l, <[l := {| isPlain := true; properties := ∅ |}]> h).

(** ** Object types, fields and resolver nodes *)

(** What a resolver is called with.  A root resolver is passed
    [{req, fieldPath, args, query}] only, so it reads the other three
    as undefined. *)
Record ResolverInput : Type := {
  inFieldPath : list string;
  inArgs : json;
  inQuery : list (string * json);
  inFieldValue : value;
  inParentValue : value;
  inData : value;
}.

(** A resolver reads and writes the store, and returns or throws. *)
Definition ResolverFunction : Type :=
  ResolverInput -> store -> result (value * store).

(** Modelled from the spec: [ObjectTypeDefinitionField],
    [RootResolverDefinition], [JomqlObjectType], [JomqlObjectTypeLookup]
    and the guard [isRootResolverDefinition] are declared in [../types]
    and [../classes]; a field definition is
    [{type, allowNull, arrayOptions?, args?, hidden, resolver?, defer?}]
    and a root resolver definition is the variant mounted as an entry
    point, told apart by [isRootResolverDefinition]. *)
Inductive JomqlObjectType : Type :=
| mkObjectType (objectName : string)
    (fields : list (string * ObjectTypeDefinitionField))
with ObjectTypeDefinitionField : Type :=
| mkField (type : fieldKind) (allowNull : bool)
    (arrayOptions : option ArrayOptions)
    (args : option JomqlInputFieldType) (hidden : bool)
    (resolver : option ResolverFunction) (defer : bool)
    (isRootResolverDefinition : bool)
with fieldKind : Type :=
| FieldScalar (scalar : JomqlScalarType)
| FieldObject (object : JomqlObjectType)
| JomqlObjectTypeLookup (name : string).

Definition objectFields (t : JomqlObjectType) :=
  match t with mkObjectType _ fields => fields end.
Definition fieldType (f : ObjectTypeDefinitionField) :=
  match f with mkField t _ _ _ _ _ _ _ => t end.
Definition allowNull (f : ObjectTypeDefinitionField) :=
  match f with mkField _ n _ _ _ _ _ _ => n end.
Definition arrayOptions (f : ObjectTypeDefinitionField) :=
  match f with mkField _ _ a _ _ _ _ _ => a end.
Definition fieldArgs (f : ObjectTypeDefinitionField) :=
  match f with mkField _ _ _ a _ _ _ _ => a end.
Definition hidden (f : ObjectTypeDefinitionField) :=
  match f with mkField _ _ _ _ h _ _ _ => h end.
Definition resolver (f : ObjectTypeDefinitionField) :=
  match f with mkField _ _ _ _ _ r _ _ => r end.
Definition defer (f : ObjectTypeDefinitionField) :=
  match f with mkField _ _ _ _ _ _ d _ => d end.
Definition isRootResolverDefinition (f : ObjectTypeDefinitionField) :=
  match f with mkField _ _ _ _ _ _ _ r => r end.

(** [JomqlResolverNode]: [{typeDef, query, args, nested?}]; [nested]
    lists the children in the order [for ... in] visits them. *)
Inductive JomqlResolverNode : Type :=
| mkNode (typeDef : ObjectTypeDefinitionField)
    (query : list (string * json)) (args : json)
    (nested : option (list (string * JomqlResolverNode))).

Definition typeDef (n : JomqlResolverNode) :=
  match n with mkNode t _ _ _ => t end.
Definition query (n : JomqlResolverNode) :=
  match n with mkNode _ q _ _ => q end.
Definition args (n : JomqlResolverNode) :=
  match n with mkNode _ _ a _ => a end.
Definition nested (n : JomqlResolverNode) :=
  match n with mkNode _ _ _ c => c end.

(** ** generateJomqlResolverTree *)

(** [const { __args: args = null, ...query } = fieldValue] makes
    [query] a shallow copy: its values are the objects of the field
    value themselves, and the calls for the children rewrite the
    [__args] objects inside them in place.  [valueInPlace v child] is
    the value [v] of a field once the call that returned [child] has
    run on it: its [__args] is the child's args as left in place, and
    the other properties are those of the child's query. *)
Definition valueInPlace (fieldValueOfField : json)
    (child : JomqlResolverNode) : json :=
  match fieldValueOfField with
  | JObj o =>
      JObj (map (fun '(key, v) =>
                   if String.eqb key "__args"
                   then (key, if isUndefined v then v else args child)
                   else (key, getProp (query child) key))
              o)
  | _ => fieldValueOfField
  end.

(** The query of a node once the loop over its fields has run: the
    value of a field for which a child was generated is as that call
    left it. *)
Definition queryInPlace (query' : list (string * json))
    (nestedNodes : option (list (string * JomqlResolverNode)))
  : list (string * json) :=
  map (fun '(field, v) =>
         (field,
          match nestedNodes ≫= lookupKey field with
          | Some child => valueInPlace v child
          | None => v
          end))
    query'.

Section GenerateJomqlResolverTree.
(** The two registries and the configured [lookupValue]. *)
Context (objectTypeDefs : gmap string JomqlObjectType).
Context (inputTypeDefs : gmap string JomqlInputType).
Context (lookupValue : json).

(** The field's type once a lookup has been converted: an object type
    or a scalar. *)
Definition resolveFieldType (t : fieldKind) (fieldPath : list string)
  : result (JomqlObjectType + JomqlScalarType) :=
  match t with
  | JomqlObjectTypeLookup name =>
      match objectTypeDefs !! name with
      | Some typeDefLookup => Ok (inl typeDefLookup)
      | None =>
          Throw (JomqlQueryError ("TypeDef '" +:+ name +:+ "' not found")
                   fieldPath)
      end
  | FieldObject o => Ok (inl o)
  | FieldScalar s => Ok (inr s)
  end.

(** [resolverObject.args?.definition.required] *)
Definition argsRequired (resolverObject : ObjectTypeDefinitionField) : bool :=
  from_option argRequired false (fieldArgs resolverObject).

Section Children.
(** The recursive call. *)
Context (generate : json -> ObjectTypeDefinitionField -> list string
                    -> bool -> result JomqlResolverNode).

(** The body of [for (const field in fieldValue)]; the state is
    [nestedNodes].  [field in fields] and [fields[field]] are taken on
    the fields the type declares: a query key that names a member of
    [Object.prototype] and no declared field is found by the source's
    [in] along the prototype chain, and such keys are outside what this
    definition covers (see [noPrototypeKeys] below). *)
Definition generateChild (objectType : JomqlObjectType)
    (resolverObject : ObjectTypeDefinitionField)
    (fieldPath : list string) (fullTree : bool)
    (nestedNodes : list (string * JomqlResolverNode))
    (entry : string * json)
  : result (list (string * JomqlResolverNode)) :=
  let '(field, fieldValueOfField) := entry in
  let parentsPlusCurrentField := fieldPath ++ [field] in
  if String.eqb field "__args" then Ok nestedNodes
  else
    match lookupKey field (objectFields objectType) with
    | None => Throw (JomqlQueryError "Unknown field" parentsPlusCurrentField)
    | Some fieldDef =>
        _ ← throwIf (hidden fieldDef)
              (JomqlQueryError "Hidden field" parentsPlusCurrentField);
        if fullTree || negb (bool_decide (is_Some (resolver resolverObject)))
        then
          node ← generate fieldValueOfField fieldDef
                   parentsPlusCurrentField fullTree;
          Ok (setProp field node nestedNodes)
        else Ok nestedNodes
    end.
End Children.

Fixpoint generateJomqlResolverTree (fuel : nat) (fieldValue : json)
    (resolverObject : ObjectTypeDefinitionField) (fieldPath : list string)
    (fullTree : bool) : result JomqlResolverNode :=
  match fuel with
  | O => OutOfFuel
  | S fuel' =>
      fieldType ← resolveFieldType (fieldType resolverObject) fieldPath;
      let isLookupField :=
        strictEq fieldValue lookupValue || strictEq fieldValue JSymbol in
      let isLeafNode := match fieldType with inl _ => false | inr _ => true end in
      _ ← throwIf (negb isLookupField && negb (isObject fieldValue))
            (JomqlQueryError "Invalid field RHS" fieldPath);
      _ ← match fieldValue with
          | JObj o =>
              throwIf (isLeafNode
                       && (negb (hasKey "__args" o)
                           || negb (length (keys o) =? 1)%nat))
                (JomqlQueryError
                   "Scalar node can only accept __args and no other field"
                   fieldPath)
          | _ => Ok tt
          end;
      _ ← throwIf (negb isLeafNode && isLookupField)
            (JomqlQueryError
               "Resolved node must be an object with nested fields"
               fieldPath);
      _ ← throwIf (isLeafNode && argsRequired resolverObject
                   && negb (isObject fieldValue))
            (JomqlQueryError "Args required" fieldPath);
      match fieldValue with
      | JObj o =>
          let args := getProp o "__args" in
          '(_, argsInPlace) ←
            validateExternalArgs inputTypeDefs fuel' args
              (fieldArgs resolverObject) (fieldPath ++ ["__args"]);
          nestedNodes ←
            match fieldType with
            | inl objectType =>
                children ←
                  forEachM (generateChild (generateJomqlResolverTree fuel')
                              objectType resolverObject fieldPath fullTree)
                    o [];
                Ok (Some children)
            | inr _ => Ok None
            end;
          Ok (mkNode resolverObject
                (queryInPlace (deleteProp "__args" o) nestedNodes)
                (if isUndefined args then JNull else argsInPlace)
                nestedNodes)
      | _ => Ok (mkNode resolverObject [] JNull None)
      end
  end.
End GenerateJomqlResolverTree.

(** ** Result validation *)

(** The result tree is only read here, and what is returned is built
    anew, so the results are taken by value, as JSON trees. *)

Definition validateResultNullish (value : json)
    (resolverObject : ObjectTypeDefinitionField) (fieldPath : list string)
    (arrayOptions' : option ArrayOptions) : result unit :=
  let isNullAllowed :=
    match arrayOptions' with
    | Some opts => allowNullElement opts
    | None => allowNull resolverObject
    end in
  throwIf (isNullish value && negb isNullAllowed)
    (JomqlResultError
       ("Null value not allowed"
        +:+ (if bool_decide (is_Some arrayOptions')
             then " for array element" else ""))
       fieldPath).

Definition validateResultFields (value : json)
    (resolverObject : ObjectTypeDefinitionField) (fieldPath : list string)
  : result unit :=
  match arrayOptions resolverObject with
  | Some _ =>
      match value with
      | JArr elements =>
          forEachM (fun _ ele =>
                      validateResultNullish ele resolverObject fieldPath
                        (arrayOptions resolverObject))
            elements tt
      | _ =>
          if negb (allowNull resolverObject)
          then Throw (JomqlResultError "Array expected" fieldPath)
          else if negb (isNull value)
          then Throw (JomqlResultError "Array or null expected" fieldPath)
          else Ok tt
      end
  | None =>
      validateResultNullish value resolverObject fieldPath
        (arrayOptions resolverObject)
  end.

Section ValidateJomqlResults.
Context (objectTypeDefs : gmap string JomqlObjectType).

(** The leaf branch after the null and array checks: serialization. *)
Definition serializeLeaf (jomqlResultsNode : json)
    (resolverObject : ObjectTypeDefinitionField) (fieldPath : list string)
  : result json :=
  fieldType ← resolveFieldType objectTypeDefs (fieldType resolverObject)
                fieldPath;
  match fieldType with
  | inl _ => Ok jomqlResultsNode
  | inr scalar =>
      match serialize scalar with
      | Some serializeFn =>
          if negb (isNull jomqlResultsNode)
             && negb (isUndefined jomqlResultsNode)
          then
            tryCatchThrow
              match jomqlResultsNode, arrayOptions resolverObject with
              | JArr elements, Some _ =>
                  serialized ← mapM serializeFn elements;
                  Ok (JArr serialized)
              | _, _ => serializeFn jomqlResultsNode
              end
              (JomqlResultError
                 ("Invalid scalar value for '" +:+ scalarName scalar +:+ "'")
                 fieldPath)
          else Ok jomqlResultsNode
      | None => Ok jomqlResultsNode
      end
  end.

(** [ele[field]]; reading a property of null or undefined is a
    TypeError. *)
Definition readField (ele : json) (field : string) : result json :=
  if isNullish ele
  then Throw (OtherError "TypeError: cannot read properties of null")
  else Ok (getField ele field).

(** The elements of an array are taken in order; [Promise.all] starts
    them in that order, and which rejection it reports when several
    elements fail is not modelled beyond that. *)
Fixpoint validateJomqlResults (jomqlResultsNode : json)
    (jomqlResolverNode : JomqlResolverNode) (fieldPath : list string)
    {struct jomqlResolverNode} : result json :=
  match nested jomqlResolverNode with
  | Some children =>
      let perField (from : json) :=
        forEachM (fun returnValue '(field, child) =>
                    v ← readField from field;
                    validated ← validateJomqlResults v child
                                  (fieldPath ++ [field]);
                    Ok (setProp field validated returnValue))
          children [] in
      if isNull jomqlResultsNode then Ok JNull
      else
        match arrayOptions (typeDef jomqlResolverNode) with
        | Some _ =>
            match jomqlResultsNode with
            | JArr elements =>
                out ← mapM (fun ele =>
                              arrReturnValue ← perField ele;
                              Ok (JObj arrReturnValue))
                        elements;
                Ok (JArr out)
            | _ =>
                Throw (JomqlResultError "Expecting array or null" fieldPath)
            end
        | None =>
            if bool_decide (length (keys children) < 1)%nat
            then Ok (if isObject jomqlResultsNode then JObj [] else JNull)
            else
              _ ← throwIf (negb (isObject jomqlResultsNode))
                    (JomqlResultError "Expecting object" fieldPath);
              tempReturnValue ← perField jomqlResultsNode;
              Ok (JObj tempReturnValue)
        end
  | None =>
      _ ← validateResultFields jomqlResultsNode (typeDef jomqlResolverNode)
            fieldPath;
      serializeLeaf jomqlResultsNode (typeDef jomqlResolverNode) fieldPath
  end.
End ValidateJomqlResults.

(** ** processJomqlResolverTree *)

(** [resolver(input)], a TypeError when there is no resolver to call. *)
Definition callResolver (resolverFn : option ResolverFunction)
    (input : ResolverInput) (h : store) : result (value * store) :=
  match resolverFn with
  | Some fn => fn input h
  | None => Throw (OtherError "TypeError: resolver is not a function")
  end.

(** [data = {}] in the parameter list. *)
Definition defaultData (data : value) (h : store) : value * store :=
  match data with
  | VUndefined => let '(l, h') := allocObject h in (VRef l, h')
  | _ => (data, h)
  end.

(** [results]: what the root resolver returns when the node is a root
    resolver definition, else the results node given. *)
Definition fetchResults (jomqlResultsNode : value)
    (jomqlResolverNode : JomqlResolverNode) (fieldPath : list string)
    (h : store) : result (value * store) :=
  if isRootResolverDefinition (typeDef jomqlResolverNode)
  then callResolver (resolver (typeDef jomqlResolverNode))
         {| inFieldPath := fieldPath; inArgs := args jomqlResolverNode;
            inQuery := query jomqlResolverNode;
            inFieldValue := VUndefined; inParentValue := VUndefined;
            inData := VUndefined |} h
  else Ok (jomqlResultsNode, h).

(** [resolverFn && !isRootResolverDefinition(typeDef)]: the resolver
    of a field that is not a root resolver definition. *)
Definition fieldResolver (typeDef : ObjectTypeDefinitionField)
  : option ResolverFunction :=
  if isRootResolverDefinition typeDef then None else resolver typeDef.

(** The function takes one object of named arguments; [data] defaults
    to a new [{}] when undefined, and the recursive calls pass
    [jomqlResultsNode], [parentNode], [jomqlResolverNode], [req], [data]
    and [fieldPath], leaving [fullTree] at its default [false].  The
    store is threaded through the resolvers in the order the loop
    awaits them. *)
Fixpoint processJomqlResolverTree (jomqlResultsNode : value)
    (jomqlResolverNode : JomqlResolverNode) (parentNode : value)
    (data : value) (fieldPath : list string) (fullTree : bool) (h : store)
    {struct jomqlResolverNode} : result (value * store) :=
  let '(data, h) := defaultData data h in
  let typeDef := typeDef jomqlResolverNode in
  '(results, h) ← fetchResults jomqlResultsNode jomqlResolverNode fieldPath h;
  if isRootResolverDefinition typeDef && negb fullTree then Ok (results, h)
  else
    match fieldResolver typeDef with
    | Some resolverFn =>
        if defer typeDef then Ok (VNull, h)
        else resolverFn
               {| inFieldPath := fieldPath; inArgs := args jomqlResolverNode;
                  inQuery := query jomqlResolverNode;
                  inFieldValue := results; inParentValue := parentNode;
                  inData := data |} h
    | None =>
        match nested jomqlResolverNode, results with
        | Some children, VRef tempReturnValue =>
            if isObjectV h results then
              h' ← forEachM
                     (fun h '(field, child) =>
                        '(r, h) ←
                          processJomqlResolverTree
                            (if isObjectV h results
                             then getFieldV h results field else VNull)
                            child results data (fieldPath ++ [field]) false h;
                        Ok (setFieldV h tempReturnValue field r))
                     children h;
              Ok (results, h')
            else Ok (results, h)
        | _, _ => Ok (results, h)
        end
    end.

(** The nested branch as the specification words it, except that the
    results are written to the node [l] itself and not to a copy: for
    each declared child in turn, recurse with [resultsNode[child]] and
    [parentNode = resultsNode], then write the child's result at
    [l[child]].  [childrenWritten l data fieldPath children h h'] holds
    when doing so takes the store from [h] to [h']. *)
Inductive childrenWritten (l : loc) (data : value) (fieldPath : list string)
  : list (string * JomqlResolverNode) -> store -> store -> Prop :=
| childrenWritten_nil h : childrenWritten l data fieldPath [] h h
| childrenWritten_cons field child children h r h1 h' :
    processJomqlResolverTree
      (if isObjectV h (VRef l) then getFieldV h (VRef l) field else VNull)
      child (VRef l) data (fieldPath ++ [field]) false h = Ok (r, h1) ->
    childrenWritten l data fieldPath children (setFieldV h1 l field r) h' ->
    childrenWritten l data fieldPath ((field, child) :: children) h h'.

(** ** The earlier helper: handleAggregatedQueries *)

(** This is the helper as it stood before the resolver tree became a
    tree of [JomqlResolverNode]: a resolver object maps each requested
    field to its entry.  [req] and [args] are only handed on to the
    dataloaders and are left out. *)
Module Legacy.

(** What a dataloader is called with: the key set as [{id: [...]}],
    the field's query, the typename and the field path. *)
Record DataloaderInput : Type := {
  dlKeys : list value;
  dlQuery : list (string * json);
  dlTypename : string;
  dlFieldPath : list string;
}.

(** A dataloader reads and writes the store, and returns an array of
    records or throws. *)
Definition DataloaderFunction : Type :=
  DataloaderInput -> store -> result (list value * store).

(** Modelled from the spec: [JomqlResolverObject] and [JomqlOutput] are
    imported from [../types]; an entry of a resolver object is taken
    with the parts this helper reads, [typename], [typeDef.dataloader],
    [query] and [nested], and a row is null or an object. *)
Inductive ResolverEntry : Type :=
| mkEntry (typename : string) (dataloader : option DataloaderFunction)
    (query : option (list (string * json)))
    (nested : option (list (string * ResolverEntry))).

Abbreviation JomqlResolverObject := (list (string * ResolverEntry)).

Definition typename (e : ResolverEntry) :=
  match e with mkEntry t _ _ _ => t end.
Definition dataloader (e : ResolverEntry) :=
  match e with mkEntry _ d _ _ => d end.
Definition query (e : ResolverEntry) :=
  match e with mkEntry _ _ q _ => q end.
Definition nested (e : ResolverEntry) :=
  match e with mkEntry _ _ _ n => n end.

(** [new Map()], [map.set(k, v)] and [map.get(k)] *)
Fixpoint mapSet (k v : value) (m : list (value * value))
  : list (value * value) :=
  match m with
  | [] => [(k, v)]
  | (k', v') :: m' =>
      if decide (k' = k) then (k', v) :: m' else (k', v') :: mapSet k v m'
  end.

Fixpoint mapGet (m : list (value * value)) (k : value) : value :=
  match m with
  | [] => VUndefined
  | (k', v') :: m' => if decide (k' = k) then v' else mapGet m' k
  end.

(** [result.id]; reading a property of null or undefined is a
    TypeError. *)
Definition readFieldV (h : store) (v : value) (key : string)
  : result value :=
  if isNullishV v
  then Throw (OtherError "TypeError: cannot read properties of null")
  else Ok (getFieldV h v key).

(** [resultsArray.forEach((result) => { if (result) keySet.add(result[field]) })] *)
Definition aggregateIds (h : store) (resultsArray : list value)
    (field : string) : list value :=
  newSet (omap (fun result =>
                  if truthyV result then Some (getFieldV h result field)
                  else None)
            resultsArray).

(** [aggregatedResults.forEach((result) => recordMap.set(result.id, result))] *)
Definition buildRecordMap (h : store) (aggregatedResults : list value)
  : result (list (value * value)) :=
  forEachM (fun recordMap result =>
              id ← readFieldV h result "id";
              Ok (mapSet id result recordMap))
    aggregatedResults [].

(** [resultsArray.forEach((result) => { if (result) result[field] =
    recordMap.get(result[field]) })]; the module is in strict mode, so
    the assignment to a property of a primitive is a TypeError. *)
Definition joinRecords (recordMap : list (value * value)) (field : string)
    (resultsArray : list value) (h : store) : result store :=
  forEachM (fun h result =>
              if truthyV result then
                match result with
                | VRef l =>
                    Ok (setFieldV h l field
                          (mapGet recordMap (getFieldV h result field)))
                | _ =>
                    Throw (OtherError
                             "TypeError: cannot create property on primitive")
                end
              else Ok h)
    resultsArray h.

(** [resultsArray.map((result) => { if (result) return result[field] })] *)
Definition nestedResultsArrayOf (h : store) (resultsArray : list value)
    (field : string) : list value :=
  map (fun result =>
         if truthyV result then getFieldV h result field else VUndefined)
    resultsArray.

(** The state of a run: the store and the dataloader calls made so
    far, oldest first. *)
Abbreviation runState := (store * list DataloaderInput)%type.

(** The body of [for (const field in jomqlResolverObject)]. *)
Fixpoint handleField (resultsArray : list value) (typename' : string)
    (fieldPath : list string) (st : runState) (field : string)
    (entry : ResolverEntry) {struct entry} : result runState :=
  let '(h, calls) := st in
  match dataloader entry, query entry, nested entry with
  | Some dataloaderFn, Some query', _ =>
      let call := {| dlKeys := aggregateIds h resultsArray field;
                     dlQuery := query'; dlTypename := typename';
                     dlFieldPath := fieldPath ++ [field] |} in
      '(aggregatedResults, h) ← dataloaderFn call h;
      recordMap ← buildRecordMap h aggregatedResults;
      h ← joinRecords recordMap field resultsArray h;
      Ok (h, calls ++ [call])
  | _, _, Some nestedResolver =>
      let nestedResultsArray := nestedResultsArrayOf h resultsArray field in
      forEachM (fun st '(field', entry') =>
                  handleField nestedResultsArray (typename entry)
                    (fieldPath ++ [field]) st field' entry')
        nestedResolver st
  | _, _, None => Ok st
  end.

(** [handleAggregatedQueries]: the loop over the fields of the resolver
    object; the recursive call is the loop inside [handleField]. *)
Definition handleAggregatedQueries (resultsArray : list value)
    (jomqlResolverObject : JomqlResolverObject) (typename' : string)
    (fieldPath : list string) (st : runState) : result runState :=
  forEachM (fun st '(field, entry) =>
              handleField resultsArray typename' fieldPath st field entry)
    jomqlResolverObject st.

(** *** What the traversal visits *)

(** The objects among the rows of an array. *)
Definition rowObjects (resultsArray : list value) : list loc :=
  omap (fun result => match result with VRef l => Some l | _ => None end)
    resultsArray.

(** The arrays of rows that the recursive calls made for one field
    are given, read off the store [h] along the fields that take the
    nested branch. *)
Fixpoint levelsBelow (h : store) (resultsArray : list value)
    (field : string) (entry : ResolverEntry) {struct entry}
  : list (list value) :=
  match dataloader entry, query entry, nested entry with
  | Some _, Some _, _ => []
  | _, _, Some nestedResolver =>
      let nestedResultsArray := nestedResultsArrayOf h resultsArray field in
      nestedResultsArray
        :: flat_map (fun '(field', entry') =>
                       levelsBelow h nestedResultsArray field' entry')
             nestedResolver
  | _, _, None => []
  end.

(** All arrays of rows of a run: the one given and those below. *)
Definition levels (h : store) (resultsArray : list value)
    (jomqlResolverObject : JomqlResolverObject) : list (list value) :=
  resultsArray
    :: flat_map (fun '(field, entry) => levelsBelow h resultsArray field entry)
         jomqlResolverObject.

(** The objects a run visits, with repetitions. *)
Definition visited (h : store) (resultsArray : list value)
    (jomqlResolverObject : JomqlResolverObject) : list loc :=
  flat_map rowObjects (levels h resultsArray jomqlResolverObject).

(** A row as [JomqlOutput] types it: nothing (a falsy value), or an
    object of the store. *)
Definition isRow (h : store) (result : value) : Prop :=
  truthyV result = false \/ exists l, result = VRef l /\ is_Some (h !! l).

Definition rowsTyped (h : store) (resultsArray : list value)
    (jomqlResolverObject : JomqlResolverObject) : Prop :=
  Forall (Forall (isRow h)) (levels h resultsArray jomqlResolverObject).

(** A dataloader that keeps to its interface: it leaves the store as
    it found it and returns an array of records, none of them null or
    undefined. *)
Definition dataloaderOk (dataloaderFn : DataloaderFunction) : Prop :=
  forall input h, exists records,
    dataloaderFn input h = Ok (records, h)
    /\ Forall (fun record => isNullishV record = false) records.

(** A resolver object as JavaScript builds it: the keys of an object
    are distinct, at every level; and its dataloaders keep to their
    interface. *)
Inductive entryOk : ResolverEntry -> Prop :=
| entryOk_intro typename' dataloader' query' nested' :
    from_option dataloaderOk True dataloader' ->
    (forall nestedResolver, nested' = Some nestedResolver ->
       NoDup (keys nestedResolver)
       /\ Forall (fun fe => entryOk fe.2) nestedResolver) ->
    entryOk (mkEntry typename' dataloader' query' nested').

Definition resolverObjectOk (jomqlResolverObject : JomqlResolverObject)
  : Prop :=
  NoDup (keys jomqlResolverObject)
  /\ Forall (fun fe => entryOk fe.2) jomqlResolverObject.

(** The record that [recordMap.get(key)] yields once the map has been
    built from [records]: the last one whose [id] is [key], undefined
    when there is none. *)
Definition matchingRecord (h : store) (records : list value) (key : value)
  : value :=
  default VUndefined
    (last (filter (fun record => getFieldV h record "id" = key) records)).

(** *** What a run guarantees *)

(** The objects below a field: those of the arrays the recursive
    calls are given. *)
Definition belowObjects (h : store) (resultsArray : list value)
    (field : string) (entry : ResolverEntry) : list loc :=
  flat_map rowObjects (levelsBelow h resultsArray field entry).

(** What processing one field guarantees, from store [h] to [h'] with
    the dataloader calls [calls']. *)
Record fieldPost (resultsArray : list value) (fieldPath : list string)
    (field : string) (entry : ResolverEntry) (h h' : store)
    (calls' : list DataloaderInput) : Prop := {
  fieldPost_dom : forall l, is_Some (h' !! l) <-> is_Some (h !! l);
  fieldPost_frame : forall l,
    l ∉ rowObjects resultsArray ->
    l ∉ belowObjects h resultsArray field entry ->
    h' !! l = h !! l;
  fieldPost_rows : forall l key,
    l ∈ rowObjects resultsArray -> key ≠ field ->
    getFieldV h' (VRef l) key = getFieldV h (VRef l) key;
  fieldPost_calls : forall call,
    call ∈ calls' -> exists rest, dlFieldPath call = fieldPath ++ field :: rest;
  fieldPost_join : forall dataloaderFn query',
    dataloader entry = Some dataloaderFn -> query entry = Some query' ->
    exists records call,
      calls' = [call]
      /\ dlKeys call = aggregateIds h resultsArray field
      /\ dlFieldPath call = fieldPath ++ [field]
      /\ dataloaderFn call h = Ok (records, h)
      /\ forall l, l ∈ rowObjects resultsArray ->
           getFieldV h' (VRef l) field
           = matchingRecord h records (getFieldV h (VRef l) field);
}.

Definition fieldSpec (field : string) (entry : ResolverEntry) : Prop :=
  forall resultsArray typename' fieldPath h calls,
    NoDup (rowObjects resultsArray
           ++ belowObjects h resultsArray field entry) ->
    Forall (isRow h) resultsArray ->
    Forall (Forall (isRow h)) (levelsBelow h resultsArray field entry) ->
    entryOk entry ->
    exists h' calls',
      handleField resultsArray typename' fieldPath (h, calls) field entry
      = Ok (h', calls ++ calls')
      /\ fieldPost resultsArray fieldPath field entry h h' calls'.

(** What a run over a resolver object guarantees. *)
Record runPost (resultsArray : list value) (fieldPath : list string)
    (jomqlResolverObject : JomqlResolverObject) (h h' : store)
    (calls' : list DataloaderInput) : Prop := {
  runPost_dom : forall l, is_Some (h' !! l) <-> is_Some (h !! l);
  runPost_frame : forall l,
    l ∉ visited h resultsArray jomqlResolverObject -> h' !! l = h !! l;
  runPost_rows : forall l key,
    l ∈ rowObjects resultsArray -> key ∉ keys jomqlResolverObject ->
    getFieldV h' (VRef l) key = getFieldV h (VRef l) key;
  runPost_calls : forall call,
    call ∈ calls' ->
    exists field rest,
      field ∈ keys jomqlResolverObject
      /\ dlFieldPath call = fieldPath ++ field :: rest;
  runPost_join : forall field entry dataloaderFn query',
    (field, entry) ∈ jomqlResolverObject ->
    dataloader entry = Some dataloaderFn -> query entry = Some query' ->
    exists hf records call,
      filter (fun c => dlFieldPath c = fieldPath ++ [field]) calls' = [call]
      /\ dlKeys call = aggregateIds h resultsArray field
      /\ (forall l, l ∉ visited h resultsArray jomqlResolverObject ->
            hf !! l = h !! l)
      /\ dataloaderFn call hf = Ok (records, hf)
      /\ forall l, l ∈ rowObjects resultsArray ->
           getFieldV h' (VRef l) field
           = matchingRecord hf records (getFieldV h (VRef l) field);
}.

(** The object of a row once its field has been joined. *)
Definition joinCell (recordMap : list (value * value)) (field : string)
    (o : object) : object :=
  {| isPlain := isPlain o;
     properties :=
       <[field := mapGet recordMap (default VUndefined (properties o !! field))]>
         (properties o) |}.

End Legacy.

(** ** Example data *)

(** The schemas and inputs at which the properties below are tried. *)
Module Example.

(** A scalar whose [parseValue] throws, one whose [parseValue] returns
    null, and one with a [serialize] and no [parseValue]. *)
Definition throwingScalar : JomqlScalarType :=
  {| scalarName := "id";
     parseValue := Some (fun _ => Throw (OtherError "not an id"));
     serialize := None |}.

Definition nullScalar : JomqlScalarType :=
  {| scalarName := "maybe";
     parseValue := Some (fun _ => Ok JNull);
     serialize := None |}.

Definition numberScalar : JomqlScalarType :=
  {| scalarName := "number";
     parseValue := None;
     serialize := Some (fun v => Ok v) |}.

Definition requiredArg : JomqlInputFieldType :=
  mkInputFieldType (InputScalar numberScalar) true false None.

Definition throwingArg : JomqlInputFieldType :=
  mkInputFieldType (InputScalar throwingScalar) false false None.

Definition nullArg : JomqlInputFieldType :=
  mkInputFieldType (InputScalar nullScalar) false false None.

Definition nullArrayArg : JomqlInputFieldType :=
  mkInputFieldType (InputScalar nullScalar) false false
    (Some {| allowNullElement := true |}).

(** An input type that declares [limit] only. *)
Definition pagination : JomqlInputType :=
  mkInputType "pagination"
    [("limit", mkInputFieldType (InputScalar numberScalar) false false None)]
    None.

Definition paginationArg : JomqlInputFieldType :=
  mkInputFieldType (InputObject pagination) false false None.

Definition unknownArgs : list (string * json) :=
  [("limit", JNum 10); ("unknown", JNum 1); ("other", JNum 2)].

(** A [User] type with the scalar fields [id] and [name]. *)
Definition scalarField (allowNull' : bool) (arrayOptions' : option ArrayOptions)
  : ObjectTypeDefinitionField :=
  mkField (FieldScalar numberScalar) allowNull' arrayOptions' None false None
    false false.

Definition user : JomqlObjectType :=
  mkObjectType "user"
    [("id", scalarField false None); ("name", scalarField true None)].

(** A field of type [User] with a resolver of its own. *)
Definition resolvedUserField : ObjectTypeDefinitionField :=
  mkField (FieldObject user) true None None false
    (Some (fun _ h => Ok (VNull, h))) false false.

(** A field of type [User] without a resolver, and the node for the
    query [{a: ...}] on it, whose child [a] has a resolver that
    returns 42. *)
Definition answerField : ObjectTypeDefinitionField :=
  mkField (FieldScalar numberScalar) true None None false
    (Some (fun _ h => Ok (VNum 42, h))) false false.

Definition plainUserField : ObjectTypeDefinitionField :=
  mkField (FieldObject user) true None None false None false false.

Definition children : list (string * JomqlResolverNode) :=
  [("a", mkNode answerField [] JNull None)].

Definition userNode : JomqlResolverNode :=
  mkNode plainUserField [("a", JNull)] JNull (Some children).

(** A store with the one result object [{a: 1}]. *)
Definition resultStore : store :=
  {[ 1%positive := {| isPlain := true; properties := {[ "a" := VNum 1 ]} |} ]}.

(** Leaf nodes for result validation. *)
Definition leafNode (allowNull' : bool) (arrayOptions' : option ArrayOptions)
  : JomqlResolverNode :=
  mkNode (scalarField allowNull' arrayOptions') [] JNull None.

(** Three posts by two authors, each with a [meta] object that names
    an editor, the two user records, and a dataloader that returns both
    records. *)
Definition post (author : Z) (meta : loc) : object :=
  {| isPlain := true;
     properties := {[ "author" := VNum author; "meta" := VRef meta ]} |}.

Definition postMeta (editor : Z) : object :=
  {| isPlain := true; properties := {[ "editor" := VNum editor ]} |}.

Definition authorRecord (id : Z) (name : string) : object :=
  {| isPlain := true;
     properties := {[ "id" := VNum id; "name" := VStr name ]} |}.

Definition posts : store :=
  list_to_map
    [(1%positive, post 1 21); (2%positive, post 2 22); (3%positive, post 1 23);
     (21%positive, postMeta 2); (22%positive, postMeta 1);
     (23%positive, postMeta 2);
     (10%positive, authorRecord 1 "ann"); (11%positive, authorRecord 2 "bob")].

Definition authorLoader : Legacy.DataloaderFunction :=
  fun _ h => Ok ([VRef 10%positive; VRef 11%positive], h).

Definition authorEntry : Legacy.ResolverEntry :=
  Legacy.mkEntry "user" (Some authorLoader) (Some []) None.


Definition postMetaResolverObject : Legacy.JomqlResolverObject :=
  [("author", authorEntry);
   ("meta", Legacy.mkEntry "meta" None (Some [])
              (Some [("editor", authorEntry)]))].

Definition threePosts : list value :=
  [VRef 1%positive; VRef 2%positive; VRef 3%positive].


End Example.

(** ** Error reports of argument validation *)

(** An ArgsError whose field path extends [fieldPath]. *)
Definition argsErrorUnder (fieldPath : list string) (e : thrown) : Prop :=
  exists message rest, e = JomqlArgsError message (fieldPath ++ rest).

(** An [inputsValidator] that reports with ArgsErrors under the path it
    is given. *)
Definition validatorReportsArgs
    (check : json -> list string -> result unit) : Prop :=
  forall arg fieldPath e, check arg fieldPath = Throw e ->
    argsErrorUnder fieldPath e.

(** Input types all of whose [inputsValidator]s do. *)
Inductive inputTypeReportsArgs : JomqlInputType -> Prop :=
| inputTypeReportsArgs_intro inputName fields check :
    from_option validatorReportsArgs True check ->
    Forall (fun kd => inputKindReportsArgs (argType kd.2)) fields ->
    inputTypeReportsArgs (mkInputType inputName fields check)
with inputKindReportsArgs : inputFieldKind -> Prop :=
| inputKindReportsArgs_scalar scalar :
    inputKindReportsArgs (InputScalar scalar)
| inputKindReportsArgs_object input :
    inputTypeReportsArgs input -> inputKindReportsArgs (InputObject input)
| inputKindReportsArgs_lookup name :
    inputKindReportsArgs (JomqlInputTypeLookup name).


(** ** generateAnonymousRootResolver *)


(** The names of the members of [Object.prototype].  A plain object
    inherits them, so [key in fields] holds for each of them whatever
    the object declares. *)
Definition objectPrototypeKeys : list string :=
  ["constructor"; "__defineGetter__"; "__defineSetter__"; "hasOwnProperty";
   "__lookupGetter__"; "__lookupSetter__"; "isPrototypeOf";
   "propertyIsEnumerable"; "toString"; "valueOf"; "__proto__";
   "toLocaleString"].

(** No object of the payload, at any depth, has a key that names a
    member of [Object.prototype].  On such a query [field in fields]
    is the test for a declared field, as [generateChild] takes it. *)
Fixpoint noPrototypeKeys (v : json) : bool :=
  match v with
  | JArr elements => forallb noPrototypeKeys elements
  | JObj properties =>
      forallb (fun kv => negb (bool_decide (kv.1 ∈ objectPrototypeKeys))
                         && noPrototypeKeys kv.2)
        properties
  | _ => true
  end.


(** ** Termination *)

(** The depth of a JSON tree. *)
Fixpoint depth (v : json) : nat :=
  match v with
  | JArr elements => S (foldr (fun ele n => Nat.max (depth ele) n) O elements)
  | JObj properties =>
      S (foldr (fun kv n => Nat.max (depth kv.2) n) O properties)
  | _ => O
  end.

(** Input types as JavaScript builds them, with callbacks that come
    back: the fields of an input type have distinct keys, and every
    [parseValue] and [inputsValidator] returns or throws. *)
Inductive inputTypeReturns : JomqlInputType -> Prop :=
| inputTypeReturns_intro inputName fields check :
    NoDup (keys fields) ->
    from_option (fun check' => forall arg fieldPath,
                   check' arg fieldPath ≠ OutOfFuel) True check ->
    Forall (fun kd => inputKindReturns (argType kd.2)) fields ->
    inputTypeReturns (mkInputType inputName fields check)
with inputKindReturns : inputFieldKind -> Prop :=
| inputKindReturns_scalar scalar :
    from_option (fun parse => forall v, parse v ≠ OutOfFuel) True
      (parseValue scalar) ->
    inputKindReturns (InputScalar scalar)
| inputKindReturns_object input :
    inputTypeReturns input -> inputKindReturns (InputObject input)
| inputKindReturns_lookup name :
    inputKindReturns (JomqlInputTypeLookup name).

(** Object types whose fields take arguments of such types. *)
Inductive objectTypeReturns : JomqlObjectType -> Prop :=
| objectTypeReturns_intro objectName fields :
    Forall (fun kf => fieldReturns kf.2) fields ->
    objectTypeReturns (mkObjectType objectName fields)
with fieldReturns : ObjectTypeDefinitionField -> Prop :=
| fieldReturns_intro type' allowNull' arrayOptions' args' hidden' resolver'
    defer' isRootResolverDefinition' :
    from_option (fun d => inputKindReturns (argType d)) True args' ->
    fieldKindReturns type' ->
    fieldReturns (mkField type' allowNull' arrayOptions' args' hidden'
                    resolver' defer' isRootResolverDefinition')
with fieldKindReturns : fieldKind -> Prop :=
| fieldKindReturns_scalar scalar : fieldKindReturns (FieldScalar scalar)
| fieldKindReturns_object objectType :
    objectTypeReturns objectType -> fieldKindReturns (FieldObject objectType)
| fieldKindReturns_lookup name :
    fieldKindReturns (JomqlObjectTypeLookup name).

(** ** Validated results *)

(** A property of a validated object and the child it was built for:
    the key is the child's, and the value is what [validate] gives for
    that property of the result [from]. *)
Definition fieldValidated
    (validate : json -> JomqlResolverNode -> list string -> result json)
    (from : json) (fieldPath : list string)
    (out : string * json) (child : string * JomqlResolverNode) : Prop :=
  out.1 = child.1
  /\ validate (getField from child.1) child.2 (fieldPath ++ [child.1])
     = Ok out.2.

(** ** Trees without resolvers *)

(** No node of the tree has a resolver or is a root resolver
    definition. *)
Fixpoint resolverFree (jomqlResolverNode : JomqlResolverNode) : bool :=
  match jomqlResolverNode with
  | mkNode typeDef' _ _ nested' =>
      negb (bool_decide (is_Some (resolver typeDef')))
      && negb (isRootResolverDefinition typeDef')
      && match nested' with
         | Some children => forallb (fun fc => resolverFree fc.2) children
         | None => true
         end
  end.

(** Two stores that read the same: the same objects are plain objects,
    and every property reads the same. *)
Definition sameReads (h h' : store) : Prop :=
  forall l,
    isObjectV h' (VRef l) = isObjectV h (VRef l)
    /\ forall key, getFieldV h' (VRef l) key = getFieldV h (VRef l) key.

(** ** The dataloader calls of the earlier helper *)

(** No field of the entry, or below it, has both a dataloader and a
    query. *)
Fixpoint neverLoads (entry : Legacy.ResolverEntry) : bool :=
  match entry with
  | Legacy.mkEntry _ dataloader' query' nested' =>
      negb (bool_decide (is_Some dataloader') && bool_decide (is_Some query'))
      && match nested' with
         | Some nestedResolver =>
             forallb (fun fe => neverLoads fe.2) nestedResolver
         | None => true
         end
  end.

(** What a dataloader call is made with besides the keys: the field
    path, the typename and the query. *)
Definition callShape (call : Legacy.DataloaderInput)
  : list string * string * list (string * json) :=
  (Legacy.dlFieldPath call, Legacy.dlTypename call, Legacy.dlQuery call).

(** The calls that a resolver object asks for, in the order of the
    traversal: one per field with a dataloader and a query, and below
    the other fields those of their nested resolver objects. *)
Fixpoint loadsBelow (typename' : string) (fieldPath : list string)
    (field : string) (entry : Legacy.ResolverEntry)
  : list (list string * string * list (string * json)) :=
  match entry with
  | Legacy.mkEntry entryTypename dataloader' query' nested' =>
      match dataloader', query', nested' with
      | Some _, Some q, _ => [(fieldPath ++ [field], typename', q)]
      | _, _, Some nestedResolver =>
          flat_map (fun '(field', entry') =>
                      loadsBelow entryTypename (fieldPath ++ [field])
                        field' entry')
            nestedResolver
      | _, _, None => []
      end
  end.

Definition loads (typename' : string) (fieldPath : list string)
    (jomqlResolverObject : Legacy.JomqlResolverObject)
  : list (list string * string * list (string * json)) :=
  flat_map (fun '(field, entry) => loadsBelow typename' fieldPath field entry)
    jomqlResolverObject.

(** ** The earlier helper: validation *)

(** The validation functions of the helper as it stood before the
    error classes and [arrayOptions] came in.  They throw plain
    [Error]s, which are [OtherError]s with the message; the message
    names the field as [root.a.b]. *)
Module Earlier.

(** [["root"].concat(...fieldPath).join(".")] *)
Definition fieldString (fieldPath : list string) : string :=
  join "." ("root" :: fieldPath).

(** Modelled from [../types] as the helper reads it: a
    [ScalarDefinition] has a [name] and may have a [parseValue]; an
    [ArgDefinition] has a [type] (a scalar, an input type, which is what
    has no [types], or the name of a type), may be [required] and
    [isArray], and may carry an [argsValidator]; of an input type the
    helper reads the [fields] only.  [parseValue] and [argsValidator]
    are called with the value and the field path. *)
Record ScalarDefinition : Type := {
  name : string;
  parseValue : option (json -> list string -> result json);
}.

Inductive ArgDefinition : Type :=
| mkArgDefinition (type : argKind) (required : bool) (isArray : bool)
    (argsValidator : option (json -> list string -> result unit))
with argKind : Type :=
| ArgScalar (scalar : ScalarDefinition)
| ArgInputType (fields : list (string * ArgDefinition))
| ArgTypeName (typeName : string).

(** The scalar branch: [parseValue] on each element of an array, else
    on the value; the local [args] is what the call goes on with. *)
Definition parseArgs (scalar : ScalarDefinition) (args : json)
    (fieldPath : list string) : result json :=
  match parseValue scalar with
  | Some parse =>
      match args with
      | JArr elements =>
          parsed ← mapM (fun ele => parse ele fieldPath) elements;
          Ok (JArr parsed)
      | _ => parse args fieldPath
      end
  | None => Ok args
  end.

(** [validateExternalArgs] with an [argDefinition].  What [parseValue]
    returns replaces the local variable [args] only: the caller's
    arguments are left as they are, and nothing is returned. *)
Fixpoint validateDefinedArgs (argDefinition : ArgDefinition) (args : json)
    (fieldPath : list string) {struct argDefinition} : result unit :=
  match argDefinition with
  | mkArgDefinition type' required' isArray' argsValidator' =>
      _ ← throwIf (required' && isUndefined args)
            (OtherError ("Args is required for field: '"
                         +:+ fieldString fieldPath +:+ "'"));
      _ ← throwIf (isArray' && negb (isArray args))
            (OtherError ("Expecting array for field: '"
                         +:+ fieldString fieldPath +:+ "'"));
      args' ←
        match type' with
        | ArgInputType fields =>
            _ ← throwIf (negb (isObject args))
                  (OtherError ("Expecting object args for field: '"
                               +:+ fieldString fieldPath +:+ "'"));
            _ ← forEachM (fun _ '(key, argDef) =>
                            validateDefinedArgs argDef (getField args key)
                              (fieldPath ++ [key]))
                  fields tt;
            Ok args
        | ArgScalar scalar => parseArgs scalar args fieldPath
        | ArgTypeName _ => Ok args
        end;
      match argsValidator' with
      | Some check => check args' fieldPath
      | None => Ok tt
      end
  end.

Definition validateExternalArgs (args : json)
    (argDefinition : option ArgDefinition) (fieldPath : list string)
  : result unit :=
  match argDefinition with
  | None =>
      throwIf (truthy args)
        (OtherError ("Not expecting any args for field: '"
                     +:+ fieldString fieldPath +:+ "'"))
  | Some d => validateDefinedArgs d args fieldPath
  end.

Definition type (d : ArgDefinition) :=
  match d with mkArgDefinition t _ _ _ => t end.
Definition required (d : ArgDefinition) :=
  match d with mkArgDefinition _ r _ _ => r end.
Definition isArray (d : ArgDefinition) :=
  match d with mkArgDefinition _ _ a _ => a end.
Definition argsValidator (d : ArgDefinition) :=
  match d with mkArgDefinition _ _ _ v => v end.

(** Of a [ResolverObject] the result checks read [isArray], which may
    be left out, and [allowNull]. *)
Record ResolverObject : Type := {
  resultIsArray : option bool;
  allowNull : bool;
}.

Definition validateResultNullish (value : json)
    (resolverObject : ResolverObject) (fieldPath : list string)
  : result unit :=
  throwIf (isNullish value && negb (allowNull resolverObject))
    (OtherError ("Null value not allowed for field: '"
                 +:+ fieldString fieldPath +:+ "'")).

Definition validateResultFields (value : json)
    (resolverObject : ResolverObject) (fieldPath : list string)
  : result unit :=
  match value with
  | JArr elements =>
      _ ← throwIf (bool_decide (resultIsArray resolverObject = Some false))
            (OtherError ("Array value not allowed for field: '"
                         +:+ fieldString fieldPath +:+ "'"));
      forEachM (fun _ ele => validateResultNullish ele resolverObject fieldPath)
        elements tt
  | _ =>
      _ ← throwIf (bool_decide (resultIsArray resolverObject = Some true))
            (OtherError ("Array value expected for field '"
                         +:+ fieldString fieldPath +:+ "'"));
      validateResultNullish value resolverObject fieldPath
  end.

End Earlier.

(** ** initializeJomql *)

(** The entry point of the earlier package.  The Express application is
    taken as the log of what is registered on it, in order; the module
    variables [exportedSchema], [exportedLookupValue] and
    [exportedDebug] are the other half of the state.  A call returns
    the state it leaves behind together with its outcome, so that what a
    failed call has already done can be stated. *)
Module Initialize.

Inductive ValidMethod : Type :=
| all | get | post | put | delete | patch | options | head.

(** Of a [RootResolverObject] the function reads [method] and
    [route]. *)
Record RootResolverObject : Type := {
  method : ValidMethod;
  route : string;
}.

(** Of the schema it reads [rootResolvers], a [Map], in insertion
    order. *)
Record Schema : Type := {
  rootResolvers : list (string * RootResolverObject);
}.

Record Params : Type := {
  schema : Schema;
  debug : option bool;
  lookupValue : json;
  jomqlPath : option string;
}.

(** The handlers come from [./helpers/router]; they are told apart by
    what they were created from. *)
Inductive Handler : Type :=
| createJomqlRequestHandler
    (rootResolvers' : list (string * RootResolverObject))
| createRestRequestHandler (item : RootResolverObject) (key : string).

Record State : Type := {
  routes : list (ValidMethod * string * Handler);
  jsonReplacer : bool;
  exportedSchema : option Schema;
  exportedLookupValue : json;
  exportedDebug : option bool;
}.

(** [jomqlPath.match(/^\//)] *)
Definition startsWithSlash (path : string) : bool :=
  String.prefix "/" path.

(** [app[method](route, handler)] and [app.post(route, handler)] *)
Definition register (m : ValidMethod) (path : string) (handler : Handler)
    (st : State) : State :=
  {| routes := routes st ++ [(m, path, handler)];
     jsonReplacer := jsonReplacer st;
     exportedSchema := exportedSchema st;
     exportedLookupValue := exportedLookupValue st;
     exportedDebug := exportedDebug st |}.

(** [schema.rootResolvers.forEach(...)]: the state reached, and the
    error if an item stopped the loop. *)
Fixpoint registerRootResolvers (path : string)
    (items : list (string * RootResolverObject)) (st : State)
  : State * result unit :=
  match items with
  | [] => (st, Ok tt)
  | (key, item) :: items' =>
      if String.eqb (route item) path
      then (st, Throw (OtherError ("Duplicate route for jomql path: '"
                                   +:+ path +:+ "'")))
      else registerRootResolvers path items'
             (register (method item) (route item)
                (createRestRequestHandler item key) st)
  end.

Definition initializeJomql (params : Params) (st : State)
  : State * result unit :=
  let lookupValue' :=
    if isUndefined (lookupValue params) then JNull else lookupValue params in
  let jomqlPath' := default "/jomql" (jomqlPath params) in
  if negb (startsWithSlash jomqlPath')
  then (st, Throw (OtherError "Invalid jomqlPath"))
  else
    let st :=
      {| routes := routes st;
         jsonReplacer := jsonReplacer st;
         exportedSchema := Some (schema params);
         exportedLookupValue := lookupValue';
         exportedDebug := Some (default false (debug params)) |} in
    let st :=
      register post jomqlPath'
        (createJomqlRequestHandler (rootResolvers (schema params))) st in
    let '(st, outcome) :=
      registerRootResolvers jomqlPath' (rootResolvers (schema params)) st in
    match outcome with
    | Ok _ =>
        ({| routes := routes st;
            jsonReplacer := true;
            exportedSchema := exportedSchema st;
            exportedLookupValue := exportedLookupValue st;
            exportedDebug := exportedDebug st |}, Ok tt)
    | _ => (st, outcome)
    end.

Definition getLookupValue (st : State) : json := exportedLookupValue st.

Definition isDebug (st : State) : option bool := exportedDebug st.

End Initialize.

(** ** Further example data *)

Module Fixtures.

(** An argument that is an array of [pagination] objects. *)
Definition paginationArrayArg : JomqlInputFieldType :=
  mkInputFieldType (InputObject Example.pagination) false false
    (Some {| allowNullElement := false |}).

(** A [pagination] argument that may be null. *)
Definition nullablePaginationArg : JomqlInputFieldType :=
  mkInputFieldType (InputObject Example.pagination) false true None.

(** The query [{id, name}], with null as the lookup value. *)
Definition userQuery : list (string * json) :=
  [("id", JNull); ("name", JNull)].

(** A scalar whose [parseValue] adds one to a number, an input type
    with the field [min] of that scalar, a type [Account] whose field
    [balance] takes an argument of that input type, and the query
    [{balance: {__args: {min: 1}}}]. *)
Definition incrementScalar : JomqlScalarType :=
  {| scalarName := "increment";
     parseValue :=
       Some (fun v =>
               match v with
               | JNum n => Ok (JNum (n + 1))
               | _ => Throw (OtherError "not a number")
               end);
     serialize := None |}.

Definition minFilter : JomqlInputType :=
  mkInputType "minFilter"
    [("min", mkInputFieldType (InputScalar incrementScalar) false false None)]
    None.

Definition account : JomqlObjectType :=
  mkObjectType "account"
    [("balance",
      mkField (FieldScalar Example.numberScalar) true None
        (Some (mkInputFieldType (InputObject minFilter) false false None))
        false None false false)].

Definition accountField : ObjectTypeDefinitionField :=
  mkField (FieldObject account) true None None false None false false.

Definition balanceQuery : list (string * json) :=
  [("balance", JObj [("__args", JObj [("min", JNum 1)])])].

(** A scalar whose [serialize] accepts positive numbers only. *)
Definition positiveScalar : JomqlScalarType :=
  {| scalarName := "positive";
     parseValue := None;
     serialize :=
       Some (fun v =>
               match v with
               | JNum n =>
                   if 0 <? n then Ok v else Throw (OtherError "not positive")
               | _ => Throw (OtherError "not a number")
               end) |}.

Definition positiveLeaf (arrayOptions' : option ArrayOptions)
  : JomqlResolverNode :=
  mkNode
    (mkField (FieldScalar positiveScalar) true arrayOptions' None false None
       false false)
    [] JNull None.

(** A node for an array of [User]s, with the one child [a]. *)
Definition usersNode : JomqlResolverNode :=
  mkNode
    (mkField (FieldObject Example.user) true
       (Some {| allowNullElement := true |}) None false None false false)
    [("a", JNull)] JNull (Some Example.children).

(** The node for the query [{id, name}] on a [User] without
    resolvers. *)
Definition plainUserNode : JomqlResolverNode :=
  mkNode Example.plainUserField userQuery JNull
    (Some [("id", Example.leafNode false None);
           ("name", Example.leafNode true None)]).

(** A resolver object without dataloaders. *)
Definition metaOnlyResolverObject : Legacy.JomqlResolverObject :=
  [("meta", Legacy.mkEntry "meta" None (Some [])
              (Some [("editor", Legacy.mkEntry "user" None None None)]))].

(** An argument of the earlier helper: an input type that declares
    [limit]. *)
Definition earlierPagination : Earlier.ArgDefinition :=
  Earlier.mkArgDefinition
    (Earlier.ArgInputType
       [("limit",
         Earlier.mkArgDefinition (Earlier.ArgTypeName "number") false false
           None)])
    false false None.

(** A schema with one REST route, one with a route that is the jomql
    path, and the state before [initializeJomql] has run. *)
Definition restUsers : Initialize.RootResolverObject :=
  {| Initialize.method := Initialize.get; Initialize.route := "/users" |}.

Definition restClash : Initialize.RootResolverObject :=
  {| Initialize.method := Initialize.post; Initialize.route := "/jomql" |}.

Definition paramsOf (items : list (string * Initialize.RootResolverObject))
  : Initialize.Params :=
  {| Initialize.schema := {| Initialize.rootResolvers := items |};
     Initialize.debug := None;
     Initialize.lookupValue := JUndefined;
     Initialize.jomqlPath := None |}.

Definition freshState : Initialize.State :=
  {| Initialize.routes := [];
     Initialize.jsonReplacer := false;
     Initialize.exportedSchema := None;
     Initialize.exportedLookupValue := JUndefined;
     Initialize.exportedDebug := None |}.

End Fixtures.

(* ================================================================== *)
(** * Part II: properties *)
(* ================================================================== *)

(** ** The result of a call *)

Lemma Ok_bind {A B} (a : A) (f : A -> result B) : Ok a ≫= f = f a.
Proof. done. Qed.

Lemma forEachM_cons {A S} (body : S -> A -> result S) a l s :
  forEachM body (a :: l) s = s' ← body s a; forEachM body l s'.
Proof. done. Qed.

Lemma bind_Ok {A B} (m : result A) (f : A -> result B) (b : B) :
  m ≫= f = Ok b -> exists a, m = Ok a /\ f a = Ok b.
Proof. destruct m as [a| |]; simpl; [eauto | discriminate..]. Qed.

Lemma bind_Throw {A B} (m : result A) (f : A -> result B) (e : thrown) :
  m ≫= f = Throw e -> m = Throw e \/ exists a, m = Ok a /\ f a = Throw e.
Proof. destruct m as [a| |]; simpl; [eauto | | discriminate]. intros [= ->]; eauto. Qed.

Lemma refines_refl {A} (r : result A) : refines r r.
Proof. by right. Qed.

Lemma refines_bind {A B} (m1 m2 : result A) (f1 f2 : A -> result B) :
  refines m1 m2 -> (forall a, refines (f1 a) (f2 a)) ->
  refines (m1 ≫= f1) (m2 ≫= f2).
Proof.
  intros [->| ->] Hf; [by left|].
  destruct m2 as [a| |]; simpl; [apply Hf|by right|by left].
Qed.

Lemma forEachM_refines {A S} (body1 body2 : S -> A -> result S) l :
  (forall s a, refines (body1 s a) (body2 s a)) ->
  forall s, refines (forEachM body1 l s) (forEachM body2 l s).
Proof.
  intros Hbody. induction l as [|a l IH]; intros s; [apply refines_refl|].
  rewrite !forEachM_cons. apply refines_bind; [apply Hbody|apply IH].
Qed.

Lemma mapM_cons {A B} (f : A -> result B) a l :
  mapM f (a :: l) = b ← f a; bs ← mapM f l; Ok (b :: bs).
Proof. done. Qed.

Lemma mapM_refines {A B} (f1 f2 : A -> result B) l :
  (forall a, refines (f1 a) (f2 a)) ->
  refines (mapM f1 l) (mapM f2 l).
Proof.
  intros Hf. induction l as [|a l IH]; [apply refines_refl|].
  rewrite !mapM_cons. apply refines_bind; [apply Hf|]. intros b.
  apply refines_bind; [apply IH|]. intros bs. apply refines_refl.
Qed.

(** The first element that throws, after elements that return, makes
    the loop throw. *)
Lemma mapM_app_Throw {A B} (f : A -> result B) before a after bs e :
  mapM f before = Ok bs -> f a = Throw e ->
  mapM f (before ++ a :: after) = Throw e.
Proof.
  revert bs. induction before as [|a0 before IH]; intros bs.
  { intros _ Ha. by rewrite app_nil_l, mapM_cons, Ha. }
  rewrite <- app_comm_cons, !mapM_cons.
  destruct (f a0) as [b0| |]; [|done..]. rewrite !Ok_bind.
  destruct (mapM f before) as [bs0| |] eqn:Hbefore; [|done..].
  intros _ Ha. by rewrite (IH bs0 eq_refl Ha).
Qed.

(** A loop that returns has returned on every element. *)
Lemma mapM_Ok_elem {A B} (f : A -> result B) l out a :
  mapM f l = Ok out -> a ∈ l -> exists b, f a = Ok b.
Proof.
  revert out. induction l as [|a0 l IH]; intros out;
    [by intros _ ?%elem_of_nil|].
  rewrite mapM_cons. destruct (f a0) as [b0| |] eqn:Ha0; [|done..].
  rewrite Ok_bind. destruct (mapM f l) as [bs| |]; [|done..].
  intros _ [->|Hin]%elem_of_cons; [by exists b0|]. by apply (IH bs).
Qed.

Lemma throwIf_Throw c e e' : throwIf c e = Throw e' -> e' = e.
Proof. destruct c; simpl; congruence. Qed.

Lemma tryCatchThrow_Throw {A} (m : result A) e e' :
  tryCatchThrow m e = Throw e' -> e' = e.
Proof. destruct m; simpl; congruence. Qed.

(** ** validateExternalArgs *)

Section ValidateExternalArgsFacts.
Context (inputTypeDefs : gmap string JomqlInputType).
Local Abbreviation validate := (validateExternalArgs inputTypeDefs).

Lemma checkArrayField_Throw args d fieldPath e :
  checkArrayField args d fieldPath = Throw e ->
  exists message, e = JomqlArgsError message fieldPath.
Proof.
  unfold checkArrayField. destruct (argArrayOptions d); [|discriminate].
  intros [H|(? & _ & H)]%bind_Throw; apply throwIf_Throw in H; eauto.
Qed.

(** Once the loop over the declared fields has run, [keysToValidate]
    holds the keys of the argument that no declared field has. *)
Lemma validateKey_loop_keys rec fieldPath fields o ks o' ks' :
  forEachM (validateKey rec fieldPath) fields (o, ks) = Ok (o', ks') ->
  ks' = filter (fun k => k ∉ keys fields) ks.
Proof.
  revert o ks. induction fields as [|[key argDef] fields IH]; intros o ks.
  - simpl. intros [= _ <-]. induction ks as [|k ks IHks]; [done|].
    rewrite filter_cons_True by apply not_elem_of_nil. by f_equal.
  - simpl. intros ([o1 ks1] & Hstep & Hrest)%bind_Ok.
    apply bind_Ok in Hstep as ([v ?] & _ & [= <- <-]).
    apply IH in Hrest as ->. unfold setDelete.
    rewrite list_filter_filter. apply list_filter_iff.
    intros k. unfold keys. simpl. rewrite not_elem_of_cons. tauto.
Qed.

(** *** Fuel *)

(** More fuel does not change a result. *)
Lemma validateInput_refines rec1 rec2 inputType d fieldPath args :
  (forall a def p, refines (rec1 a def p) (rec2 a def p)) ->
  refines (validateInput rec1 inputType d fieldPath args)
    (validateInput rec2 inputType d fieldPath args).
Proof.
  intros Hrec. unfold validateInput.
  apply refines_bind; [apply refines_refl|]. intros argsArray.
  apply refines_bind; [|intros; apply refines_refl].
  apply mapM_refines. intros arg. unfold validateArg.
  apply refines_bind; [apply refines_refl|]. intros _.
  destruct arg; try apply refines_refl.
  apply refines_bind; [|intros; apply refines_refl].
  apply forEachM_refines. intros [o ks] [key argDef]. unfold validateKey.
  apply refines_bind; [apply Hrec|]. intros [? ?]. apply refines_refl.
Qed.

Lemma validateExternalArgs_fuel_S fuel : forall args argDefinition fieldPath,
  refines (validate fuel args argDefinition fieldPath)
    (validate (S fuel) args argDefinition fieldPath).
Proof.
  induction fuel as [|fuel IH]; intros args argDefinition fieldPath;
    [by left|].
  cbn [validateExternalArgs].
  destruct argDefinition as [d|]; [|apply refines_refl].
  destruct (negb (argRequired d) && isUndefined args); [apply refines_refl|].
  do 3 (apply refines_bind; [apply refines_refl|intros _]).
  apply refines_bind; [apply refines_refl|intros argDefType].
  apply refines_bind; [|intros; apply refines_refl].
  destruct argDefType as [inputType|scalar]; [|apply refines_refl].
  apply refines_bind; [|intros; apply refines_refl].
  apply validateInput_refines. apply IH.
Qed.

Lemma validateExternalArgs_fuel_mono fuel fuel' args argDefinition fieldPath r :
  (fuel <= fuel')%nat ->
  validate fuel args argDefinition fieldPath = r ->
  r ≠ OutOfFuel ->
  validate fuel' args argDefinition fieldPath = r.
Proof.
  intros Hle <- Hr. induction Hle as [|fuel' _ IH]; [done|].
  destruct (validateExternalArgs_fuel_S fuel' args argDefinition fieldPath)
    as [Hout|<-]; [|done]. by rewrite Hout in IH.
Qed.

(** *** The checks *)

(** C6: with [required] set, [validateExternalArgs] on an undefined
    [args] throws an ArgsError ("Args is required"); it never returns
    a value. *)
Theorem validateExternalArgs_required_undefined fuel d fieldPath :
  argRequired d = true ->
  validate (S fuel) JUndefined (Some d) fieldPath
  = Throw (JomqlArgsError "Args is required" fieldPath).
Proof. intros Hreq. simpl. by rewrite Hreq. Qed.

(** C5: for a scalar argument with a [parseValue] and an input that
    is not null, whatever [validateExternalArgs] throws is an
    ArgsError at the argument's path; and when the call reaches
    [parseValue] and it throws, the error is the ArgsError "Invalid
    scalar value for '<name>'", whatever was thrown. *)
Theorem validateExternalArgs_parse_error_wrapped
    fuel scalar parse d args fieldPath :
  argType d = InputScalar scalar ->
  parseValue scalar = Some parse ->
  args ≠ JNull ->
  (forall e, validate (S fuel) args (Some d) fieldPath = Throw e ->
     exists message, e = JomqlArgsError message fieldPath)
  /\ (forall e0, args ≠ JUndefined ->
        checkArrayField args d fieldPath = Ok tt ->
        applyParseValue parse d args = Throw e0 ->
        validate (S fuel) args (Some d) fieldPath
        = Throw (JomqlArgsError
                   ("Invalid scalar value for '" +:+ scalarName scalar +:+ "'")
                   fieldPath)).
Proof.
  intros Htype Hparse Hnull.
  assert (HisNull : isNull args = false) by by destruct args.
  split.
  - intros e. simpl. rewrite Htype. simpl.
    destruct (negb (argRequired d) && isUndefined args); [discriminate|].
    intros [H|(? & _ & H)]%bind_Throw; [apply throwIf_Throw in H; eauto|].
    apply bind_Throw in H as [H|(? & _ & H)];
      [apply throwIf_Throw in H; eauto|].
    apply bind_Throw in H as [H|(? & _ & H)];
      [by apply checkArrayField_Throw in H|].
    apply bind_Throw in H as [H|([] & H & ?)]; [|discriminate].
    apply bind_Throw in H as [H|(? & _ & ?)]; [|discriminate].
    unfold parseScalar in H. rewrite Hparse, HisNull in H. simpl in H.
    apply tryCatchThrow_Throw in H. eauto.
  - intros e0 Hundef Harr Hthrow. simpl. rewrite Htype, Harr. simpl.
    assert (isUndefined args = false) as -> by by destruct args.
    rewrite HisNull, !andb_false_r. simpl.
    unfold parseScalar. rewrite Hparse, HisNull, Hthrow. done.
Qed.

(** C10, as amended: for a scalar argument without [arrayOptions] and
    an input that is neither null nor undefined, if [parseValue]
    returns null or undefined then [validateExternalArgs] returns the
    raw argument. *)
Theorem validateExternalArgs_nullish_parse_keeps_raw
    fuel scalar parse d args parsed fieldPath :
  argType d = InputScalar scalar ->
  parseValue scalar = Some parse ->
  argArrayOptions d = None ->
  args ≠ JNull -> args ≠ JUndefined ->
  parse args = Ok parsed ->
  isNullish parsed = true ->
  validate (S fuel) args (Some d) fieldPath = Ok (args, args).
Proof.
  intros Htype Hparse Harr Hnull Hundef Hp Hnullish. simpl.
  assert (isUndefined args = false) as -> by by destruct args.
  assert (HisNull : isNull args = false) by by destruct args.
  rewrite Htype, HisNull, !andb_false_r. simpl.
  unfold checkArrayField, parseScalar, applyParseValue.
  rewrite Harr, Hparse, HisNull. simpl.
  assert (match args with JArr _ | _ => parse args end = Ok parsed) as ->
    by by destruct args.
  simpl. unfold nullishCoalesce. by rewrite Hnullish.
Qed.

(** With [arrayOptions] and an array, the parsed elements are what is
    returned, null or not. *)
Lemma validateExternalArgs_array_parse
    fuel scalar parse d opts elements parsed fieldPath :
  argType d = InputScalar scalar ->
  parseValue scalar = Some parse ->
  argArrayOptions d = Some opts ->
  mapM parse elements = Ok parsed ->
  validate (S fuel) (JArr elements) (Some d) fieldPath
  = Ok (JArr parsed, JArr elements).
Proof.
  intros Htype Hparse Harr Hp. simpl.
  rewrite Htype, !andb_false_r. simpl.
  unfold checkArrayField, parseScalar, applyParseValue.
  rewrite Harr, Hparse, Hp. simpl. by rewrite !andb_false_r.
Qed.

(** The unknown keys of one argument object: after the declared
    fields have been validated, a nonempty [keysToValidate] is thrown
    as one ArgsError naming all of them. *)
Lemma validateArg_unknown_keys rec inputType d fieldPath o o' ks :
  forEachM (validateKey rec fieldPath) (inputFields inputType)
    (o, newSet (keys o)) = Ok (o', ks) ->
  let unknown :=
    filter (fun k => k ∉ keys (inputFields inputType)) (newSet (keys o)) in
  unknown ≠ [] ->
  validateArg rec inputType d fieldPath (JObj o)
  = Throw (JomqlArgsError ("Unknown args '" +:+ join "," unknown +:+ "'")
             fieldPath).
Proof.
  intros Hloop unknown Hne. unfold validateArg. simpl. rewrite Hloop. simpl.
  apply validateKey_loop_keys in Hloop as ->. fold unknown.
  rewrite bool_decide_true; [done|]. destruct unknown; [done|simpl; lia].
Qed.

(** An array of arguments that holds an object comes from an argument
    that is an object or an array. *)
Lemma argsArrayOf_object args d fieldPath argsArray o :
  argsArrayOf args d fieldPath = Ok argsArray ->
  JObj o ∈ argsArray ->
  isUndefined args = false /\ isNull args = false.
Proof.
  unfold argsArrayOf.
  destruct args, (argArrayOptions d); try done.
  all: by intros [= <-] [= <-]%list_elem_of_singleton.
Qed.

(** C4: for every argument object of an input type, be it the argument
    itself or an element of an array argument, once every declared
    field has been validated, keys that no declared field has make
    [validateExternalArgs] throw one ArgsError whose message lists all
    of them, joined by commas; and an argument that holds such an
    object is never accepted. *)
Theorem validateExternalArgs_unknown_keys
    fuel d inputType fieldPath args argsArray :
  resolveArgType inputTypeDefs (argType d) fieldPath = Ok (inl inputType) ->
  checkArrayField args d fieldPath = Ok tt ->
  argsArrayOf args d fieldPath = Ok argsArray ->
  let unknownOf := fun o : list (string * json) =>
    filter (fun k => k ∉ keys (inputFields inputType)) (newSet (keys o)) in
  (forall before o after validated o' ks,
     argsArray = before ++ JObj o :: after ->
     mapM (validateArg (validate fuel) inputType d fieldPath) before
     = Ok validated ->
     forEachM (validateKey (validate fuel) fieldPath) (inputFields inputType)
       (o, newSet (keys o)) = Ok (o', ks) ->
     unknownOf o ≠ [] ->
     validate (S fuel) args (Some d) fieldPath
     = Throw (JomqlArgsError
                ("Unknown args '" +:+ join "," (unknownOf o) +:+ "'")
                fieldPath))
  /\ (forall o returned,
        JObj o ∈ argsArray ->
        unknownOf o ≠ [] ->
        validate (S fuel) args (Some d) fieldPath ≠ Ok returned).
Proof.
  intros Hres Hcheck HargsArray unknownOf. split.
  - intros before o after validated o' ks -> Hbefore Hloop Hne.
    destruct (argsArrayOf_object args d fieldPath _ o HargsArray)
      as [Hundef Hnull].
    { apply elem_of_app. right. left. }
    cbn [validateExternalArgs]. rewrite Hundef, Hnull, !andb_false_r.
    simpl. rewrite Hcheck, Hres. simpl.
    unfold validateInput. rewrite HargsArray. simpl.
    by rewrite (mapM_app_Throw _ _ _ _ _ _ Hbefore
                  (validateArg_unknown_keys _ _ _ _ _ _ _ Hloop Hne)).
  - intros o returned Hin Hne. cbn [validateExternalArgs].
    destruct (negb (argRequired d) && isUndefined args) eqn:Hearly.
    { apply andb_true_iff in Hearly as [_ Hundef].
      destruct (argsArrayOf_object args d fieldPath _ o HargsArray Hin).
      congruence. }
    intros H. do 3 (apply bind_Ok in H as (_ & _ & H)).
    rewrite Hres, Ok_bind in H.
    apply bind_Ok in H as ([parsedArgs args'] & H & _).
    apply bind_Ok in H as (args'' & H & _).
    unfold validateInput in H. rewrite HargsArray, Ok_bind in H.
    apply bind_Ok in H as (argsArray' & Hmap & _).
    destruct (mapM_Ok_elem _ _ _ _ Hmap Hin) as [arg' Harg].
    unfold validateArg in Harg.
    apply bind_Ok in Harg as (_ & _ & Harg).
    apply bind_Ok in Harg as ([o' ks] & Hloop & Harg).
    apply bind_Ok in Harg as ([] & Hunknown & _).
    apply validateKey_loop_keys in Hloop as ->. fold (unknownOf o) in Hunknown.
    destruct (unknownOf o); [done|]. by rewrite bool_decide_true in Hunknown
      by (simpl; lia).
Qed.
End ValidateExternalArgsFacts.

(** ** generateJomqlResolverTree *)

Section GenerateJomqlResolverTreeFacts.
Context (objectTypeDefs : gmap string JomqlObjectType).
Context (inputTypeDefs : gmap string JomqlInputType).
Context (lookupValue : json).
Local Abbreviation generate :=
  (generateJomqlResolverTree objectTypeDefs inputTypeDefs lookupValue).

(** More fuel does not change a result. *)
Lemma generateJomqlResolverTree_fuel_S fuel :
  forall fieldValue resolverObject fieldPath fullTree,
    refines
      (generateJomqlResolverTree objectTypeDefs inputTypeDefs lookupValue
         fuel fieldValue resolverObject fieldPath fullTree)
      (generateJomqlResolverTree objectTypeDefs inputTypeDefs lookupValue
         (S fuel) fieldValue resolverObject fieldPath fullTree).
Proof.
  induction fuel as [|fuel IH];
    intros fieldValue resolverObject fieldPath fullTree; [by left|].
  cbn [generateJomqlResolverTree].
  apply refines_bind; [apply refines_refl|intros fieldType].
  do 4 (apply refines_bind; [apply refines_refl|intros _]).
  destruct fieldValue; try apply refines_refl.
  apply refines_bind; [apply validateExternalArgs_fuel_S|intros [? ?]].
  apply refines_bind; [|intros; apply refines_refl].
  destruct fieldType as [objectType|scalar]; [|apply refines_refl].
  apply refines_bind; [|intros; apply refines_refl].
  apply forEachM_refines. intros nestedNodes [field v]. unfold generateChild.
  destruct (String.eqb field "__args"); [apply refines_refl|].
  destruct (lookupKey field _); [|apply refines_refl].
  apply refines_bind; [apply refines_refl|intros _].
  destruct (fullTree || _); [|apply refines_refl].
  apply refines_bind; [apply IH|intros; apply refines_refl].
Qed.

Lemma generateJomqlResolverTree_fuel_mono
    fuel fuel' fieldValue resolverObject fieldPath fullTree r :
  (fuel <= fuel')%nat ->
  generateJomqlResolverTree objectTypeDefs inputTypeDefs lookupValue
    fuel fieldValue resolverObject fieldPath fullTree = r ->
  r ≠ OutOfFuel ->
  generateJomqlResolverTree objectTypeDefs inputTypeDefs lookupValue
    fuel' fieldValue resolverObject fieldPath fullTree = r.
Proof.
  intros Hle <- Hr. induction Hle as [|fuel' _ IH]; [done|].
  destruct (generateJomqlResolverTree_fuel_S fuel' fieldValue resolverObject
              fieldPath fullTree) as [Hout|<-]; [|done].
  by rewrite Hout in IH.
Qed.

(** [Object.keys(o).length === 1 && "__args" in o] *)
Lemma only_args_key {A} (o : list (string * A)) :
  negb (hasKey "__args" o) || negb (length (keys o) =? 1)%nat = false
  <-> keys o = ["__args"].
Proof.
  unfold hasKey. rewrite orb_false_iff, !negb_false_iff.
  rewrite bool_decide_eq_true, Nat.eqb_eq. split.
  - intros [Hin Hlen]. destruct (keys o) as [|k [|??]]; try done.
    by apply list_elem_of_singleton in Hin as ->.
  - intros ->. split; [apply list_elem_of_singleton|]; done.
Qed.

(** C7: for a leaf field (its type is a scalar) and a query value that
    is an object, [generateJomqlResolverTree] throws the QueryError
    "Scalar node can only accept __args and no other field" unless the
    object's keys are exactly [__args]; when they are, the call goes
    on to validate the args and returns a node without children. *)
Theorem generateJomqlResolverTree_leaf_object_only_args
    fuel o resolverObject scalar fieldPath fullTree :
  fieldType resolverObject = FieldScalar scalar ->
  (keys o ≠ ["__args"] ->
     generate (S fuel) (JObj o) resolverObject fieldPath fullTree
     = Throw (JomqlQueryError
                "Scalar node can only accept __args and no other field"
                fieldPath))
  /\ (forall a, o = [("__args", a)] ->
        generate (S fuel) (JObj o) resolverObject fieldPath fullTree
        = '(_, argsInPlace) ←
            validateExternalArgs inputTypeDefs fuel a
              (fieldArgs resolverObject) (fieldPath ++ ["__args"]);
          Ok (mkNode resolverObject []
                (if isUndefined a then JNull else argsInPlace) None)).
Proof.
  intros Htype. split.
  - intros Hkeys. simpl. rewrite Htype. simpl.
    destruct (negb (hasKey "__args" o) || negb (length (keys o) =? 1)%nat)
      eqn:Hcheck; [done|]. by apply only_args_key in Hcheck.
  - intros a ->. simpl. rewrite Htype. simpl.
    rewrite !andb_false_r. simpl.
    destruct (validateExternalArgs _ _ _ _ _) as [[??]| |]; done.
Qed.

(** With a resolver on the field and [fullTree] false, the loop over
    the query's keys adds no child. *)
Lemma generateChild_resolver_loop rec objectType resolverObject fieldPath
    o nestedNodes children :
  is_Some (resolver resolverObject) ->
  forEachM (generateChild rec objectType resolverObject fieldPath false)
    o nestedNodes = Ok children ->
  children = nestedNodes.
Proof.
  intros Hres. revert nestedNodes.
  induction o as [|[field v] o IH]; intros nestedNodes; simpl.
  - by intros [= <-].
  - intros (nodes & Hstep & Hrest)%bind_Ok. apply IH in Hrest as ->.
    revert Hstep. rewrite bool_decide_true by done. simpl.
    destruct (String.eqb field "__args"); [by intros [= <-]|].
    destruct (lookupKey field _); [|done].
    destruct (hidden _); simpl; [done|]. by intros [= <-].
Qed.

(** C2, as amended: for a field with its own resolver, [fullTree]
    false and an object as query value, the returned node has no
    child: [nested] is undefined when the field is a leaf and the
    empty object when its type is an object type. *)
Theorem generateJomqlResolverTree_resolver_field_no_children
    fuel o resolverObject fieldPath node :
  is_Some (resolver resolverObject) ->
  generate (S fuel) (JObj o) resolverObject fieldPath false = Ok node ->
  exists t,
    resolveFieldType objectTypeDefs (fieldType resolverObject) fieldPath = Ok t
    /\ nested node = match t with inl _ => Some [] | inr _ => None end.
Proof.
  intros Hres. simpl.
  intros (t & Ht & H)%bind_Ok. exists t. split; [done|].
  do 3 (apply bind_Ok in H as (? & _ & H)).
  apply bind_Ok in H as ([? argsInPlace] & _ & H).
  apply bind_Ok in H as (nestedNodes & Hnested & [= <-]). simpl.
  destruct t as [objectType|scalar]; [|by injection Hnested as <-].
  apply bind_Ok in Hnested as (children & Hloop & [= <-]).
  by apply generateChild_resolver_loop in Hloop as ->.
Qed.
End GenerateJomqlResolverTreeFacts.

(** ** Result validation *)

Section ResultValidationFacts.
Context (objectTypeDefs : gmap string JomqlObjectType).

Lemma validateResultFields_null_rejected value resolverObject fieldPath :
  allowNull resolverObject = false ->
  arrayOptions resolverObject = None ->
  isNullish value = true ->
  validateResultFields value resolverObject fieldPath
  = Throw (JomqlResultError "Null value not allowed" fieldPath).
Proof.
  intros Hnull Harr Hvalue. unfold validateResultFields, validateResultNullish.
  by rewrite Harr, Hnull, Hvalue.
Qed.

(** C8: for a leaf node whose field has [allowNull] false and no
    [arrayOptions], validating a null or undefined result throws the
    ResultError "Null value not allowed", whatever the field's type
    and whether or not it has a [serialize]. *)
Theorem validateJomqlResults_leaf_null_rejected
    value jomqlResolverNode fieldPath :
  nested jomqlResolverNode = None ->
  allowNull (typeDef jomqlResolverNode) = false ->
  arrayOptions (typeDef jomqlResolverNode) = None ->
  isNullish value = true ->
  validateJomqlResults objectTypeDefs value jomqlResolverNode fieldPath
  = Throw (JomqlResultError "Null value not allowed" fieldPath).
Proof.
  intros Hleaf Hnull Harr Hvalue.
  destruct jomqlResolverNode as [t q a n]. simpl in *. subst n.
  by rewrite validateResultFields_null_rejected.
Qed.

Lemma validateResultFields_array_shape value resolverObject opts fieldPath :
  arrayOptions resolverObject = Some opts ->
  (isArray value = false -> value ≠ JNull ->
     exists message,
       validateResultFields value resolverObject fieldPath
       = Throw (JomqlResultError message fieldPath))
  /\ (validateResultFields JNull resolverObject fieldPath = Ok tt
      <-> allowNull resolverObject = true).
Proof.
  intros Harr. unfold validateResultFields. rewrite Harr. split.
  - intros Hnot Hnull.
    destruct (allowNull resolverObject), value; simpl; try done; eauto.
  - destruct (allowNull resolverObject); simpl; split; done.
Qed.

(** C9: for a leaf node whose field has [arrayOptions], validating a
    result that is neither an array nor null throws a ResultError, and
    validating null succeeds exactly when [allowNull] is true. *)
Theorem validateJomqlResults_leaf_array_shape
    jomqlResolverNode scalar opts fieldPath :
  nested jomqlResolverNode = None ->
  fieldType (typeDef jomqlResolverNode) = FieldScalar scalar ->
  arrayOptions (typeDef jomqlResolverNode) = Some opts ->
  (forall value, isArray value = false -> value ≠ JNull ->
     exists message,
       validateJomqlResults objectTypeDefs value jomqlResolverNode fieldPath
       = Throw (JomqlResultError message fieldPath))
  /\ ((exists v, validateJomqlResults objectTypeDefs JNull jomqlResolverNode
                   fieldPath = Ok v)
      <-> allowNull (typeDef jomqlResolverNode) = true).
Proof.
  intros Hleaf Htype Harr.
  destruct jomqlResolverNode as [t q a n]. simpl in *. subst n.
  destruct (validateResultFields_array_shape JNull t opts fieldPath Harr)
    as [_ Hnull].
  split.
  - intros value Hnot Hvalue.
    destruct (validateResultFields_array_shape value t opts fieldPath Harr)
      as [[message ->] _]; eauto.
  - rewrite <- Hnull. split.
    + intros [v Hv]. by destruct (validateResultFields JNull t fieldPath) as [[]| |].
    + intros ->. simpl. unfold serializeLeaf. rewrite Htype. simpl.
      destruct (serialize scalar); eauto.
Qed.
End ResultValidationFacts.

(** ** processJomqlResolverTree *)

Section ProcessJomqlResolverTreeFacts.

(** The loop of the nested branch is [childrenWritten]. *)
Lemma nested_loop_childrenWritten l data fieldPath children h h' :
  forEachM
    (fun h '(field, child) =>
       '(r, h) ←
         processJomqlResolverTree
           (if isObjectV h (VRef l) then getFieldV h (VRef l) field else VNull)
           child (VRef l) data (fieldPath ++ [field]) false h;
       Ok (setFieldV h l field r))
    children h = Ok h'
  <-> childrenWritten l data fieldPath children h h'.
Proof.
  split.
  - revert h. induction children as [|[field child] children IH]; intros h.
    + intros [= <-]. constructor.
    + simpl. intros (h2 & Hstep & Hrest)%bind_Ok.
      apply bind_Ok in Hstep as ([r h1] & Hchild & [= <-]).
      econstructor; [exact Hchild|]. by apply IH.
  - induction 1 as [|field child children h r h1 h' Hchild _ IH]; [done|].
    simpl. simpl in Hchild. by rewrite Hchild.
Qed.

(** C3, as amended: when [processJomqlResolverTree] reaches a node
    with nested children (the node has no field resolver of its own to
    hand over to, and is not a root fetch that returns at once) and the
    results are an object, it recurses per declared child with
    [resultsNode[child]] and [parentNode = resultsNode], writes each
    child's result into that result object itself, and returns that
    same object: no copy is made. *)
Theorem processJomqlResolverTree_nested_in_place
    l jomqlResultsNode jomqlResolverNode children parentNode data fieldPath
    fullTree h h1 v h' :
  nested jomqlResolverNode = Some children ->
  fieldResolver (typeDef jomqlResolverNode) = None ->
  (isRootResolverDefinition (typeDef jomqlResolverNode) = true ->
   fullTree = true) ->
  fetchResults jomqlResultsNode jomqlResolverNode fieldPath
    (defaultData data h).2 = Ok (VRef l, h1) ->
  isObjectV h1 (VRef l) = true ->
  processJomqlResolverTree jomqlResultsNode jomqlResolverNode parentNode data
    fieldPath fullTree h = Ok (v, h')
  <-> v = VRef l
      /\ childrenWritten l (defaultData data h).1 fieldPath children h1 h'.
Proof.
  intros Hnested Hres Hroot Hfetch Hobj.
  destruct jomqlResolverNode as [t q a n]. simpl in *. subst n.
  destruct (defaultData data h) as [data' h0]. simpl in *.
  rewrite Hfetch, Ok_bind, Hres.
  assert (isRootResolverDefinition t && negb fullTree = false) as ->.
  { destruct (isRootResolverDefinition t); [|done]. by rewrite Hroot. }
  simpl in Hobj. simpl. rewrite Hobj. split.
  - intros (h2 & Hloop & [= <- <-])%bind_Ok.
    split; [done|]. by apply nested_loop_childrenWritten.
  - intros [-> Hloop]. apply nested_loop_childrenWritten in Hloop.
    simpl in Hloop. by rewrite Hloop.
Qed.
End ProcessJomqlResolverTreeFacts.

(** ** Sets *)

Section NewSetFacts.
Context `{EqDecision A}.
Implicit Types l : list A.

Lemma elem_of_newSet l x : x ∈ newSet l <-> x ∈ l.
Proof.
  induction l as [|a l IH]; simpl; [done|].
  rewrite !elem_of_cons, list_elem_of_filter, IH.
  destruct (decide (x = a)); tauto.
Qed.

End NewSetFacts.

(** ** The earlier helper: handleAggregatedQueries *)

Section LegacyFacts.
Import Legacy.

Lemma mapGet_mapSet k v m k' :
  mapGet (mapSet k v m) k' = if decide (k = k') then v else mapGet m k'.
Proof.
  induction m as [|[k0 v0] m IH]; simpl.
  - done.
  - destruct (decide (k0 = k)) as [->|Hne]; simpl.
    + by destruct (decide (k = k')).
    + rewrite IH. destruct (decide (k0 = k')) as [->|]; [|done].
      by rewrite decide_False by done.
Qed.

Lemma buildRecordMap_loop h records recordMap0 :
  Forall (fun record => isNullishV record = false) records ->
  exists recordMap,
    forEachM (fun recordMap result =>
                id ← readFieldV h result "id";
                Ok (mapSet id result recordMap))
      records recordMap0 = Ok recordMap
    /\ forall key,
         mapGet recordMap key
         = match last (filter (fun record => getFieldV h record "id" = key)
                         records) with
           | Some record => record
           | None => mapGet recordMap0 key
           end.
Proof.
  intros Hrecords. revert recordMap0.
  induction Hrecords as [|record records Hrecord _ IH]; intros recordMap0.
  - by exists recordMap0.
  - rewrite forEachM_cons. cbn beta.
    assert (readFieldV h record "id" = Ok (getFieldV h record "id")) as ->
      by (unfold readFieldV; by rewrite Hrecord).
    rewrite !Ok_bind.
    destruct (IH (mapSet (getFieldV h record "id") record recordMap0))
      as (recordMap & -> & Hget).
    exists recordMap. split; [done|]. intros key. rewrite Hget.
    rewrite mapGet_mapSet, filter_cons.
    destruct (decide (getFieldV h record "id" = key)); [|done].
    rewrite last_cons. by destruct (last _).
Qed.

Lemma buildRecordMap_matchingRecord h records :
  Forall (fun record => isNullishV record = false) records ->
  exists recordMap,
    buildRecordMap h records = Ok recordMap
    /\ forall key, mapGet recordMap key = matchingRecord h records key.
Proof.
  intros Hrecords.
  destruct (buildRecordMap_loop h records [] Hrecords) as (m & Hm & Hget).
  exists m. split; [done|]. intros key. rewrite Hget. unfold matchingRecord.
  by destruct (last _).
Qed.

Lemma elem_of_rowObjects l rows : l ∈ rowObjects rows <-> VRef l ∈ rows.
Proof.
  unfold rowObjects. rewrite list_elem_of_omap. split.
  - intros ([] & Hin & [= <-]); done.
  - intros Hin. by exists (VRef l).
Qed.

Lemma joinRecords_spec recordMap field rows h :
  NoDup (rowObjects rows) ->
  Forall (isRow h) rows ->
  exists h',
    joinRecords recordMap field rows h = Ok h'
    /\ forall l, h' !! l = if decide (l ∈ rowObjects rows)
                           then joinCell recordMap field <$> h !! l
                           else h !! l.
Proof.
  revert h. induction rows as [|row rows IH]; intros h Hnodup Hrows.
  - exists h. split; [done|]. intros l. rewrite decide_False; [done|].
    apply not_elem_of_nil.
  - apply Forall_cons in Hrows as [Hrow Hrows].
    unfold joinRecords. rewrite forEachM_cons. cbn beta.
    fold (joinRecords recordMap field rows).
    destruct Hrow as [Hfalsy|(l0 & -> & Hl0)].
    + rewrite Hfalsy, Ok_bind.
      assert (rowObjects (row :: rows) = rowObjects rows) as Heq
        by by destruct row.
      rewrite Heq in *. by apply IH.
    + simpl in Hnodup. apply NoDup_cons in Hnodup as [Hl0notin Hnodup].
      cbn [truthyV]. rewrite Ok_bind.
      set (h1 := setFieldV h l0 field _).
      assert (Hother : forall l, l ≠ l0 -> h1 !! l = h !! l).
      { intros l Hne. unfold h1, setFieldV. by rewrite lookup_alter_ne. }
      destruct (IH h1 Hnodup) as (h' & -> & Hh').
      { eapply Forall_impl; [exact Hrows|]. intros v [?|(l & -> & Hl)].
        - by left.
        - right. exists l. split; [done|].
          destruct (decide (l = l0)) as [->|Hne].
          + unfold h1, setFieldV. rewrite lookup_alter_eq.
            by apply fmap_is_Some.
          + by rewrite Hother. }
      exists h'. split; [done|]. intros l. rewrite Hh'.
      destruct (decide (l = l0)) as [->|Hne].
      * rewrite decide_False by done. rewrite decide_True by left.
        unfold h1, setFieldV. rewrite lookup_alter_eq.
        destruct (h !! l0) as [o|] eqn:Ho; [|done]. simpl.
        unfold joinCell. by rewrite Ho.
      * rewrite Hother by done.
        destruct (decide (l ∈ rowObjects rows)).
        -- by rewrite decide_True by by right.
        -- rewrite decide_False; [done|]. simpl. by apply not_elem_of_cons.
Qed.

(** *** Reading the store *)

Lemma getFieldV_ext h1 h2 l key :
  h1 !! l = h2 !! l -> getFieldV h1 (VRef l) key = getFieldV h2 (VRef l) key.
Proof. simpl. by intros ->. Qed.

Lemma getFieldV_rows_ext h1 h2 rows field :
  (forall l, l ∈ rowObjects rows ->
     getFieldV h1 (VRef l) field = getFieldV h2 (VRef l) field) ->
  forall v, v ∈ rows -> getFieldV h1 v field = getFieldV h2 v field.
Proof.
  intros Hrows v Hv. destruct v as [| | | | |l]; try done.
  by apply Hrows, elem_of_rowObjects.
Qed.

Lemma nestedResultsArrayOf_ext h1 h2 rows field :
  (forall l, l ∈ rowObjects rows ->
     getFieldV h1 (VRef l) field = getFieldV h2 (VRef l) field) ->
  nestedResultsArrayOf h1 rows field = nestedResultsArrayOf h2 rows field.
Proof.
  intros Hrows. unfold nestedResultsArrayOf. apply map_ext_in.
  intros v Hv%list_elem_of_In.
  by rewrite (getFieldV_rows_ext h1 h2 rows field Hrows v Hv).
Qed.

Lemma aggregateIds_ext h1 h2 rows field :
  (forall l, l ∈ rowObjects rows ->
     getFieldV h1 (VRef l) field = getFieldV h2 (VRef l) field) ->
  aggregateIds h1 rows field = aggregateIds h2 rows field.
Proof.
  intros Hrows. unfold aggregateIds. f_equal.
  pose proof (getFieldV_rows_ext h1 h2 rows field Hrows) as Hext.
  apply list_omap_ext, Forall_Forall2_diag, Forall_forall.
  intros v Hv. by rewrite (Hext v Hv).
Qed.

Lemma isRow_dom h h' v :
  (forall l, is_Some (h' !! l) <-> is_Some (h !! l)) -> isRow h v -> isRow h' v.
Proof.
  intros Hdom [Hfalsy|(l & -> & Hl)]; [by left|right].
  exists l. split; [done|]. by apply Hdom.
Qed.

(** *** Induction over a resolver object *)

Lemma ResolverEntry_nested_ind (P : ResolverEntry -> Prop) :
  (forall typename' dataloader' query',
     P (mkEntry typename' dataloader' query' None)) ->
  (forall typename' dataloader' query' nestedResolver,
     Forall (fun fe => P fe.2) nestedResolver ->
     P (mkEntry typename' dataloader' query' (Some nestedResolver))) ->
  forall entry, P entry.
Proof.
  intros Hleaf Hstep. fix IH 1. intros [t d q [cs|]]; [|apply Hleaf].
  apply Hstep.
  induction cs as [|[f e] cs IHcs]; constructor; [apply IH|apply IHcs].
Qed.

(** The rows below a field are read off the store only at the rows
    given and at the objects below. *)
Lemma levelsBelow_ext h1 h2 entry : forall rows field,
  (forall l, l ∈ rowObjects rows ->
     getFieldV h1 (VRef l) field = getFieldV h2 (VRef l) field) ->
  (forall l, l ∈ flat_map rowObjects (levelsBelow h2 rows field entry) ->
     h1 !! l = h2 !! l) ->
  levelsBelow h1 rows field entry = levelsBelow h2 rows field entry.
Proof.
  induction entry as [t d q|t d q nestedResolver IH]
    using ResolverEntry_nested_ind; intros rows field Hrows Hbelow.
  { simpl. by destruct d, q. }
  assert (Hgoal :
    nestedResultsArrayOf h1 rows field
      :: flat_map (fun '(field', entry') =>
           levelsBelow h1 (nestedResultsArrayOf h1 rows field) field' entry')
           nestedResolver
    = nestedResultsArrayOf h2 rows field
      :: flat_map (fun '(field', entry') =>
           levelsBelow h2 (nestedResultsArrayOf h2 rows field) field' entry')
           nestedResolver
    \/ (is_Some d /\ is_Some q)).
  { destruct (decide (is_Some d /\ is_Some q)) as [|Hbranch]; [by right|left].
    assert (Hbelow' : forall l,
      l ∈ flat_map rowObjects
            (nestedResultsArrayOf h2 rows field
               :: flat_map (fun '(field', entry') =>
                    levelsBelow h2 (nestedResultsArrayOf h2 rows field)
                      field' entry')
                    nestedResolver) ->
      h1 !! l = h2 !! l).
    { intros l Hl. apply Hbelow. simpl.
      destruct d, q; try done. destruct Hbranch; split; eauto. }
    clear Hbelow.
    rewrite (nestedResultsArrayOf_ext h1 h2 rows field Hrows).
    f_equal. simpl in Hbelow'.
    set (rows' := nestedResultsArrayOf h2 rows field) in *.
    assert (Hrows' : forall l, l ∈ rowObjects rows' -> h1 !! l = h2 !! l)
      by (intros l Hl; apply Hbelow', elem_of_app; by left).
    assert (Hdeep : forall l,
      l ∈ flat_map rowObjects
            (flat_map (fun '(field', entry') =>
                         levelsBelow h2 rows' field' entry')
               nestedResolver) ->
      h1 !! l = h2 !! l)
      by (intros l Hl; apply Hbelow', elem_of_app; by right).
    clear Hbelow'.
    induction IH as [|[f e] cs IHe _ IHcs]; [done|]. simpl.
    simpl in Hdeep. rewrite flat_map_app in Hdeep.
    f_equal.
    - apply IHe.
      + intros l Hl. by apply getFieldV_ext, Hrows'.
      + intros l Hl. apply Hdeep, elem_of_app. by left.
    - apply IHcs. intros l Hl. apply Hdeep, elem_of_app. by right. }
  simpl. destruct Hgoal as [Heq|[[dl ->] [q' ->]]]; [|done].
  by destruct d, q.
Qed.

(** *** The loop *)

Lemma handleAggregatedQueries_cons rows field entry rest tn fp st :
  handleAggregatedQueries rows ((field, entry) :: rest) tn fp st
  = st' ← handleField rows tn fp st field entry;
    handleAggregatedQueries rows rest tn fp st'.
Proof. done. Qed.

Lemma handleField_nested rows tn fp h calls field entry nestedResolver :
  ~ (is_Some (dataloader entry) /\ is_Some (query entry)) ->
  nested entry = Some nestedResolver ->
  handleField rows tn fp (h, calls) field entry
  = handleAggregatedQueries (nestedResultsArrayOf h rows field)
      nestedResolver (typename entry) (fp ++ [field]) (h, calls).
Proof.
  destruct entry as [t d q n]. simpl. intros Hbranch ->.
  destruct d, q; try done. destruct Hbranch; split; eauto.
Qed.

Lemma visited_cons h rows field entry rest :
  visited h rows ((field, entry) :: rest)
  = rowObjects rows ++ belowObjects h rows field entry
    ++ flat_map rowObjects
         (flat_map (fun '(f, e) => levelsBelow h rows f e) rest).
Proof. unfold visited, levels, belowObjects. simpl. by rewrite flat_map_app. Qed.

Lemma visited_rest h rows rest :
  visited h rows rest
  = rowObjects rows
    ++ flat_map rowObjects
         (flat_map (fun '(f, e) => levelsBelow h rows f e) rest).
Proof. done. Qed.

Lemma levels_rest_ext h1 h2 rows rest :
  (forall f e, (f, e) ∈ rest ->
     levelsBelow h1 rows f e = levelsBelow h2 rows f e) ->
  flat_map (fun '(f, e) => levelsBelow h1 rows f e) rest
  = flat_map (fun '(f, e) => levelsBelow h2 rows f e) rest.
Proof.
  induction rest as [|[f e] rest IH]; intros Hext; [done|]. simpl.
  rewrite (Hext f e) by left. f_equal. apply IH.
  intros f' e' Hin. apply Hext. by right.
Qed.

Lemma elem_of_levels_rest h rows rest f e l :
  (f, e) ∈ rest -> l ∈ belowObjects h rows f e ->
  l ∈ flat_map rowObjects
        (flat_map (fun '(f, e) => levelsBelow h rows f e) rest).
Proof.
  intros Hin Hl. unfold belowObjects in Hl.
  apply list_elem_of_In, in_flat_map in Hl as (level & Hlevel & Hl).
  apply list_elem_of_In, in_flat_map. exists level. split; [|done].
  apply in_flat_map. exists (f, e). split; [by apply list_elem_of_In|done].
Qed.

Lemma filter_none {A} (P : A -> Prop) `{forall x, Decision (P x)} (l : list A) :
  (forall x, x ∈ l -> ~ P x) -> filter P l = [].
Proof.
  induction l as [|x l IH]; intros Hl; [done|].
  rewrite filter_cons_False by (apply Hl; left).
  apply IH. intros y Hy. apply Hl. by right.
Qed.

Lemma path_field_inj (fp : list string) f g rest :
  fp ++ g :: rest = fp ++ [f] -> g = f.
Proof. by intros [= -> _]%app_inv_head. Qed.

(** A run does what its fields do, one after the other. *)
Lemma runPost_of_fieldSpec tree :
  Forall (fun fe => fieldSpec fe.1 fe.2) tree ->
  forall rows tn fp h calls,
    NoDup (keys tree) ->
    NoDup (visited h rows tree) ->
    rowsTyped h rows tree ->
    Forall (fun fe => entryOk fe.2) tree ->
    exists h' calls',
      handleAggregatedQueries rows tree tn fp (h, calls)
      = Ok (h', calls ++ calls')
      /\ runPost rows fp tree h h' calls'.
Proof.
  induction 1 as [|[g e] rest Hfield _ IH];
    intros rows tn fp h calls Hkeys Hvisited Htyped Hok.
  { exists h, []. rewrite app_nil_r. split; [done|]. constructor; try done.
    - intros c Hc. by apply elem_of_nil in Hc.
    - intros ???? Hin. by apply elem_of_nil in Hin. }
  simpl in Hfield.
  change (keys ((g, e) :: rest)) with (g :: keys rest) in *.
  apply NoDup_cons in Hkeys as [Hg Hkeys].
  apply Forall_cons in Hok as [Hoke Hok]. simpl in Hoke.
  rewrite visited_cons in Hvisited.
  apply NoDup_app in Hvisited as (Hrows_nodup & Hrows_disj & Hrest).
  apply NoDup_app in Hrest as (Hbelow_nodup & Hbelow_disj & Hrest_nodup).
  unfold rowsTyped, levels in Htyped. simpl in Htyped.
  apply Forall_cons in Htyped as [Hrows_typed Htyped].
  apply Forall_app in Htyped as [Htyped_e Htyped_rest].
  assert (Hnodup_e : NoDup (rowObjects rows ++ belowObjects h rows g e)).
  { apply NoDup_app. split_and!; [done| |done].
    intros l Hl Hl'. eapply Hrows_disj; [done|]. apply elem_of_app. by left. }
  destruct (Hfield rows tn fp h calls Hnodup_e Hrows_typed Htyped_e Hoke)
    as (h1 & calls1 & Hrun1 & Hpost1).
  destruct Hpost1 as [Hdom1 Hframe1 Hrows1 Hcalls1 Hjoin1].
  assert (Hne : forall f e', (f, e') ∈ rest -> f ≠ g).
  { intros f e' Hin ->. apply Hg. apply list_elem_of_fmap. by exists (g, e'). }
  assert (Hlevels :
    flat_map (fun '(f, e) => levelsBelow h1 rows f e) rest
    = flat_map (fun '(f, e) => levelsBelow h rows f e) rest).
  { apply levels_rest_ext. intros f e' Hin. apply levelsBelow_ext.
    - intros l Hl. apply Hrows1; [done|]. by eapply Hne.
    - intros l Hl.
      pose proof (elem_of_levels_rest h rows rest f e' l Hin Hl) as Hl'.
      apply Hframe1.
      + intros Hlrows. eapply Hrows_disj; [exact Hlrows|].
        apply elem_of_app. by right.
      + intros Hlbelow. by eapply Hbelow_disj. }
  assert (Hnodup_rest : NoDup (visited h1 rows rest)).
  { rewrite visited_rest, Hlevels. apply NoDup_app. split_and!; [done| |done].
    intros l Hl Hl'. eapply Hrows_disj; [done|]. apply elem_of_app. by right. }
  assert (Htyped1 : rowsTyped h1 rows rest).
  { unfold rowsTyped, levels. rewrite Hlevels. constructor.
    - eapply Forall_impl; [exact Hrows_typed|]. intros v. by apply isRow_dom.
    - eapply Forall_impl; [exact Htyped_rest|]. intros level Hlevel.
      eapply Forall_impl; [exact Hlevel|]. intros v. by apply isRow_dom. }
  destruct (IH rows tn fp h1 (calls ++ calls1) Hkeys Hnodup_rest Htyped1 Hok)
    as (h' & calls2 & Hrun2 & Hpost2).
  destruct Hpost2 as [Hdom2 Hframe2 Hrows2 Hcalls2 Hjoin2].
  exists h', (calls1 ++ calls2). split.
  { rewrite handleAggregatedQueries_cons, Hrun1, Ok_bind, Hrun2.
    by rewrite app_assoc. }
  constructor.
  - intros l. by rewrite Hdom2, Hdom1.
  - intros l Hl. rewrite visited_cons in Hl.
    rewrite !elem_of_app in Hl.
    rewrite Hframe2, Hframe1; [done|tauto|tauto|].
    rewrite visited_rest, Hlevels, elem_of_app. tauto.
  - intros l k Hl Hk. apply not_elem_of_cons in Hk as [Hkg Hk].
    rewrite Hrows2, Hrows1; done.
  - intros c [Hc|Hc]%elem_of_app.
    + destruct (Hcalls1 c Hc) as [r Hr]. exists g, r. split; [left|done].
    + destruct (Hcalls2 c Hc) as (f & r & Hf & Hr). exists f, r.
      split; [by right|done].
  - intros f e' dl q [[= -> ->]|Hin]%elem_of_cons Hdl Hq.
    + destruct (Hjoin1 dl q Hdl Hq)
        as (records & call & -> & Hkeys1 & Hpath & Hcall & Hjoined).
      exists h, records, call. split_and!; [|done|done|done|].
      * rewrite filter_app, filter_cons_True, filter_nil by done.
        rewrite filter_none; [done|].
        intros c Hc Hcpath. destruct (Hcalls2 c Hc) as (f & r & Hf & Hr).
        rewrite Hr in Hcpath. apply path_field_inj in Hcpath as ->. done.
      * intros l Hl. rewrite Hrows2; [by apply Hjoined|done|done].
    + destruct (Hjoin2 f e' dl q Hin Hdl Hq)
        as (hf & records & call & Hfilter & Hkeys2 & Hhf & Hcall & Hjoined).
      pose proof (Hne f e' Hin) as Hfg.
      exists hf, records, call. split_and!; [| | |done|].
      * rewrite filter_app, Hfilter, filter_none; [done|].
        intros c Hc Hcpath. destruct (Hcalls1 c Hc) as (r & Hr).
        rewrite Hr in Hcpath. by apply path_field_inj in Hcpath as ->.
      * rewrite Hkeys2. apply aggregateIds_ext. intros l Hl. by apply Hrows1.
      * intros l Hl. rewrite visited_cons in Hl.
        rewrite !elem_of_app in Hl.
        rewrite Hhf, Hframe1; [done|tauto|tauto|].
        rewrite visited_rest, Hlevels, elem_of_app. tauto.
      * intros l Hl. rewrite (Hjoined l Hl). f_equal. by apply Hrows1.
Qed.

(** *** One field *)

Lemma levelsBelow_nested h rows field t d q nestedResolver :
  ~ (is_Some d /\ is_Some q) ->
  levelsBelow h rows field (mkEntry t d q (Some nestedResolver))
  = levels h (nestedResultsArrayOf h rows field) nestedResolver.
Proof.
  intros Hbranch. simpl. destruct d, q; try done.
  destruct Hbranch; split; eauto.
Qed.

Lemma fieldSpec_dataloader t dl q' n field :
  fieldSpec field (mkEntry t (Some dl) (Some q') n).
Proof.
  intros rows tn fp h calls Hnodup Hrows _ Hok.
  inversion Hok as [? ? ? ? Hdl _]; subst. simpl in Hdl.
  unfold belowObjects in Hnodup. simpl in Hnodup. rewrite app_nil_r in Hnodup.
  set (call := {| dlKeys := aggregateIds h rows field; dlQuery := q';
                  dlTypename := tn; dlFieldPath := fp ++ [field] |}).
  destruct (Hdl call h) as (records & Hcall & Hrecords).
  destruct (buildRecordMap_matchingRecord h records Hrecords)
    as (recordMap & Hmap & Hget).
  destruct (joinRecords_spec recordMap field rows h Hnodup Hrows)
    as (h' & Hjoin & Hh').
  exists h', [call]. split.
  { simpl. fold call. by rewrite Hcall, Ok_bind, Hmap, Ok_bind, Hjoin. }
  constructor.
  - intros l. rewrite Hh'. case_decide; [by rewrite fmap_is_Some|done].
  - intros l Hl _. by rewrite Hh', decide_False.
  - intros l key Hl Hkey. simpl. rewrite Hh', decide_True by done.
    destruct (h !! l) as [o|]; [|done]. simpl.
    by rewrite lookup_insert_ne.
  - intros c ->%list_elem_of_singleton. by exists [].
  - intros ? ? [= <-] [= <-]. exists records, call. split_and!; try done.
    intros l Hl. simpl. rewrite Hh', decide_True by done.
    apply elem_of_rowObjects in Hl.
    rewrite Forall_forall in Hrows.
    destruct (Hrows _ Hl) as [?|(? & [= <-] & [o Ho])]; [done|].
    rewrite Ho. simpl. rewrite lookup_insert_eq. simpl.
    by rewrite Hget.
Qed.

Lemma fieldSpec_all entry : forall field, fieldSpec field entry.
Proof.
  induction entry as [t d q|t d q nestedResolver IH]
    using ResolverEntry_nested_ind; intros field.
  - destruct d as [dl|], q as [q'|]; try apply fieldSpec_dataloader.
    all: intros rows tn fp h calls _ _ _ _; exists h, [].
    all: rewrite app_nil_r; split; [done|].
    all: constructor; try done.
    all: intros c Hc; by apply elem_of_nil in Hc.
  - destruct (decide (is_Some d /\ is_Some q)) as [[[dl ->] [q' ->]]|Hbranch];
      [apply fieldSpec_dataloader|].
    intros rows tn fp h calls Hnodup Hrows Hlevels Hok.
    inversion Hok as [? ? ? ? _ Hnested]; subst.
    destruct (Hnested _ eq_refl) as [Hkeys Hoks].
    unfold belowObjects in Hnodup.
    rewrite levelsBelow_nested in Hnodup, Hlevels by done.
    set (rows' := nestedResultsArrayOf h rows field) in *.
    fold (visited h rows' nestedResolver) in Hnodup.
    apply NoDup_app in Hnodup as (_ & Hdisj & Hnodup).
    assert (Hspecs : Forall (fun fe => fieldSpec fe.1 fe.2) nestedResolver).
    { eapply Forall_impl; [exact IH|]. intros [f e] Hfe. apply Hfe. }
    destruct (runPost_of_fieldSpec nestedResolver Hspecs rows' t
                (fp ++ [field]) h calls Hkeys Hnodup Hlevels Hoks)
      as (h' & calls' & Hrun & [Hdom Hframe _ Hcalls _]).
    exists h', calls'. split.
    { by rewrite (handleField_nested _ _ _ _ _ _ _ nestedResolver). }
    assert (Hbelow :
      belowObjects h rows field (mkEntry t d q (Some nestedResolver))
      = visited h rows' nestedResolver).
    { unfold belowObjects. by rewrite levelsBelow_nested. }
    constructor.
    + done.
    + intros l _ Hl. rewrite Hbelow in Hl. by apply Hframe.
    + intros l key Hl _. apply getFieldV_ext, Hframe. by apply Hdisj.
    + intros c Hc. destruct (Hcalls c Hc) as (f & rest & _ & ->).
      exists (f :: rest). by rewrite <- app_assoc.
    + intros dl q' Hdl Hq'. simpl in *. subst.
      destruct Hbranch; split; eauto.
Qed.

(** *** One batched call per field *)

End LegacyFacts.

(** ** The properties at the example data *)

(** C6 at a required argument: undefined args are refused. *)
Lemma validateExternalArgs_required_undefined_witness :
  argRequired Example.requiredArg = true
  /\ validateExternalArgs ∅ 1 JUndefined (Some Example.requiredArg) ["limit"]
     = Throw (JomqlArgsError "Args is required" ["limit"]).
Proof.
  split; [reflexivity|].
  apply (validateExternalArgs_required_undefined ∅ 0 Example.requiredArg).
  reflexivity.
Defined.

(** C5 at a scalar whose [parseValue] throws: the caller sees the
    ArgsError, not what was thrown. *)
Lemma validateExternalArgs_parse_error_wrapped_witness :
  validateExternalArgs ∅ 1 (JStr "abc") (Some Example.throwingArg) ["id"]
  = Throw (JomqlArgsError "Invalid scalar value for 'id'" ["id"]).
Proof.
  refine (proj2 (validateExternalArgs_parse_error_wrapped ∅ 0
                   Example.throwingScalar _ Example.throwingArg (JStr "abc")
                   ["id"] eq_refl eq_refl _)
            (OtherError "not an id") _ eq_refl eq_refl); discriminate.
Defined.

(** C10 as stated fails for an array argument: with [arrayOptions] a
    [parseValue] that returns null is applied to each element, and the
    array of nulls is returned in place of the raw argument. *)
Lemma validateExternalArgs_nullish_parse_counterexample :
  let parse := fun _ : json => @Ok json JNull in
  parseValue Example.nullScalar = Some parse
  /\ parse (JArr [JNum 1]) = Ok JNull
  /\ parse (JNum 1) = Ok JNull
  /\ exists returned argsInPlace,
       validateExternalArgs ∅ 1 (JArr [JNum 1]) (Some Example.nullArrayArg) []
       = Ok (returned, argsInPlace)
       /\ returned = JArr [JNull]
       /\ returned ≠ JArr [JNum 1].
Proof. repeat split. by exists (JArr [JNull]), (JArr [JNum 1]). Qed.

(** C10, as amended, at a scalar argument without [arrayOptions]. *)
Lemma validateExternalArgs_nullish_parse_keeps_raw_witness :
  validateExternalArgs ∅ 1 (JStr "x") (Some Example.nullArg) []
  = Ok (JStr "x", JStr "x").
Proof.
  refine (validateExternalArgs_nullish_parse_keeps_raw ∅ 0 Example.nullScalar
            _ Example.nullArg (JStr "x") JNull [] eq_refl eq_refl eq_refl
            _ _ eq_refl eq_refl); discriminate.
Defined.

(** C4 at the array [[{limit: 1}, {limit: 10, unknown: 1, other: 2}]]
    against an input type that declares [limit] only: one ArgsError
    names both unknown keys of the second element. *)
Lemma validateExternalArgs_unknown_keys_witness :
  validateExternalArgs ∅ 2
    (JArr [JObj [("limit", JNum 1)]; JObj Example.unknownArgs])
    (Some Fixtures.paginationArrayArg) ["__args"]
  = Throw (JomqlArgsError "Unknown args 'unknown,other'" ["__args"]).
Proof.
  refine (proj1 (validateExternalArgs_unknown_keys ∅ 1
                   Fixtures.paginationArrayArg Example.pagination ["__args"]
                   (JArr [JObj [("limit", JNum 1)]; JObj Example.unknownArgs])
                   [JObj [("limit", JNum 1)]; JObj Example.unknownArgs]
                   eq_refl eq_refl eq_refl)
            [JObj [("limit", JNum 1)]] Example.unknownArgs []
            [JObj [("limit", JNum 1)]] Example.unknownArgs
            ["unknown"; "other"] eq_refl _ _ _).
  - vm_compute. reflexivity.
  - vm_compute. reflexivity.
  - vm_compute. discriminate.
Defined.

(** C7 at a scalar field: [{__args, extra}] is refused, [{__args}] is
    accepted. *)
Lemma generateJomqlResolverTree_leaf_object_only_args_witness :
  generateJomqlResolverTree ∅ ∅ JNull 2
    (JObj [("__args", JNull); ("extra", JNull)])
    (Example.scalarField true None) ["id"] false
  = Throw (JomqlQueryError
             "Scalar node can only accept __args and no other field" ["id"])
  /\ generateJomqlResolverTree ∅ ∅ JNull 2 (JObj [("__args", JUndefined)])
       (Example.scalarField true None) ["id"] false
     = Ok (mkNode (Example.scalarField true None) [] JNull None).
Proof.
  pose proof (generateJomqlResolverTree_leaf_object_only_args ∅ ∅ JNull 1)
    as Hleaf.
  split.
  - refine (proj1 (Hleaf [("__args", JNull); ("extra", JNull)]
                     (Example.scalarField true None) Example.numberScalar
                     ["id"] false eq_refl) _).
    discriminate.
  - refine (proj2 (Hleaf [("__args", JUndefined)]
                     (Example.scalarField true None) Example.numberScalar
                     ["id"] false eq_refl) JUndefined eq_refl).
Defined.

(** C2 as stated fails for a field of an object type: with a resolver
    on the field and [fullTree] false, [nested] is the empty object, not
    undefined. *)
Lemma generateJomqlResolverTree_resolver_field_counterexample :
  is_Some (resolver Example.resolvedUserField)
  /\ exists node,
       generateJomqlResolverTree ∅ ∅ JNull 2 (JObj [("id", JNull)])
         Example.resolvedUserField ["user"] false = Ok node
       /\ nested node = Some []
       /\ nested node ≠ None.
Proof. split; [by eexists|]. eexists. split; [reflexivity|]. by split. Qed.

(** C2, as amended, at that field. *)
Lemma generateJomqlResolverTree_resolver_field_no_children_witness :
  exists t,
    resolveFieldType ∅ (fieldType Example.resolvedUserField) ["user"] = Ok t
    /\ nested (mkNode Example.resolvedUserField [("id", JNull)] JNull (Some []))
       = match t with inl _ => Some [] | inr _ => None end.
Proof.
  refine (generateJomqlResolverTree_resolver_field_no_children ∅ ∅ JNull 1
            [("id", JNull)] Example.resolvedUserField ["user"] _ _ eq_refl).
  by eexists.
Defined.

(** C8 at a leaf whose scalar has a [serialize]: null and undefined are
    refused before any serialization. *)
Lemma validateJomqlResults_leaf_null_rejected_witness :
  validateJomqlResults ∅ JNull (Example.leafNode false None) ["id"]
  = Throw (JomqlResultError "Null value not allowed" ["id"])
  /\ validateJomqlResults ∅ JUndefined (Example.leafNode false None) ["id"]
     = Throw (JomqlResultError "Null value not allowed" ["id"]).
Proof.
  split.
  - exact (validateJomqlResults_leaf_null_rejected ∅ JNull
             (Example.leafNode false None) ["id"] eq_refl eq_refl eq_refl
             eq_refl).
  - exact (validateJomqlResults_leaf_null_rejected ∅ JUndefined
             (Example.leafNode false None) ["id"] eq_refl eq_refl eq_refl
             eq_refl).
Defined.

(** C9 at an array leaf that allows null: a number is refused, null is
    accepted. *)
Lemma validateJomqlResults_leaf_array_shape_witness :
  let opts := {| allowNullElement := false |} in
  (exists message,
     validateJomqlResults ∅ (JNum 5) (Example.leafNode true (Some opts)) ["ids"]
     = Throw (JomqlResultError message ["ids"]))
  /\ (exists v, validateJomqlResults ∅ JNull (Example.leafNode true (Some opts))
                  ["ids"] = Ok v).
Proof.
  intros opts.
  pose proof (validateJomqlResults_leaf_array_shape ∅
                (Example.leafNode true (Some opts)) Example.numberScalar opts
                ["ids"] eq_refl eq_refl eq_refl) as [Hshape Hnull].
  split.
  - apply Hshape; [reflexivity|discriminate].
  - apply Hnull. reflexivity.
Defined.

(** C3 as stated fails: the result object given is the one written to.
    With a child [a] whose resolver returns 42, the object [{a: 1}]
    that was passed in holds [a: 42] afterwards. *)
Lemma processJomqlResolverTree_copy_counterexample :
  isObjectV Example.resultStore (VRef 1%positive) = true
  /\ getFieldV Example.resultStore (VRef 1%positive) "a" = VNum 1
  /\ exists h',
       processJomqlResolverTree (VRef 1%positive) Example.userNode VNull
         VUndefined [] false Example.resultStore
       = Ok (VRef 1%positive, h')
       /\ getFieldV h' (VRef 1%positive) "a" = VNum 42
       /\ h' !! 1%positive ≠ Example.resultStore !! 1%positive.
Proof.
  split; [reflexivity|]. split; [reflexivity|].
  eexists. split; [vm_compute; reflexivity|].
  split; [reflexivity|]. vm_compute. discriminate.
Qed.

(** C3, as amended, at that node and object. *)
Lemma processJomqlResolverTree_nested_in_place_witness :
  exists h',
    processJomqlResolverTree (VRef 1%positive) Example.userNode VNull
      VUndefined [] false Example.resultStore
    = Ok (VRef 1%positive, h')
    /\ childrenWritten 1%positive
         (defaultData VUndefined Example.resultStore).1 []
         Example.children
         (defaultData VUndefined Example.resultStore).2 h'.
Proof.
  eexists. split; [vm_compute; reflexivity|].
  refine (proj2 (proj1 (processJomqlResolverTree_nested_in_place 1%positive
                          (VRef 1%positive) Example.userNode Example.children
                          VNull VUndefined [] false Example.resultStore
                          (defaultData VUndefined Example.resultStore).2
                          (VRef 1%positive) _
                          eq_refl eq_refl _ eq_refl eq_refl) _)).
  - discriminate.
  - vm_compute. reflexivity.
Defined.



(** ** Runs at the example data *)

(** Three posts by two authors: one call for [author] with the two
    keys, one for [meta.editor] with the two keys, and each post and
    each [meta] is joined with the user's record. *)
Lemma handleAggregatedQueries_three_posts :
  exists h' call1 call2,
    Legacy.handleAggregatedQueries Example.threePosts
      Example.postMetaResolverObject "post" [] (Example.posts, [])
    = Ok (h', [call1; call2])
    /\ Legacy.dlFieldPath call1 = ["author"]
    /\ Legacy.dlKeys call1 = [VNum 1; VNum 2]
    /\ Legacy.dlFieldPath call2 = ["meta"; "editor"]
    /\ Legacy.dlKeys call2 = [VNum 2; VNum 1]
    /\ getFieldV h' (VRef 1%positive) "author" = VRef 10%positive
    /\ getFieldV h' (VRef 2%positive) "author" = VRef 11%positive
    /\ getFieldV h' (VRef 3%positive) "author" = VRef 10%positive
    /\ getFieldV h' (VRef 21%positive) "editor" = VRef 11%positive.
Proof.
  eexists _, _, _. split; [vm_compute; reflexivity|]. by repeat split.
Qed.

(** The query [{id, name}] on a field of type [User] without a resolver
    yields a node with the two children, in the order of the query. *)
Lemma generateJomqlResolverTree_user :
  exists idNode nameNode,
    generateJomqlResolverTree ∅ ∅ JNull 3
      (JObj [("id", JNull); ("name", JNull)]) Example.plainUserField ["user"]
      false
    = Ok (mkNode Example.plainUserField [("id", JNull); ("name", JNull)] JNull
            (Some [("id", idNode); ("name", nameNode)]))
    /\ nested idNode = None /\ nested nameNode = None.
Proof. eexists _, _. split; [reflexivity|]. by split. Qed.

(** A hidden or undeclared field is refused with the path of the
    field. *)
Lemma generateJomqlResolverTree_unknown_field :
  generateJomqlResolverTree ∅ ∅ JNull 3 (JObj [("age", JNull)])
    Example.plainUserField [] false
  = Throw (JomqlQueryError "Unknown field" ["age"]).
Proof. reflexivity. Qed.

(* ================================================================== *)
(** * Part III: further properties *)
(* ================================================================== *)

(** ** Loops and objects *)


Lemma mapM_Throw {A B} (f : A -> result B) l e :
  mapM f l = Throw e -> exists a, a ∈ l /\ f a = Throw e.
Proof.
  induction l as [|a l IH]; [done|]. rewrite mapM_cons.
  intros [H|(b & _ & H)]%bind_Throw.
  - exists a. split; [left|done].
  - apply bind_Throw in H as [H|(? & _ & ?)]; [|done].
    destruct (IH H) as (a' & Hin & Ha'). exists a'. split; [by right|done].
Qed.

Lemma forEachM_Throw {A S} (body : S -> A -> result S) l s e :
  forEachM body l s = Throw e -> exists s' a, a ∈ l /\ body s' a = Throw e.
Proof.
  revert s. induction l as [|a l IH]; intros s; [done|].
  rewrite forEachM_cons. intros [H|(s1 & _ & H)]%bind_Throw.
  - exists s, a. split; [left|done].
  - destruct (IH _ H) as (s' & a' & Hin & Ha'). exists s', a'.
    split; [by right|done].
Qed.

Lemma argsErrorUnder_here message fieldPath :
  argsErrorUnder fieldPath (JomqlArgsError message fieldPath).
Proof. exists message, []. by rewrite app_nil_r. Qed.

Lemma argsErrorUnder_key fieldPath key e :
  argsErrorUnder (fieldPath ++ [key]) e -> argsErrorUnder fieldPath e.
Proof.
  intros (message & rest & ->). exists message, (key :: rest).
  by rewrite <- app_assoc.
Qed.

Lemma throwIf_argsErrorUnder c message fieldPath e :
  throwIf c (JomqlArgsError message fieldPath) = Throw e ->
  argsErrorUnder fieldPath e.
Proof. intros ->%throwIf_Throw. apply argsErrorUnder_here. Qed.


Lemma lookupKey_Some {A} key (o : list (string * A)) v :
  lookupKey key o = Some v -> (key, v) ∈ o.
Proof.
  induction o as [|[k w] o IH]; [done|]. simpl.
  destruct (String.eqb_spec k key) as [->|]; [intros [= ->]; left|].
  intros H. right. by apply IH.
Qed.

Lemma lookupKey_None {A} key (o : list (string * A)) :
  lookupKey key o = None <-> key ∉ keys o.
Proof.
  induction o as [|[k w] o IH]; simpl.
  - split; [intros _; apply not_elem_of_nil|done].
  - change (keys ((k, w) :: o)) with (k :: keys o).
    rewrite not_elem_of_cons.
    destruct (String.eqb_spec k key) as [->|Hne]; [split; [done|tauto]|].
    rewrite IH. split; [by split|tauto].
Qed.

Lemma elem_of_deleteProp {A} key (o : list (string * A)) k v :
  (k, v) ∈ deleteProp key o <-> k ≠ key /\ (k, v) ∈ o.
Proof.
  unfold deleteProp. rewrite list_elem_of_filter. simpl.
  destruct (String.eqb_spec k key); simpl; split; try tauto.
Qed.

Lemma keys_deleteProp {A} key (o : list (string * A)) :
  keys (deleteProp key o) = filter (fun k => k ≠ key) (keys o).
Proof.
  induction o as [|[k w] o IH]; [done|]. unfold deleteProp in *.
  change (keys ((k, w) :: o)) with (k :: keys o).
  rewrite !filter_cons. simpl.
  destruct (String.eqb_spec k key) as [->|Hne]; simpl.
  - by rewrite decide_False by tauto.
  - rewrite decide_True by done. unfold keys in *. simpl. by f_equal.
Qed.

Lemma keys_setProp_in {A} key (v : A) o :
  key ∈ keys o -> keys (setProp key v o) = keys o.
Proof.
  induction o as [|[k w] o IH]; [by intros ?%elem_of_nil|].
  change (keys ((k, w) :: o)) with (k :: keys o). simpl.
  destruct (String.eqb_spec k key) as [->|Hne]; [done|].
  intros [?|Hin]%elem_of_cons; [congruence|].
  change (keys ((k, w) :: setProp key v o)) with (k :: keys (setProp key v o)).
  by rewrite IH.
Qed.

Lemma keys_setProp_fresh {A} key (v : A) o :
  key ∉ keys o -> keys (setProp key v o) = keys o ++ [key].
Proof.
  induction o as [|[k w] o IH]; [done|].
  change (keys ((k, w) :: o)) with (k :: keys o). simpl.
  intros [Hne Hin]%not_elem_of_cons.
  destruct (String.eqb_spec k key) as [->|_]; [done|].
  change (keys ((k, w) :: setProp key v o)) with (k :: keys (setProp key v o)).
  by rewrite IH.
Qed.

Lemma elem_of_setProp {A} key (v : A) o k w :
  NoDup (keys o) ->
  (k, w) ∈ setProp key v o ->
  (k = key /\ w = v) \/ (k ≠ key /\ (k, w) ∈ o).
Proof.
  induction o as [|[k0 w0] o IH]; simpl.
  - intros _ [= -> ->]%list_elem_of_singleton. by left.
  - change (keys ((k0, w0) :: o)) with (k0 :: keys o).
    intros [Hk0 Hnodup]%NoDup_cons.
    destruct (String.eqb_spec k0 key) as [->|Hne].
    + intros [[= -> ->]|Hin]%elem_of_cons; [by left|]. right.
      split; [|by right]. intros ->. apply Hk0.
      apply list_elem_of_fmap. by exists (key, w).
    + intros [[= -> ->]|Hin]%elem_of_cons; [right; split; [done|left]|].
      destruct (IH Hnodup Hin) as [?|[? ?]]; [by left|right].
      split; [done|by right].
Qed.

Lemma getProp_defined o key :
  getProp o key ≠ JUndefined -> key ∈ keys o.
Proof.
  unfold getProp. destruct (lookupKey key o) as [v|] eqn:Hv; [|done].
  intros _. apply lookupKey_Some in Hv. apply list_elem_of_fmap.
  by exists (key, v).
Qed.

(** ** More on validateExternalArgs *)

Section ValidateExternalArgsMore.
Context (inputTypeDefs : gmap string JomqlInputType).
Local Abbreviation validate := (validateExternalArgs inputTypeDefs).




Lemma resolveArgType_reportsArgs t fieldPath inputType :
  (forall name i, inputTypeDefs !! name = Some i -> inputTypeReportsArgs i) ->
  inputKindReportsArgs t ->
  resolveArgType inputTypeDefs t fieldPath = Ok (inl inputType) ->
  inputTypeReportsArgs inputType.
Proof.
  intros Hdefs Ht. destruct t as [s|i|name]; simpl.
  - done.
  - intros [= <-]. by inversion Ht.
  - destruct (inputTypeDefs !! name) as [i|] eqn:Hi; [|done].
    intros [= <-]. by eapply Hdefs.
Qed.

(** X1: whatever [validateExternalArgs] throws is an ArgsError whose
    field path starts with the path of the call, as long as the
    [inputsValidator]s of the input types report that way. *)
Theorem validateExternalArgs_errors_under_path fuel :
  (forall name i, inputTypeDefs !! name = Some i -> inputTypeReportsArgs i) ->
  forall args argDefinition fieldPath e,
    from_option (fun d => inputKindReportsArgs (argType d)) True argDefinition ->
    validate fuel args argDefinition fieldPath = Throw e ->
    argsErrorUnder fieldPath e.
Proof.
  intros Hdefs. induction fuel as [|fuel IH];
    intros args argDefinition fieldPath e Hd; [done|].
  cbn [validateExternalArgs]. destruct argDefinition as [d|]; simpl in Hd.
  2:{ destruct (truthy args); [|done]. intros [= <-].
      apply argsErrorUnder_here. }
  destruct (negb (argRequired d) && isUndefined args); [done|].
  intros [H|(_ & _ & H)]%bind_Throw; [by eapply throwIf_argsErrorUnder|].
  apply bind_Throw in H as [H|(_ & _ & H)];
    [by eapply throwIf_argsErrorUnder|].
  apply bind_Throw in H as [H|(_ & _ & H)].
  { apply checkArrayField_Throw in H as [message ->].
    apply argsErrorUnder_here. }
  apply bind_Throw in H as [H|(argDefType & Hres & H)].
  { destruct (argType d) as [| |name]; try done. simpl in H.
    destruct (inputTypeDefs !! name); [done|]. injection H as <-.
    apply argsErrorUnder_here. }
  apply bind_Throw in H as [H|([? ?] & _ & ?)]; [|done].
  destruct argDefType as [inputType|scalar].
  2:{ apply bind_Throw in H as [H|(? & _ & ?)]; [|done].
      unfold parseScalar in H. destruct (parseValue scalar); [|done].
      destruct (negb (isNull args)); [|done].
      apply tryCatchThrow_Throw in H as ->. apply argsErrorUnder_here. }
  pose proof (resolveArgType_reportsArgs _ _ _ Hdefs Hd Hres) as Hinput.
  apply bind_Throw in H as [H|(? & _ & ?)]; [|done].
  unfold validateInput in H.
  apply bind_Throw in H as [H|(argsArray & _ & H)].
  { unfold argsArrayOf in H. destruct args, (argArrayOptions d); try done.
    apply bind_Throw in H as [H|(? & _ & ?)]; [|done].
    by eapply throwIf_argsErrorUnder. }
  apply bind_Throw in H as [H|(? & _ & ?)]; [|done].
  apply mapM_Throw in H as (arg & _ & H). unfold validateArg in H.
  apply bind_Throw in H as [H|(_ & _ & H)];
    [by eapply throwIf_argsErrorUnder|].
  destruct arg as [| | | | | | |o]; try done.
  apply bind_Throw in H as [H|([o' ks] & _ & H)].
  { apply forEachM_Throw in H as ([o1 ks1] & [key argDef] & Hin & H).
    unfold validateKey in H.
    apply bind_Throw in H as [H|([? ?] & _ & ?)]; [|done].
    apply argsErrorUnder_key with key. eapply IH; [|exact H]. simpl.
    inversion Hinput as [? ? ? _ Hfields]; subst.
    rewrite Forall_forall in Hfields. by apply (Hfields (key, argDef)). }
  apply bind_Throw in H as [H|(_ & _ & H)];
    [by eapply throwIf_argsErrorUnder|].
  apply bind_Throw in H as [H|(? & _ & ?)]; [|done].
  inversion Hinput as [? ? check Hcheck _]; subst. simpl in H.
  destruct check as [check|]; [|done]. by eapply Hcheck.
Qed.




Lemma validateExternalArgs_undefined fuel d fieldPath r a :
  validate fuel JUndefined (Some d) fieldPath = Ok (r, a) -> r = JUndefined.
Proof.
  destruct fuel as [|fuel]; [done|]. simpl.
  destruct (argRequired d); simpl; [done|]. by intros [= <- _].
Qed.

(** The loop over the declared fields keeps the keys of the argument
    distinct, adds none, and leaves no declared key at undefined. *)
Lemma validateKey_loop_defined fuel fieldPath fields : forall o ks o' ks',
  forEachM (validateKey (validate fuel) fieldPath) fields (o, ks)
  = Ok (o', ks') ->
  NoDup (keys o) ->
  NoDup (keys o')
  /\ keys o' ⊆ keys o
  /\ (forall k v, (k, v) ∈ o' ->
        (k ∈ keys fields -> v ≠ JUndefined)
        /\ (k ∉ keys fields -> (k, v) ∈ o)).
Proof.
  induction fields as [|[key argDef] fields IH]; intros o ks o' ks'.
  { intros [= <- <-] Hnodup. split_and!; [done|done|].
    intros k v Hin. split; [by intros ?%elem_of_nil|done]. }
  rewrite forEachM_cons.
  intros ([o1 ks1] & Hstep & Hrest)%bind_Ok Hnodup.
  apply bind_Ok in Hstep as ([validatedArg a] & Hvalidated & [= <- <-]).
  change (keys ((key, argDef) :: fields)) with (key :: keys fields).
  set (o1 := if isUndefined validatedArg then deleteProp key o
             else setProp key validatedArg o) in *.
  assert (Ho1 : NoDup (keys o1) /\ keys o1 ⊆ keys o
                /\ forall k v, (k, v) ∈ o1 ->
                     (k = key -> v ≠ JUndefined)
                     /\ (k ≠ key -> (k, v) ∈ o)).
  { unfold o1. destruct (isUndefined validatedArg) eqn:Hundef.
    - split_and!.
      + rewrite keys_deleteProp. by apply NoDup_filter.
      + rewrite keys_deleteProp. intros k [_ ?]%list_elem_of_filter. done.
      + intros k v [Hne Hin]%elem_of_deleteProp. split; done.
    - assert (Hkey : key ∈ keys o).
      { apply getProp_defined. intros Hget. rewrite Hget in Hvalidated.
        apply validateExternalArgs_undefined in Hvalidated as ->. done. }
      rewrite keys_setProp_in by done. split_and!; [done|done|].
      intros k v [[-> ->]|[Hne Hin]]%elem_of_setProp; [|done|done].
      + split; [|done]. intros _ ->. done. }
  destruct Ho1 as (Hnodup1 & Hsub1 & Hentries1).
  destruct (IH _ _ _ _ Hrest Hnodup1) as (Hnodup' & Hsub' & Hentries').
  split_and!; [done|by etrans|].
  intros k v Hin. destruct (Hentries' k v Hin) as [Hdeclared Hother].
  split.
  - intros [->|Hk]%elem_of_cons; [|by apply Hdeclared].
    destruct (decide (key ∈ keys fields)) as [Hk|Hk]; [by apply Hdeclared|].
    by apply (Hentries1 key v (Hother Hk)).
  - intros [Hne Hk]%not_elem_of_cons.
    by apply (Hentries1 k v (Hother Hk)).
Qed.

(** X2: when an object argument of an input type passes, what is
    returned is the argument object as left in place; its keys are keys
    the caller sent and fields the input type declares, and none of them
    holds undefined. *)
Theorem validateExternalArgs_object_validated
    fuel d inputType fieldPath o r a :
  resolveArgType inputTypeDefs (argType d) fieldPath = Ok (inl inputType) ->
  NoDup (keys o) ->
  validate fuel (JObj o) (Some d) fieldPath = Ok (r, a) ->
  exists o',
    r = JObj o' /\ a = JObj o'
    /\ NoDup (keys o')
    /\ keys o' ⊆ keys o
    /\ keys o' ⊆ keys (inputFields inputType)
    /\ forall k v, (k, v) ∈ o' -> v ≠ JUndefined.
Proof.
  intros Hres Hnodup. destruct fuel as [|fuel]; [done|].
  cbn [validateExternalArgs]. simpl.
  rewrite !andb_false_r. simpl.
  intros H. apply bind_Ok in H as (_ & _ & H).
  rewrite Hres, Ok_bind in H.
  apply bind_Ok in H as ([parsedArgs args'] & H & [= <- <-]).
  apply bind_Ok in H as (args'' & H & [= <- <-]).
  unfold validateInput in H. simpl in H.
  apply bind_Ok in H as (argsArray' & H & [= <-]).
  apply bind_Ok in H as (arg' & Harg & [= <-]).
  unfold validateArg in Harg.
  apply bind_Ok in Harg as (_ & _ & Harg).
  apply bind_Ok in Harg as ([o' ks] & Hloop & Harg).
  apply bind_Ok in Harg as ([] & Hunknown & Harg).
  apply bind_Ok in Harg as (_ & _ & [= <-]).
  pose proof (validateKey_loop_keys _ _ _ _ _ _ _ Hloop) as Hks.
  destruct (validateKey_loop_defined _ _ _ _ _ _ _ Hloop Hnodup)
    as (Hnodup' & Hsub & Hentries).
  assert (Hdeclared : keys o ⊆ keys (inputFields inputType)).
  { intros k Hk. destruct (decide (k ∈ keys (inputFields inputType)));
      [done|exfalso].
    assert (Hin : k ∈ ks).
    { rewrite Hks. apply list_elem_of_filter. split; [done|].
      by apply elem_of_newSet. }
    destruct ks; [by apply elem_of_nil in Hin|done]. }
  exists o'. simpl. split_and!; try done.
  - by etrans.
  - intros k v Hin. apply (Hentries k v Hin). apply Hdeclared, Hsub.
    apply list_elem_of_fmap. by exists (k, v).
Qed.


(** X3: with [allowNull], a null argument passes as null whatever the
    type of the argument: no [parseValue], no field and no
    [inputsValidator] is looked at. *)
Theorem validateExternalArgs_null_passes fuel d fieldPath t :
  argAllowNull d = true ->
  resolveArgType inputTypeDefs (argType d) fieldPath = Ok t ->
  validate (S fuel) JNull (Some d) fieldPath = Ok (JNull, JNull).
Proof.
  intros Hnull Hres. cbn [validateExternalArgs]. simpl.
  rewrite Hnull, !andb_false_r. simpl.
  unfold checkArrayField. rewrite Hnull. simpl.
  assert (match argArrayOptions d with
          | Some _ => Ok tt ≫= (fun _ => @Ok unit tt)
          | None => Ok tt
          end = Ok tt) as Hcheck by by destruct (argArrayOptions d).
  etrans; [|reflexivity].
  destruct (argArrayOptions d); simpl; rewrite Hres; simpl.
  all: destruct t as [inputType|scalar]; simpl.
  all: unfold validateInput, validateArg, parseScalar; simpl.
  all: rewrite ?Hnull; simpl; try done.
  all: by destruct (parseValue scalar).
Qed.

(** X4: a scalar without [parseValue] returns the argument as given,
    and leaves it in place as given. *)
Theorem validateExternalArgs_scalar_untransformed
    fuel d scalar args fieldPath r a :
  resolveArgType inputTypeDefs (argType d) fieldPath = Ok (inr scalar) ->
  parseValue scalar = None ->
  validate fuel args (Some d) fieldPath = Ok (r, a) ->
  r = args /\ a = args.
Proof.
  intros Hres Hparse. destruct fuel as [|fuel]; [done|].
  cbn [validateExternalArgs].
  destruct (negb (argRequired d) && isUndefined args) eqn:Hundef.
  { intros [= <- <-]. apply andb_true_iff in Hundef as [_ Hundef].
    by destruct args. }
  intros H. do 3 (apply bind_Ok in H as (_ & _ & H)).
  rewrite Hres, Ok_bind in H. unfold parseScalar in H. rewrite Hparse in H.
  simpl in H. by injection H as <- <-.
Qed.
End ValidateExternalArgsMore.

(** ** The further properties of validateExternalArgs at the example data *)

(** X1 at the unknown keys of [pagination]. *)
Lemma validateExternalArgs_errors_under_path_witness :
  argsErrorUnder ["users"; "__args"]
    (JomqlArgsError "Unknown args 'unknown,other'" ["users"; "__args"]).
Proof.
  apply (validateExternalArgs_errors_under_path ∅ 3)
    with (args := JObj Example.unknownArgs)
         (argDefinition := Some Example.paginationArg).
  - intros name i H. by rewrite lookup_empty in H.
  - simpl. do 2 constructor; [done|]. repeat constructor.
  - reflexivity.
Defined.

(** X2 at [{limit: 10}]. *)
Lemma validateExternalArgs_object_validated_witness :
  exists o',
    JObj [("limit", JNum 10)] = JObj o' /\ JObj [("limit", JNum 10)] = JObj o'
    /\ NoDup (keys o')
    /\ keys o' ⊆ keys [("limit", JNum 10)]
    /\ keys o' ⊆ keys (inputFields Example.pagination)
    /\ forall k v, (k, v) ∈ o' -> v ≠ JUndefined.
Proof.
  apply (validateExternalArgs_object_validated ∅ 3 Example.paginationArg
           Example.pagination ["__args"]).
  - reflexivity.
  - apply (bool_decide_unpack _). by vm_compute.
  - reflexivity.
Defined.

(** X3 at a nullable [pagination] argument. *)
Lemma validateExternalArgs_null_passes_witness :
  validateExternalArgs ∅ 1 JNull (Some Fixtures.nullablePaginationArg)
    ["__args"]
  = Ok (JNull, JNull).
Proof.
  by apply (validateExternalArgs_null_passes ∅ 0
              Fixtures.nullablePaginationArg ["__args"]
              (inl Example.pagination)).
Defined.

(** X4 at a number. *)
Lemma validateExternalArgs_scalar_untransformed_witness :
  JNum 5 = JNum 5 /\ JNum 5 = JNum 5.
Proof.
  by apply (validateExternalArgs_scalar_untransformed ∅ 1 Example.requiredArg
              Example.numberScalar (JNum 5) ["limit"] (JNum 5) (JNum 5)).
Defined.

(** ** More on generateJomqlResolverTree *)

Lemma setProp_fresh {A} key (v : A) o :
  key ∉ keys o -> setProp key v o = o ++ [(key, v)].
Proof.
  induction o as [|[k w] o IH]; [done|].
  change (keys ((k, w) :: o)) with (k :: keys o). simpl.
  intros [Hne Hin]%not_elem_of_cons.
  destruct (String.eqb_spec k key) as [->|_]; [done|]. by rewrite IH.
Qed.

Lemma deleteProp_cons {A} key k (v : A) o :
  deleteProp key ((k, v) :: o)
  = if String.eqb k key then deleteProp key o else (k, v) :: deleteProp key o.
Proof.
  unfold deleteProp. rewrite filter_cons. simpl.
  by destruct (String.eqb k key).
Qed.

Lemma keys_queryInPlace query' nestedNodes :
  keys (queryInPlace query' nestedNodes) = keys query'.
Proof.
  unfold queryInPlace, keys. rewrite <- list_fmap_compose.
  apply list_fmap_ext. by intros _ [field v] _.
Qed.





Section GenerateJomqlResolverTreeMore.
Context (objectTypeDefs : gmap string JomqlObjectType).
Context (inputTypeDefs : gmap string JomqlInputType).
Context (lookupValue : json).
Local Abbreviation generate :=
  (generateJomqlResolverTree objectTypeDefs inputTypeDefs lookupValue).

(** What a successful call on an object value went through. *)
Lemma generateJomqlResolverTree_object_Ok fuel o resolverObject fieldPath
    fullTree node :
  generate (S fuel) (JObj o) resolverObject fieldPath fullTree = Ok node ->
  exists type' returned argsInPlace nestedNodes,
    resolveFieldType objectTypeDefs (fieldType resolverObject) fieldPath
    = Ok type'
    /\ match type' with
       | inl _ => True
       | inr _ => keys o = ["__args"]
       end
    /\ validateExternalArgs inputTypeDefs fuel (getProp o "__args")
         (fieldArgs resolverObject) (fieldPath ++ ["__args"])
       = Ok (returned, argsInPlace)
    /\ match type' with
       | inl objectType =>
           exists children,
             forEachM (generateChild (generate fuel) objectType resolverObject
                         fieldPath fullTree) o []
             = Ok children
             /\ nestedNodes = Some children
       | inr _ => nestedNodes = None
       end
    /\ node = mkNode resolverObject
                (queryInPlace (deleteProp "__args" o) nestedNodes)
                (if isUndefined (getProp o "__args") then JNull
                 else argsInPlace)
                nestedNodes.
Proof.
  cbn [generateJomqlResolverTree].
  intros (type' & Htype & H)%bind_Ok.
  apply bind_Ok in H as (_ & _ & H).
  apply bind_Ok in H as ([] & Hscalar & H).
  apply bind_Ok in H as (_ & _ & H).
  apply bind_Ok in H as (_ & _ & H).
  apply bind_Ok in H as ([returned argsInPlace] & Hargs & H).
  apply bind_Ok in H as (nestedNodes & Hnested & [= <-]).
  exists type', returned, argsInPlace, nestedNodes. split_and!; try done.
  - destruct type'; [done|]. apply only_args_key.
    by destruct (negb (hasKey "__args" o) || _).
  - destruct type'; [|by injection Hnested as <-].
    apply bind_Ok in Hnested as (children & Hloop & [= <-]). by exists children.
Qed.

(** Every key the loop gets past is a declared field that is not
    hidden. *)
Lemma generateChild_loop_declared rec objectType resolverObject fieldPath
    fullTree o : forall nestedNodes children,
  forEachM (generateChild rec objectType resolverObject fieldPath fullTree)
    o nestedNodes = Ok children ->
  forall key v, (key, v) ∈ o -> key ≠ "__args" ->
    exists fieldDef,
      lookupKey key (objectFields objectType) = Some fieldDef
      /\ hidden fieldDef = false.
Proof.
  induction o as [|[field w] o IH]; intros nestedNodes children.
  { intros _ key v Hin. by apply elem_of_nil in Hin. }
  rewrite forEachM_cons. intros (nodes & Hstep & Hrest)%bind_Ok key v.
  intros [[= -> ->]|Hin]%elem_of_cons Hkey; [|by eapply IH].
  unfold generateChild in Hstep.
  destruct (String.eqb_spec field "__args"); [done|].
  destruct (lookupKey field _) as [fieldDef|]; [|done].
  apply bind_Ok in Hstep as ([] & Hhidden & _). exists fieldDef.
  split; [done|]. by destruct (hidden fieldDef).
Qed.


(** X5: a query object without keys that name members of
    [Object.prototype], when it is accepted, names, apart from
    [__args], only fields that the type declares and that are not
    hidden. *)
Theorem generateJomqlResolverTree_fields_declared
    fuel o resolverObject fieldPath fullTree node objectType :
  noPrototypeKeys (JObj o) = true ->
  generate fuel (JObj o) resolverObject fieldPath fullTree = Ok node ->
  resolveFieldType objectTypeDefs (fieldType resolverObject) fieldPath
  = Ok (inl objectType) ->
  forall key v, (key, v) ∈ o -> key ≠ "__args" ->
    exists fieldDef,
      lookupKey key (objectFields objectType) = Some fieldDef
      /\ hidden fieldDef = false.
Proof.
  intros _. destruct fuel as [|fuel]; [done|].
  intros (type' & ? & ? & nestedNodes & Htype & _ & _ & Hnested & _)
    %generateJomqlResolverTree_object_Ok Htype'.
  rewrite Htype' in Htype. injection Htype as <-.
  destruct Hnested as (children & Hloop & _).
  by eapply generateChild_loop_declared.
Qed.



(** X7: the shape of a generated node.  It keeps the field definition it
    was generated for; its query has no [__args]; it has no children
    exactly when the field's type is a scalar, and then its query is
    empty; and a query value without [__args] gives it null args. *)
Theorem generateJomqlResolverTree_node_shape
    fuel fieldValue resolverObject fieldPath fullTree node :
  generate fuel fieldValue resolverObject fieldPath fullTree = Ok node ->
  typeDef node = resolverObject
  /\ ("__args" ∉ keys (query node))
  /\ (nested node = None
      <-> exists scalar,
            resolveFieldType objectTypeDefs (fieldType resolverObject)
              fieldPath
            = Ok (inr scalar))
  /\ (nested node = None -> query node = [])
  /\ (getField fieldValue "__args" = JUndefined -> args node = JNull).
Proof.
  destruct fuel as [|fuel]; [done|].
  destruct (isObject fieldValue) eqn:Hobj.
  - destruct fieldValue as [| | | | | | |o]; try done.
    intros (type' & ? & ? & nestedNodes & Htype & Honly & _ & Hnested & ->)
      %generateJomqlResolverTree_object_Ok.
    simpl. split_and!.
    + done.
    + rewrite keys_queryInPlace, keys_deleteProp.
      intros [? _]%list_elem_of_filter. done.
    + destruct type' as [objectType|scalar].
      * destruct Hnested as (children & _ & ->).
        split; [done|]. intros [scalar ?]. congruence.
      * split; [by exists scalar|done].
    + destruct type' as [objectType|scalar].
      * by destruct Hnested as (children & _ & ->).
      * intros _. apply (f_equal (filter (fun k => k ≠ "__args"))) in Honly.
        rewrite <- keys_deleteProp in Honly.
        by destruct (deleteProp "__args" o).
    + by intros ->.
  - cbn [generateJomqlResolverTree].
    intros (type' & Htype & H)%bind_Ok.
    apply bind_Ok in H as ([] & Hrhs & H).
    apply bind_Ok in H as (_ & _ & H).
    apply bind_Ok in H as ([] & Hresolved & H).
    apply bind_Ok in H as (_ & _ & H).
    assert (Hnode : node = mkNode resolverObject [] JNull None)
      by (destruct fieldValue; by try injection H as <-).
    subst node. simpl. split_and!; try done.
    + apply not_elem_of_nil.
    + split; [intros _|done]. destruct type' as [objectType|scalar];
        [|by exists scalar].
      simpl in Hresolved. rewrite Hobj in Hrhs.
      by destruct (strictEq fieldValue lookupValue
                   || strictEq fieldValue JSymbol).
Qed.

(** What a query value that is not an object gives, with any fuel.
    Anything but the lookup value or the symbol is refused; at a field
    of an object type the lookup value is refused; at a scalar field it
    gives a node without query, args and children, unless the field
    requires args. *)
Lemma generateJomqlResolverTree_lookup_value
    fuel fieldValue resolverObject fieldPath fullTree type' :
  isObject fieldValue = false ->
  resolveFieldType objectTypeDefs (fieldType resolverObject) fieldPath
  = Ok type' ->
  generate (S fuel) fieldValue resolverObject fieldPath fullTree
  = if negb (strictEq fieldValue lookupValue || strictEq fieldValue JSymbol)
    then Throw (JomqlQueryError "Invalid field RHS" fieldPath)
    else
      match type' with
      | inl _ =>
          Throw (JomqlQueryError
                   "Resolved node must be an object with nested fields"
                   fieldPath)
      | inr _ =>
          if argsRequired resolverObject
          then Throw (JomqlQueryError "Args required" fieldPath)
          else Ok (mkNode resolverObject [] JNull None)
      end.
Proof.
  intros Hobj Htype. cbn [generateJomqlResolverTree].
  rewrite Htype, Ok_bind, Hobj.
  destruct (strictEq fieldValue lookupValue || strictEq fieldValue JSymbol);
    [|done].
  destruct fieldValue; try done.
  all: destruct type'; [done|]; simpl.
  all: by destruct (argsRequired resolverObject).
Qed.

End GenerateJomqlResolverTreeMore.

(** ** The further properties of generateJomqlResolverTree at the example data *)

(** X5 at the field [id] of the query [{id, name}]. *)
Lemma generateJomqlResolverTree_fields_declared_witness :
  exists fieldDef,
    lookupKey "id" (objectFields Example.user) = Some fieldDef
    /\ hidden fieldDef = false.
Proof.
  eapply (generateJomqlResolverTree_fields_declared ∅ ∅ JNull 3
            Fixtures.userQuery Example.plainUserField ["user"] false _
            Example.user) with (v := JNull).
  - reflexivity.
  - reflexivity.
  - reflexivity.
  - left.
  - done.
Defined.


(** X7 at the same query. *)
Lemma generateJomqlResolverTree_node_shape_witness :
  exists node,
    generateJomqlResolverTree ∅ ∅ JNull 3 (JObj Fixtures.userQuery)
      Example.plainUserField ["user"] false
    = Ok node
    /\ typeDef node = Example.plainUserField
    /\ ("__args" ∉ keys (query node))
    /\ (nested node = None
        <-> exists scalar,
              resolveFieldType ∅ (fieldType Example.plainUserField) ["user"]
              = Ok (inr scalar))
    /\ (nested node = None -> query node = [])
    /\ (getField (JObj Fixtures.userQuery) "__args" = JUndefined
        -> args node = JNull).
Proof.
  eexists. split; [reflexivity|].
  apply (generateJomqlResolverTree_node_shape ∅ ∅ JNull 3
           (JObj Fixtures.userQuery) Example.plainUserField ["user"] false).
  reflexivity.
Defined.


(** The query [{balance: {__args: {min: 1}}}]: [parseValue] turns 1
    into 2 in the args object itself, so the child's args and the
    node's query both hold 2. *)
Lemma generateJomqlResolverTree_query_in_place :
  exists node child,
    generateJomqlResolverTree ∅ ∅ JNull 4 (JObj Fixtures.balanceQuery)
      Fixtures.accountField ["account"] false
    = Ok node
    /\ nested node = Some [("balance", child)]
    /\ args child = JObj [("min", JNum 2)]
    /\ query node
       = [("balance", JObj [("__args", JObj [("min", JNum 2)])])].
Proof. eexists _, _. split; [reflexivity|]. by repeat split. Qed.

(** ** More on result validation *)

Lemma mapM_Ok {A B} (f : A -> result B) l out :
  mapM f l = Ok out -> Forall2 (fun a b => f a = Ok b) l out.
Proof.
  revert out. induction l as [|a l IH]; intros out.
  { intros [= <-]. constructor. }
  rewrite mapM_cons. intros (b & Hb & H)%bind_Ok.
  apply bind_Ok in H as (bs & Hbs & [= <-]). constructor; [done|by apply IH].
Qed.

Lemma validateResultNullish_element value resolverObject fieldPath opts :
  validateResultNullish value resolverObject fieldPath (Some opts)
  = if isNullish value && negb (allowNullElement opts)
    then Throw (JomqlResultError "Null value not allowed for array element"
                  fieldPath)
    else Ok tt.
Proof. done. Qed.

(** X9: for a field with [arrayOptions], an array passes exactly when
    null elements are allowed or no element is null or undefined,
    whatever [allowNull] says; what is thrown otherwise is "Null value
    not allowed for array element". *)
Theorem validateResultFields_array_elements
    elements resolverObject opts fieldPath :
  arrayOptions resolverObject = Some opts ->
  (validateResultFields (JArr elements) resolverObject fieldPath = Ok tt
   <-> allowNullElement opts = true
       \/ Forall (fun ele => isNullish ele = false) elements)
  /\ (forall e,
        validateResultFields (JArr elements) resolverObject fieldPath
        = Throw e ->
        e = JomqlResultError "Null value not allowed for array element"
              fieldPath).
Proof.
  intros Harr. unfold validateResultFields. rewrite Harr.
  induction elements as [|ele elements [IHok IHthrow]].
  { split; [split; [by right|done]|done]. }
  rewrite forEachM_cons, validateResultNullish_element.
  destruct (allowNullElement opts) eqn:Hallow.
  - rewrite andb_false_r, Ok_bind. split; [|done].
    split; [by left|]. intros _. apply IHok. by left.
  - rewrite andb_true_r. destruct (isNullish ele) eqn:Hele; simpl.
    + split; [|by intros e [= <-]]. split; [done|].
      intros [?|Hall]; [done|]. apply Forall_cons in Hall as [? _].
      congruence.
    + split; [|done]. rewrite IHok. split.
      * intros [?|Hall]; [done|]. right. by constructor.
      * intros [?|Hall]; [done|]. right. by apply Forall_cons in Hall as [_ ?].
Qed.

Lemma validateResultNullish_Throw value resolverObject fieldPath opts e :
  validateResultNullish value resolverObject fieldPath opts = Throw e ->
  exists message, e = JomqlResultError message fieldPath.
Proof. intros ->%throwIf_Throw. eauto. Qed.

Lemma validateResultFields_Throw value resolverObject fieldPath e :
  validateResultFields value resolverObject fieldPath = Throw e ->
  exists message, e = JomqlResultError message fieldPath.
Proof.
  unfold validateResultFields.
  destruct (arrayOptions resolverObject) as [opts|];
    [|apply validateResultNullish_Throw].
  destruct value as [| | | | | |elements|].
  all: try (destruct (allowNull resolverObject); simpl; intros [= <-]; eauto).
  intros (_ & ele & _ & H)%forEachM_Throw.
  by apply validateResultNullish_Throw in H.
Qed.

Section ResultValidationMore.
Context (objectTypeDefs : gmap string JomqlObjectType).
Local Abbreviation validateResults := (validateJomqlResults objectTypeDefs).

(** X10: a leaf comes back as it is when its field is of an object
    type, when its scalar has no [serialize], and when it is null or
    undefined. *)
Theorem validateJomqlResults_leaf_unchanged
    value jomqlResolverNode fieldPath type' returned :
  nested jomqlResolverNode = None ->
  resolveFieldType objectTypeDefs (fieldType (typeDef jomqlResolverNode))
    fieldPath
  = Ok type' ->
  match type' with
  | inl _ => True
  | inr scalar => serialize scalar = None \/ isNullish value = true
  end ->
  validateResults value jomqlResolverNode fieldPath = Ok returned ->
  returned = value.
Proof.
  intros Hleaf Htype Hcase.
  destruct jomqlResolverNode as [t q a n]. simpl in *. subst n.
  intros (_ & _ & H)%bind_Ok. unfold serializeLeaf in H.
  rewrite Htype, Ok_bind in H. destruct type' as [objectType|scalar].
  { by injection H as <-. }
  destruct (serialize scalar) as [serializeFn|]; [|by injection H as <-].
  destruct Hcase as [?|Hnullish]; [done|].
  destruct value; try done; by injection H as <-.
Qed.

(** X11: for a leaf of a scalar with a [serialize], whatever is thrown
    is a ResultError at the path of the leaf; and when [serialize]
    throws, on the value or on an element of the array, the caller sees
    "Invalid scalar value for '<name>'" and not what was thrown. *)
Theorem validateJomqlResults_serialize_error_wrapped
    jomqlResolverNode scalar serializeFn fieldPath :
  nested jomqlResolverNode = None ->
  resolveFieldType objectTypeDefs (fieldType (typeDef jomqlResolverNode))
    fieldPath
  = Ok (inr scalar) ->
  serialize scalar = Some serializeFn ->
  let wrapped :=
    JomqlResultError
      ("Invalid scalar value for '" +:+ scalarName scalar +:+ "'") fieldPath in
  (forall value e,
     validateResults value jomqlResolverNode fieldPath = Throw e ->
     exists message, e = JomqlResultError message fieldPath)
  /\ (forall value e0,
        isNullish value = false ->
        arrayOptions (typeDef jomqlResolverNode) = None ->
        serializeFn value = Throw e0 ->
        validateResults value jomqlResolverNode fieldPath = Throw wrapped)
  /\ (forall elements opts e0,
        arrayOptions (typeDef jomqlResolverNode) = Some opts ->
        validateResultFields (JArr elements) (typeDef jomqlResolverNode)
          fieldPath
        = Ok tt ->
        mapM serializeFn elements = Throw e0 ->
        validateResults (JArr elements) jomqlResolverNode fieldPath
        = Throw wrapped).
Proof.
  intros Hleaf Htype Hserialize wrapped.
  destruct jomqlResolverNode as [t q a n]. simpl in *. subst n.
  unfold serializeLeaf. rewrite Htype. simpl. rewrite Hserialize.
  split_and!.
  - intros value e [H|(_ & _ & H)]%bind_Throw;
      [by apply validateResultFields_Throw in H|].
    destruct (negb (isNull value) && negb (isUndefined value)); [|done].
    apply tryCatchThrow_Throw in H. eauto.
  - intros value e0 Hvalue Harr Hthrow.
    unfold validateResultFields, validateResultNullish.
    rewrite Harr, Hvalue. simpl.
    assert (negb (isNull value) && negb (isUndefined value) = true) as ->
      by by destruct value.
    assert (match value with
            | JArr _ | _ => serializeFn value
            end = serializeFn value) as -> by by destruct value.
    by rewrite Hthrow.
  - intros elements opts e0 Harr -> Hthrow. simpl.
    by rewrite Harr, Hthrow.
Qed.

(** X12: a leaf array of a scalar with a [serialize] is serialized
    element by element, null elements included. *)
Theorem validateJomqlResults_leaf_array_serialized
    jomqlResolverNode scalar serializeFn opts elements fieldPath returned :
  nested jomqlResolverNode = None ->
  resolveFieldType objectTypeDefs (fieldType (typeDef jomqlResolverNode))
    fieldPath
  = Ok (inr scalar) ->
  serialize scalar = Some serializeFn ->
  arrayOptions (typeDef jomqlResolverNode) = Some opts ->
  validateResults (JArr elements) jomqlResolverNode fieldPath = Ok returned ->
  exists serialized,
    returned = JArr serialized
    /\ Forall2 (fun ele out => serializeFn ele = Ok out) elements serialized.
Proof.
  intros Hleaf Htype Hserialize Harr.
  destruct jomqlResolverNode as [t q a n]. simpl in *. subst n.
  intros (_ & _ & H)%bind_Ok. unfold serializeLeaf in H.
  rewrite Htype, Ok_bind, Hserialize, Harr in H. simpl in H.
  destruct (mapM serializeFn elements) as [serialized| |] eqn:Hmap; [|done..].
  injection H as <-. exists serialized. split; [done|]. by apply mapM_Ok.
Qed.

(** The loop over the requested fields appends one property per child,
    in the order of the children. *)
Lemma validateJomqlResults_fields_loop
    (validate : json -> JomqlResolverNode -> list string -> result json)
    from fieldPath children :
  isNullish from = false ->
  forall returnValue out,
    forEachM (fun returnValue '(field, child) =>
                v ← readField from field;
                validated ← validate v child (fieldPath ++ [field]);
                Ok (setProp field validated returnValue))
      children returnValue
    = Ok out ->
    NoDup (keys returnValue ++ keys children) ->
    exists new,
      out = returnValue ++ new
      /\ Forall2 (fieldValidated validate from fieldPath) new children.
Proof.
  intros Hfrom. induction children as [|[field child] children IH];
    intros returnValue out.
  { intros [= <-] _. exists []. by rewrite app_nil_r. }
  rewrite forEachM_cons. intros (returnValue' & Hstep & Hrest)%bind_Ok.
  change (keys ((field, child) :: children)) with (field :: keys children).
  intros Hnodup. unfold readField in Hstep. rewrite Hfrom, Ok_bind in Hstep.
  apply bind_Ok in Hstep as (validated & Hvalidated & [= <-]).
  assert (Hfresh : field ∉ keys returnValue).
  { apply NoDup_app in Hnodup as (_ & Hdisjoint & _). intros Hin.
    apply (Hdisjoint _ Hin). left. }
  rewrite setProp_fresh in Hrest by done.
  destruct (IH _ _ Hrest) as (new & -> & Hnew).
  { unfold keys. rewrite fmap_app. simpl. by rewrite <- app_assoc. }
  exists ((field, validated) :: new). rewrite <- app_assoc. split; [done|].
  by constructor.
Qed.

(** X13: for a node with children and no [arrayOptions], a result that
    is an object comes back as an object with exactly the requested
    fields, in the order of the request, each validated against its
    child; what the result holds besides is dropped.  A result that is
    neither null nor an object is refused. *)
Theorem validateJomqlResults_object_fields
    jomqlResolverNode children fieldPath :
  nested jomqlResolverNode = Some children ->
  arrayOptions (typeDef jomqlResolverNode) = None ->
  children ≠ [] ->
  NoDup (keys children) ->
  (forall o returned,
     validateResults (JObj o) jomqlResolverNode fieldPath = Ok returned ->
     exists out,
       returned = JObj out
       /\ Forall2 (fieldValidated validateResults (JObj o) fieldPath)
            out children)
  /\ (forall value,
        isObject value = false -> value ≠ JNull ->
        validateResults value jomqlResolverNode fieldPath
        = Throw (JomqlResultError "Expecting object" fieldPath)).
Proof.
  intros Hnested Harr Hchildren Hnodup.
  destruct jomqlResolverNode as [t q a n]. simpl in *. subst n.
  rewrite Harr. destruct children as [|child children]; [done|].
  rewrite bool_decide_false by (simpl; lia). split.
  - intros o returned. simpl isNull. cbn match.
    intros (out & Hloop & [= <-])%bind_Ok.
    apply (validateJomqlResults_fields_loop validateResults (JObj o))
      in Hloop as (new & -> & Hnew); [|done|done].
    by exists new.
  - intros value Hobj Hnull. rewrite Hobj. by destruct value.
Qed.

(** X14: for a node with children and [arrayOptions], an array of
    result nodes (each null, undefined or an object) comes back as the
    array of the objects built for its elements, each with exactly the
    requested fields; and when fields are requested, an array with a
    null or undefined element does not pass, whatever
    [allowNullElement] says. *)
Theorem validateJomqlResults_array_fields
    jomqlResolverNode children opts elements fieldPath returned :
  nested jomqlResolverNode = Some children ->
  arrayOptions (typeDef jomqlResolverNode) = Some opts ->
  children ≠ [] ->
  NoDup (keys children) ->
  Forall (fun ele => isObject ele = true \/ isNullish ele = true) elements ->
  validateResults (JArr elements) jomqlResolverNode fieldPath = Ok returned ->
  exists outs,
    returned = JArr outs
    /\ Forall2 (fun ele out =>
                  isObject ele = true
                  /\ exists fields,
                       out = JObj fields
                       /\ Forall2 (fieldValidated validateResults ele fieldPath)
                            fields children)
         elements outs.
Proof.
  intros Hnested Harr Hchildren Hnodup Helements.
  destruct jomqlResolverNode as [t q a n]. simpl in *. subst n.
  rewrite Harr. intros (outs & Hmap & [= <-])%bind_Ok.
  exists outs. split; [done|]. apply mapM_Ok in Hmap.
  induction Hmap as [|ele out elements outs Hele _ IH]; [constructor|].
  apply Forall_cons in Helements as [Htyped Helements].
  constructor; [|by apply IH]. simpl in Hele.
  apply bind_Ok in Hele as (fields & Hloop & [= <-]).
  assert (Hnullish : isNullish ele = false).
  { destruct children as [|[field child] children']; [done|].
    rewrite forEachM_cons in Hloop. unfold readField in Hloop.
    by destruct (isNullish ele). }
  split; [destruct Htyped; congruence|].
  apply (validateJomqlResults_fields_loop validateResults ele)
    in Hloop as (new & -> & Hnew); [|done|done].
  by exists new.
Qed.

(** A node with children lets null through whatever [allowNull] says;
    and with an empty selection and no [arrayOptions] an object comes
    back as the empty object and anything else as null. *)
Lemma validateJomqlResults_null_and_empty
    jomqlResolverNode children fieldPath :
  nested jomqlResolverNode = Some children ->
  validateResults JNull jomqlResolverNode fieldPath = Ok JNull
  /\ (children = [] ->
      arrayOptions (typeDef jomqlResolverNode) = None ->
      forall value,
        validateResults value jomqlResolverNode fieldPath
        = Ok (if isObject value then JObj [] else JNull)).
Proof.
  intros Hnested.
  destruct jomqlResolverNode as [t q a n]. simpl in *. subst n.
  split; [done|]. intros -> -> value. by destruct value.
Qed.
End ResultValidationMore.

(** ** The further properties of result validation at the example data *)

(** X9 at an array of numbers whose elements may not be null. *)
Lemma validateResultFields_array_elements_witness :
  let resolverObject :=
    Example.scalarField true (Some {| allowNullElement := false |}) in
  (validateResultFields (JArr [JNum 1; JNull]) resolverObject ["ids"] = Ok tt
   <-> false = true
       \/ Forall (fun ele => isNullish ele = false) [JNum 1; JNull])
  /\ (forall e,
        validateResultFields (JArr [JNum 1; JNull]) resolverObject ["ids"]
        = Throw e ->
        e = JomqlResultError "Null value not allowed for array element"
              ["ids"]).
Proof.
  exact (validateResultFields_array_elements [JNum 1; JNull]
           (Example.scalarField true (Some {| allowNullElement := false |}))
           {| allowNullElement := false |} ["ids"] eq_refl).
Defined.

(** X10 at a null leaf. *)
Lemma validateJomqlResults_leaf_unchanged_witness :
  JNull = JNull.
Proof.
  apply (validateJomqlResults_leaf_unchanged ∅ JNull
           (Example.leafNode true None) ["id"] (inr Example.numberScalar)
           JNull).
  - reflexivity.
  - reflexivity.
  - by right.
  - reflexivity.
Defined.

(** X11 at a string, which [positiveScalar] does not serialize. *)
Lemma validateJomqlResults_serialize_error_wrapped_witness :
  validateJomqlResults ∅ (JStr "x") (Fixtures.positiveLeaf None) ["count"]
  = Throw (JomqlResultError "Invalid scalar value for 'positive'" ["count"]).
Proof.
  refine (proj1 (proj2 (validateJomqlResults_serialize_error_wrapped ∅
                          (Fixtures.positiveLeaf None)
                          Fixtures.positiveScalar _ ["count"]
                          eq_refl eq_refl eq_refl))
            (JStr "x") (OtherError "not a number") eq_refl eq_refl eq_refl).
Defined.

(** X12 at an array of two numbers. *)
Lemma validateJomqlResults_leaf_array_serialized_witness :
  exists serialized,
    JArr [JNum 1; JNum 2] = JArr serialized
    /\ Forall2 (fun ele out =>
                  match ele with
                  | JNum n =>
                      if 0 <? n then Ok ele
                      else Throw (OtherError "not positive")
                  | _ => Throw (OtherError "not a number")
                  end = Ok out)
         [JNum 1; JNum 2] serialized.
Proof.
  apply (validateJomqlResults_leaf_array_serialized ∅
           (Fixtures.positiveLeaf (Some {| allowNullElement := true |}))
           Fixtures.positiveScalar _ {| allowNullElement := true |}
           [JNum 1; JNum 2] ["counts"]); reflexivity.
Defined.

(** X13 at the result [{a: 1, b: 2}] for the query [{a}]: [b] is
    dropped. *)
Lemma validateJomqlResults_object_fields_witness :
  exists out,
    JObj [("a", JNum 1)] = JObj out
    /\ Forall2
         (fieldValidated (validateJomqlResults ∅)
            (JObj [("a", JNum 1); ("b", JNum 2)]) ["user"])
         out Example.children.
Proof.
  eapply (proj1 (validateJomqlResults_object_fields ∅ Example.userNode
                   Example.children ["user"] eq_refl eq_refl _ _)).
  reflexivity.
  Unshelve.
  - discriminate.
  - apply (bool_decide_unpack _). by vm_compute.
Defined.

(** X14 at an array of one user. *)
Lemma validateJomqlResults_array_fields_witness :
  exists outs,
    JArr [JObj [("a", JNum 1)]] = JArr outs
    /\ Forall2 (fun ele out =>
                  isObject ele = true
                  /\ exists fields,
                       out = JObj fields
                       /\ Forall2
                            (fieldValidated (validateJomqlResults ∅) ele
                               ["users"])
                            fields Example.children)
         [JObj [("a", JNum 1); ("b", JNum 2)]] outs.
Proof.
  apply (validateJomqlResults_array_fields ∅ Fixtures.usersNode
           Example.children {| allowNullElement := true |}
           [JObj [("a", JNum 1); ("b", JNum 2)]] ["users"]).
  - reflexivity.
  - reflexivity.
  - discriminate.
  - apply (bool_decide_unpack _). by vm_compute.
  - constructor; [by left|constructor].
  - reflexivity.
Defined.

(** ** More on processJomqlResolverTree *)

Lemma JomqlResolverNode_nested_ind (P : JomqlResolverNode -> Prop) :
  (forall typeDef' query' args', P (mkNode typeDef' query' args' None)) ->
  (forall typeDef' query' args' children,
     Forall (fun fc => P fc.2) children ->
     P (mkNode typeDef' query' args' (Some children))) ->
  forall jomqlResolverNode, P jomqlResolverNode.
Proof.
  intros Hleaf Hstep. fix IH 1. intros [t q a [cs|]]; [|apply Hleaf].
  apply Hstep.
  induction cs as [|[f c] cs IHcs]; constructor; [apply IH|apply IHcs].
Qed.

Lemma sameReads_refl h : sameReads h h.
Proof. by intros l. Qed.

Lemma sameReads_trans h1 h2 h3 :
  sameReads h1 h2 -> sameReads h2 h3 -> sameReads h1 h3.
Proof.
  intros H12 H23 l. destruct (H12 l) as [Hobj12 Hget12].
  destruct (H23 l) as [Hobj23 Hget23]. split; [congruence|].
  intros key. by rewrite Hget23.
Qed.

(** Writing to a property what it reads as changes no read. *)
Lemma sameReads_setFieldV h l key :
  sameReads h (setFieldV h l key (getFieldV h (VRef l) key)).
Proof.
  intros l'. unfold setFieldV. simpl.
  destruct (decide (l' = l)) as [->|Hne];
    [|by rewrite lookup_alter_ne by done].
  rewrite lookup_alter_eq. destruct (h !! l) as [o|]; [|done]. simpl.
  split; [done|]. intros key'.
  destruct (decide (key' = key)) as [->|Hkey].
  - by rewrite lookup_insert_eq.
  - by rewrite lookup_insert_ne by done.
Qed.

(** X15: on a tree without resolvers, with a data object given,
    [processJomqlResolverTree] succeeds, returns the results it was
    given, and leaves every property of every object reading as before:
    at most it adds requested properties that were missing, as
    undefined. *)
Theorem processJomqlResolverTree_resolver_free jomqlResolverNode :
  resolverFree jomqlResolverNode = true ->
  forall jomqlResultsNode parentNode data fieldPath fullTree h,
    data ≠ VUndefined ->
    exists h',
      processJomqlResolverTree jomqlResultsNode jomqlResolverNode parentNode
        data fieldPath fullTree h
      = Ok (jomqlResultsNode, h')
      /\ sameReads h h'.
Proof.
  induction jomqlResolverNode as [t q a|t q a children IH]
    using JomqlResolverNode_nested_ind;
    intros Hfree results parentNode data fieldPath fullTree h Hdata.
  all: simpl in Hfree.
  all: apply andb_true_iff in Hfree as [Hfree Hchildren].
  all: apply andb_true_iff in Hfree as [Hresolver Hroot].
  all: apply negb_true_iff in Hroot.
  all: assert (Hnone : resolver t = None)
         by (destruct (resolver t); [done|done]).
  all: assert (Hdefault : defaultData data h = (data, h)) by by destruct data.
  all: cbn [processJomqlResolverTree]; rewrite Hdefault.
  all: unfold fetchResults, fieldResolver; simpl; rewrite Hroot, Hnone; simpl.
  { exists h. split; [done|apply sameReads_refl]. }
  destruct results as [| | | | |l];
    try (exists h; split; [done|apply sameReads_refl]).
  simpl. destruct (h !! l) as [o|] eqn:Hl; simpl;
    [|exists h; split; [done|apply sameReads_refl]].
  destruct (isPlain o) eqn:Hplain;
    [|exists h; split; [done|apply sameReads_refl]].
  assert (Hloop : forall h0, sameReads h h0 ->
    exists h',
      forEachM
        (fun h1 '(field, child) =>
           '(r, h2) ←
             processJomqlResolverTree
               (if isObjectV h1 (VRef l) then getFieldV h1 (VRef l) field
                else VNull)
               child (VRef l) data (fieldPath ++ [field]) false h1;
           Ok (setFieldV h2 l field r))
        children h0
      = Ok h'
      /\ sameReads h h').
  { clear Hdefault. induction children as [|[field child] children IHchildren];
      intros h0 Hh0.
    { by exists h0. }
    apply Forall_cons in IH as [IHchild IH]. simpl in Hchildren, IHchild.
    apply andb_true_iff in Hchildren as [Hchild Hchildren].
    rewrite forEachM_cons.
    destruct (IHchild Hchild
                (if isObjectV h0 (VRef l) then getFieldV h0 (VRef l) field
                 else VNull)
                (VRef l) data (fieldPath ++ [field]) false h0 Hdata)
      as (h1 & -> & Hh1).
    rewrite Ok_bind. cbn beta iota. rewrite Ok_bind.
    apply (IHchildren IH Hchildren).
    apply sameReads_trans with h0; [done|].
    apply sameReads_trans with h1; [done|].
    assert (Hobj : isObjectV h0 (VRef l) = true).
    { destruct (Hh0 l) as [-> _]. simpl. by rewrite Hl. }
    rewrite Hobj. destruct (Hh1 l) as [_ Hget]. rewrite <- Hget.
    apply sameReads_setFieldV. }
  destruct (Hloop h (sameReads_refl h)) as (h' & Hh' & Hreads).
  exists h'. split; [|done]. simpl in Hh'. by rewrite Hh'.
Qed.

(** X15 at the result [{a: 1}] and the query [{id, name}]. *)
Lemma processJomqlResolverTree_resolver_free_witness :
  exists h',
    processJomqlResolverTree (VRef 1%positive) Fixtures.plainUserNode
      VUndefined VNull ["user"] false Example.resultStore
    = Ok (VRef 1%positive, h')
    /\ sameReads Example.resultStore h'.
Proof.
  by apply (processJomqlResolverTree_resolver_free Fixtures.plainUserNode
              eq_refl).
Defined.

(** ** More on handleAggregatedQueries *)

Section LegacyMore.
Import Legacy.

(** X16: a resolver object in which no field has both a dataloader and
    a query makes the run a no-op, whatever the rows are. *)
Theorem handleAggregatedQueries_no_dataloader tree :
  forallb (fun fe => neverLoads fe.2) tree = true ->
  forall rows tn fp st, handleAggregatedQueries rows tree tn fp st = Ok st.
Proof.
  assert (Hentry : forall entry, neverLoads entry = true ->
    forall rows tn fp st field,
      handleField rows tn fp st field entry = Ok st).
  { induction entry as [t d q|t d q nestedResolver IH]
      using ResolverEntry_nested_ind;
      intros Hnever rows tn fp [h calls] field; simpl in Hnever.
    all: apply andb_true_iff in Hnever as [Hbranch Hnested].
    { simpl. by destruct d, q. }
    assert (Hloop : forall rows' tn' fp' st,
      forEachM (fun st '(field', entry') =>
                  handleField rows' tn' fp' st field' entry')
        nestedResolver st = Ok st).
    { clear Hbranch. intros rows' tn' fp'.
      induction nestedResolver as [|[f e] rest IHrest]; intros st; [done|].
      apply Forall_cons in IH as [IHe IH]. simpl in Hnested.
      apply andb_true_iff in Hnested as [He Hrest].
      rewrite forEachM_cons. cbn beta iota. rewrite (IHe He), Ok_bind.
      by apply IHrest. }
    simpl. destruct d, q; try done; simpl; apply Hloop. }
  intros Htree rows tn fp.
  induction tree as [|[f e] rest IH]; intros st; [done|].
  simpl in Htree. apply andb_true_iff in Htree as [He Hrest].
  rewrite handleAggregatedQueries_cons, (Hentry e He), Ok_bind.
  by apply IH.
Qed.

Lemma handleField_calls entry : forall rows tn fp h calls field h' calls'',
  handleField rows tn fp (h, calls) field entry = Ok (h', calls'') ->
  exists calls',
    calls'' = calls ++ calls'
    /\ map callShape calls' = loadsBelow tn fp field entry.
Proof.
  induction entry as [t d q|t d q nestedResolver IH]
    using ResolverEntry_nested_ind;
    intros rows tn fp h calls field h' calls''.
  all: assert (Hload : forall dataloaderFn query',
         d = Some dataloaderFn -> q = Some query' ->
         forall n,
           handleField rows tn fp (h, calls) field (mkEntry t d q n)
           = Ok (h', calls'') ->
           exists calls',
             calls'' = calls ++ calls'
             /\ map callShape calls'
                = loadsBelow tn fp field (mkEntry t d q n)).
  1,3: intros dataloaderFn query' -> -> n; simpl;
       intros ([records h1] & _ & H)%bind_Ok;
       apply bind_Ok in H as (recordMap & _ & H);
       apply bind_Ok in H as (h2 & _ & [= <- <-]);
       by eexists [_].
  { destruct d as [dataloaderFn|], q as [query'|]; try (by eapply Hload).
    all: intros [= <- <-]; exists []; by rewrite app_nil_r. }
  destruct (decide (is_Some d /\ is_Some q)) as [[[? ->] [? ->]]|Hbranch];
    [by eapply Hload|].
  clear Hload. rewrite handleField_nested with (nestedResolver := nestedResolver)
    by done.
  assert (loadsBelow tn fp field (mkEntry t d q (Some nestedResolver))
          = loads t (fp ++ [field]) nestedResolver) as ->.
  { simpl. destruct d, q; try done. destruct Hbranch; split; eauto. }
  simpl typename. generalize (nestedResultsArrayOf h rows field).
  generalize (fp ++ [field]). clear Hbranch rows fp.
  intros fp rows. revert h calls.
  induction nestedResolver as [|[f e] rest IHrest]; intros h calls.
  { intros [= <- <-]. exists []. by rewrite app_nil_r. }
  apply Forall_cons in IH as [IHe IH]. simpl in IHe.
  rewrite handleAggregatedQueries_cons.
  intros ([h1 calls1] & Hfield & Hrest)%bind_Ok.
  apply IHe in Hfield as (calls1' & -> & Hshape1).
  apply (IHrest IH) in Hrest as (calls2' & -> & Hshape2).
  exists (calls1' ++ calls2'). rewrite app_assoc. split; [done|].
  unfold loads. simpl. rewrite map_app. by f_equal.
Qed.

(** X17: which dataloader calls a run makes, in which order, and with
    which field path, typename and query, is read off the resolver
    object alone: one call per field with a dataloader and a query,
    nested fields after their parent's earlier siblings.  The rows
    decide the keys only. *)
Theorem handleAggregatedQueries_calls
    rows tree tn fp h calls h' calls'' :
  handleAggregatedQueries rows tree tn fp (h, calls) = Ok (h', calls'') ->
  exists calls',
    calls'' = calls ++ calls'
    /\ map callShape calls' = loads tn fp tree.
Proof.
  revert h calls. induction tree as [|[f e] rest IH]; intros h calls.
  { intros [= <- <-]. exists []. by rewrite app_nil_r. }
  rewrite handleAggregatedQueries_cons.
  intros ([h1 calls1] & Hfield & Hrest)%bind_Ok.
  apply handleField_calls in Hfield as (calls1' & -> & Hshape1).
  apply IH in Hrest as (calls2' & -> & Hshape2).
  exists (calls1' ++ calls2'). rewrite app_assoc. split; [done|].
  unfold loads. simpl. rewrite map_app. by f_equal.
Qed.

Lemma aggregateIds_falsy h rows field :
  Forall (fun row => truthyV row = false) rows ->
  aggregateIds h rows field = [].
Proof.
  intros Hrows. unfold aggregateIds.
  assert (omap (fun result =>
                  if truthyV result then Some (getFieldV h result field)
                  else None) rows = []) as ->; [|done].
  induction Hrows as [|row rows Hrow _ IH]; [done|]. simpl. by rewrite Hrow.
Qed.

Lemma joinRecords_falsy recordMap field rows h :
  Forall (fun row => truthyV row = false) rows ->
  joinRecords recordMap field rows h = Ok h.
Proof.
  intros Hrows. unfold joinRecords.
  induction Hrows as [|row rows Hrow _ IH]; [done|].
  rewrite forEachM_cons. cbn beta. by rewrite Hrow, Ok_bind.
Qed.

Lemma nestedResultsArrayOf_falsy h rows field :
  Forall (fun row => truthyV row = false) rows ->
  Forall (fun row => truthyV row = false) (nestedResultsArrayOf h rows field).
Proof.
  intros Hrows. unfold nestedResultsArrayOf.
  induction Hrows as [|row rows Hrow _ IH]; [constructor|].
  simpl. rewrite Hrow. by constructor.
Qed.

Lemma handleField_load rows tn fp h calls field t dataloaderFn query' n :
  handleField rows tn fp (h, calls) field
    (mkEntry t (Some dataloaderFn) (Some query') n)
  = let call := {| dlKeys := aggregateIds h rows field; dlQuery := query';
                   dlTypename := tn; dlFieldPath := fp ++ [field] |} in
    '(aggregatedResults, h1) ← dataloaderFn call h;
    recordMap ← buildRecordMap h1 aggregatedResults;
    h2 ← joinRecords recordMap field rows h1;
    Ok (h2, calls ++ [call]).
Proof. done. Qed.

Lemma handleField_falsy_rows entry : forall rows tn fp h calls field,
  entryOk entry ->
  Forall (fun row => truthyV row = false) rows ->
  exists calls',
    handleField rows tn fp (h, calls) field entry = Ok (h, calls ++ calls')
    /\ Forall (fun call => dlKeys call = []) calls'.
Proof.
  induction entry as [t d q|t d q nestedResolver IH]
    using ResolverEntry_nested_ind;
    intros rows tn fp h calls field Hok Hrows.
  all: assert (Hload : forall dataloaderFn query',
         d = Some dataloaderFn -> q = Some query' ->
         forall n,
           entryOk (mkEntry t d q n) ->
           exists calls',
             handleField rows tn fp (h, calls) field (mkEntry t d q n)
             = Ok (h, calls ++ calls')
             /\ Forall (fun call => dlKeys call = []) calls').
  1,3: intros dataloaderFn query' -> -> n Hok';
       inversion Hok' as [? ? ? ? Hdl _]; subst; simpl in Hdl;
       eexists [_]; rewrite handleField_load; cbn zeta;
       rewrite aggregateIds_falsy by done;
       match goal with
       | |- context [dataloaderFn ?call ?h0] =>
           destruct (Hdl call h0) as (records & -> & Hrecords)
       end; rewrite Ok_bind;
       destruct (buildRecordMap_matchingRecord h records Hrecords)
         as (recordMap & -> & _);
       rewrite !Ok_bind, joinRecords_falsy by done;
       split; [done|by repeat constructor].
  { destruct d as [dataloaderFn|], q as [query'|]; try (by eapply Hload).
    all: exists []; by rewrite app_nil_r. }
  destruct (decide (is_Some d /\ is_Some q)) as [[[? ->] [? ->]]|Hbranch];
    [by eapply Hload|].
  clear Hload. rewrite handleField_nested with (nestedResolver := nestedResolver)
    by done.
  inversion Hok as [? ? ? ? _ Hnested]; subst.
  destruct (Hnested nestedResolver eq_refl) as [_ Hoks].
  apply (nestedResultsArrayOf_falsy h _ field) in Hrows.
  simpl typename. revert Hrows. generalize (nestedResultsArrayOf h rows field).
  generalize (fp ++ [field]). clear Hbranch rows fp Hok Hnested.
  intros fp rows Hrows. revert calls.
  induction nestedResolver as [|[f e] rest IHrest]; intros calls.
  { exists []. by rewrite app_nil_r. }
  apply Forall_cons in IH as [IHe IH]. simpl in IHe.
  apply Forall_cons in Hoks as [Hoke Hoks]. simpl in Hoke.
  rewrite handleAggregatedQueries_cons.
  destruct (IHe rows t fp h calls f Hoke Hrows) as (calls1 & -> & Hkeys1).
  rewrite Ok_bind.
  destruct (IHrest IH Hoks (calls ++ calls1)) as (calls2 & -> & Hkeys2).
  exists (calls1 ++ calls2). rewrite app_assoc. split; [done|].
  by apply Forall_app.
Qed.

(** X18: when no row is there to join (the array is empty, or every row
    is null), and the dataloaders keep to their interface, the run
    returns with the store as it was; each dataloader is still called,
    with an empty key set. *)
Theorem handleAggregatedQueries_falsy_rows rows tree tn fp h calls :
  Forall (fun fe => entryOk fe.2) tree ->
  Forall (fun row => truthyV row = false) rows ->
  exists calls',
    handleAggregatedQueries rows tree tn fp (h, calls) = Ok (h, calls ++ calls')
    /\ map callShape calls' = loads tn fp tree
    /\ Forall (fun call => dlKeys call = []) calls'.
Proof.
  intros Hoks Hrows. revert calls.
  induction Hoks as [|[f e] rest Hoke _ IH]; intros calls.
  { exists []. by rewrite app_nil_r. }
  rewrite handleAggregatedQueries_cons.
  destruct (handleField_falsy_rows e rows tn fp h calls f Hoke Hrows)
    as (calls1 & Hfield & Hkeys1).
  pose proof Hfield as Hshape1.
  apply handleField_calls in Hshape1 as (calls1' & Heq & Hshape1).
  apply app_inv_head in Heq as <-.
  rewrite Hfield, Ok_bind.
  destruct (IH (calls ++ calls1)) as (calls2 & -> & Hshape2 & Hkeys2).
  exists (calls1 ++ calls2). rewrite app_assoc. split_and!; [done| |].
  - unfold loads in *. simpl. rewrite map_app. by f_equal.
  - by apply Forall_app.
Qed.

(** X19: under the conditions of the join (a well-formed resolver
    object, typed rows, no object visited twice) the run touches
    nothing else: no object appears or disappears, an object the run
    does not visit is left as it was, and a row keeps every property
    that is not a field of the resolver object. *)
Theorem handleAggregatedQueries_frame h rows tree tn fp calls :
  resolverObjectOk tree ->
  NoDup (visited h rows tree) ->
  rowsTyped h rows tree ->
  exists h' calls',
    handleAggregatedQueries rows tree tn fp (h, calls)
    = Ok (h', calls ++ calls')
    /\ (forall l, is_Some (h' !! l) <-> is_Some (h !! l))
    /\ (forall l, l ∉ visited h rows tree -> h' !! l = h !! l)
    /\ (forall l key,
          VRef l ∈ rows -> key ∉ keys tree ->
          getFieldV h' (VRef l) key = getFieldV h (VRef l) key).
Proof.
  intros [Hkeys Hoks] Hnodup Htyped.
  assert (Hspecs : Forall (fun fe => fieldSpec fe.1 fe.2) tree).
  { apply Forall_forall. intros [f e] _. apply fieldSpec_all. }
  destruct (runPost_of_fieldSpec tree Hspecs rows tn fp h calls
              Hkeys Hnodup Htyped Hoks)
    as (h' & calls' & Hrun & [Hdom Hframe Hrows _ _]).
  exists h', calls'. split_and!; try done.
  intros l key Hl. by apply Hrows, elem_of_rowObjects.
Qed.
End LegacyMore.

(** ** The further properties of handleAggregatedQueries at the example data *)

(** X16 at the three posts. *)
Lemma handleAggregatedQueries_no_dataloader_witness :
  Legacy.handleAggregatedQueries Example.threePosts
    Fixtures.metaOnlyResolverObject "post" [] (Example.posts, [])
  = Ok (Example.posts, []).
Proof.
  by apply (handleAggregatedQueries_no_dataloader
              Fixtures.metaOnlyResolverObject).
Defined.

(** X17 at the three posts: [author] is loaded first, [meta.editor]
    second. *)
Lemma handleAggregatedQueries_calls_witness :
  exists h' calls'',
    Legacy.handleAggregatedQueries Example.threePosts
      Example.postMetaResolverObject "post" [] (Example.posts, [])
    = Ok (h', calls'')
    /\ exists calls',
         calls'' = [] ++ calls'
         /\ map callShape calls'
            = [(["author"], "post", []); (["meta"; "editor"], "meta", [])].
Proof.
  eexists _, _. split; [vm_compute; reflexivity|].
  eapply (handleAggregatedQueries_calls Example.threePosts
            Example.postMetaResolverObject "post" [] Example.posts []).
  vm_compute. reflexivity.
Defined.

(** X18 at two null rows. *)
Lemma handleAggregatedQueries_falsy_rows_witness :
  exists calls',
    Legacy.handleAggregatedQueries [VNull; VNull]
      Example.postMetaResolverObject "post" [] (Example.posts, [])
    = Ok (Example.posts, [] ++ calls')
    /\ map callShape calls' = loads "post" [] Example.postMetaResolverObject
    /\ Forall (fun call => Legacy.dlKeys call = []) calls'.
Proof.
  assert (Hloader : Legacy.entryOk Example.authorEntry).
  { constructor; [|done]. intros input h. eexists.
    split; [reflexivity|]. by repeat constructor. }
  apply (handleAggregatedQueries_falsy_rows [VNull; VNull]
           Example.postMetaResolverObject "post" [] Example.posts []).
  - constructor; [done|]. constructor; [|constructor].
    constructor; [done|]. intros nestedResolver [= <-].
    split; [apply (bool_decide_unpack _); by vm_compute|].
    by constructor.
  - by repeat constructor.
Defined.

(** X19 at the three posts. *)
Lemma handleAggregatedQueries_frame_witness :
  exists h' calls',
    Legacy.handleAggregatedQueries Example.threePosts
      Example.postMetaResolverObject "post" [] (Example.posts, [])
    = Ok (h', [] ++ calls')
    /\ (forall l, is_Some (h' !! l) <-> is_Some (Example.posts !! l))
    /\ (forall l,
          l ∉ Legacy.visited Example.posts Example.threePosts
                Example.postMetaResolverObject ->
          h' !! l = Example.posts !! l)
    /\ (forall l key,
          VRef l ∈ Example.threePosts ->
          key ∉ keys Example.postMetaResolverObject ->
          getFieldV h' (VRef l) key = getFieldV Example.posts (VRef l) key).
Proof.
  assert (Hloader : Legacy.entryOk Example.authorEntry).
  { constructor; [|done]. intros input h. eexists.
    split; [reflexivity|]. by repeat constructor. }
  apply (handleAggregatedQueries_frame Example.posts Example.threePosts
           Example.postMetaResolverObject "post" [] []).
  - split; [apply (bool_decide_unpack _); by vm_compute|].
    constructor; [done|]. constructor; [|constructor].
    constructor; [done|]. intros nestedResolver [= <-].
    split; [apply (bool_decide_unpack _); by vm_compute|].
    by constructor.
  - apply (bool_decide_unpack _). by vm_compute.
  - repeat (constructor;
            [repeat (constructor;
                     [right; eexists; split;
                        [reflexivity|eexists; vm_compute; reflexivity]|]);
             constructor|]).
    constructor.
Defined.

(** ** The validation of the earlier helper *)

Lemma forEachM_ext {A S} (f g : S -> A -> result S) l :
  (forall s a, a ∈ l -> f s a = g s a) ->
  forall s, forEachM f l s = forEachM g l s.
Proof.
  induction l as [|a l IH]; intros Hfg s; [done|].
  rewrite !forEachM_cons, Hfg by left.
  destruct (g s a) as [s'| |]; [|done..]. rewrite !Ok_bind.
  apply IH. intros s0 a0 Ha0. apply Hfg. by right.
Qed.

Lemma forEachM_unit_Ok {A} (f : A -> result unit) l :
  forEachM (fun _ a => f a) l tt = Ok tt <-> Forall (fun a => f a = Ok tt) l.
Proof.
  induction l as [|a l IH]; [by split; [constructor|]|].
  rewrite forEachM_cons, Forall_cons, <- IH.
  destruct (f a) as [[]| |]; simpl; split; try done; try tauto.
  all: by intros [? ?].
Qed.

(** X20: the earlier [validateResultFields] lets a value through
    exactly when its shape agrees with [isArray], where a field that
    leaves [isArray] out takes arrays and other values alike, and when
    it holds no null that [allowNull] does not permit, the elements of
    an array being held to the field's own [allowNull]. *)
Theorem earlier_validateResultFields_accepts value resolverObject fieldPath :
  Earlier.validateResultFields value resolverObject fieldPath = Ok tt
  <-> match value with
      | JArr elements =>
          Earlier.resultIsArray resolverObject ≠ Some false
          /\ (Earlier.allowNull resolverObject = true
              \/ Forall (fun ele => isNullish ele = false) elements)
      | _ =>
          Earlier.resultIsArray resolverObject ≠ Some true
          /\ (Earlier.allowNull resolverObject = true
              \/ isNullish value = false)
      end.
Proof.
  destruct resolverObject as [isArray' allowNull'].
  unfold Earlier.validateResultFields, Earlier.validateResultNullish. simpl.
  assert (Hscalar : forall v : json,
    (_ ← throwIf (bool_decide (isArray' = Some true))
           (OtherError ("Array value expected for field '"
                        +:+ Earlier.fieldString fieldPath +:+ "'"));
     throwIf (isNullish v && negb allowNull')
       (OtherError ("Null value not allowed for field: '"
                    +:+ Earlier.fieldString fieldPath +:+ "'")))
    = Ok tt
    <-> isArray' ≠ Some true /\ (allowNull' = true \/ isNullish v = false)).
  { intros v. case_bool_decide as Harr; simpl.
    - split; [done|]. by intros [? _].
    - destruct (isNullish v), allowNull'; simpl; split; try done.
      + by split; [|left].
      + intros [_ [?|?]]; done.
      + by split; [|right].
      + by split; [|right]. }
  destruct value as [| | | | | |elements|]; try apply Hscalar.
  clear Hscalar. case_bool_decide as Harr; simpl.
  { split; [done|]. by intros [? _]. }
  rewrite forEachM_unit_Ok. split.
  - intros Hall. split; [done|]. destruct allowNull'; [by left|right].
    eapply Forall_impl; [exact Hall|]. intros ele. simpl.
    rewrite andb_true_r. by destruct (isNullish ele).
  - intros [_ Hall]. destruct allowNull'.
    + apply Forall_forall. intros ele _. by rewrite andb_false_r.
    + destruct Hall as [?|Hall]; [done|].
      eapply Forall_impl; [exact Hall|]. intros ele ->. done.
Qed.

(** X21: when the earlier [validateExternalArgs] accepts an argument of
    an input type, the argument is an object, the definition is not
    [isArray], and every declared field, sent or not, has been
    validated with success at its own path: a field that is left out is
    validated as undefined. *)
Theorem earlier_validateExternalArgs_input_accepted
    args d fields fieldPath :
  Earlier.type d = Earlier.ArgInputType fields ->
  Earlier.validateExternalArgs args (Some d) fieldPath = Ok tt ->
  isObject args = true
  /\ Earlier.isArray d = false
  /\ Forall (fun '(key, argDef) =>
               Earlier.validateExternalArgs (getField args key) (Some argDef)
                 (fieldPath ++ [key])
               = Ok tt)
       fields.
Proof.
  destruct d as [t r a v]. simpl. intros ->.
  intros ([] & _ & H)%bind_Ok.
  apply bind_Ok in H as ([] & Harray & H).
  apply bind_Ok in H as (args' & H & _).
  apply bind_Ok in H as ([] & Hobject & H).
  apply bind_Ok in H as ([] & Hfields & _).
  assert (Hobj : isObject args = true) by by destruct (isObject args).
  split_and!; [done| |].
  - destruct a; [|done]. by destruct args.
  - rewrite (forEachM_ext _
               (fun _ fd =>
                  Earlier.validateDefinedArgs fd.2 (getField args fd.1)
                    (fieldPath ++ [fd.1])))
      in Hfields by (by intros [] [key argDef] _).
    apply forEachM_unit_Ok in Hfields.
    eapply Forall_impl; [exact Hfields|]. by intros [key argDef].
Qed.

(** X22: the earlier [validateExternalArgs] looks at the declared
    fields of an object argument only: two objects that agree on them
    have the same outcome, so a key that is not declared is never
    reported. *)
Theorem earlier_validateExternalArgs_declared_keys_only
    o o' d fields fieldPath :
  Earlier.type d = Earlier.ArgInputType fields ->
  Earlier.argsValidator d = None ->
  (forall key, key ∈ keys fields -> getProp o key = getProp o' key) ->
  Earlier.validateExternalArgs (JObj o) (Some d) fieldPath
  = Earlier.validateExternalArgs (JObj o') (Some d) fieldPath.
Proof.
  destruct d as [t r a v]. simpl. intros -> -> Hagree.
  rewrite andb_false_r. destruct a; [done|]. simpl.
  rewrite (forEachM_ext
             (fun _ '(key, argDef) =>
                Earlier.validateDefinedArgs argDef (getProp o key)
                  (fieldPath ++ [key]))
             (fun _ '(key, argDef) =>
                Earlier.validateDefinedArgs argDef (getProp o' key)
                  (fieldPath ++ [key]))).
  - by destruct (forEachM _ fields tt) as [[]| |].
  - intros [] [key argDef] Hin. rewrite Hagree; [done|].
    apply list_elem_of_fmap. by exists (key, argDef).
Qed.

(** X21 at [{limit: 10, unknown: 1}]. *)
Lemma earlier_validateExternalArgs_input_accepted_witness :
  let args := JObj [("limit", JNum 10); ("unknown", JNum 1)] in
  isObject args = true
  /\ Earlier.isArray Fixtures.earlierPagination = false
  /\ Forall (fun '(key, argDef) =>
               Earlier.validateExternalArgs (getField args key) (Some argDef)
                 (["users"] ++ [key])
               = Ok tt)
       [("limit",
         Earlier.mkArgDefinition (Earlier.ArgTypeName "number") false false
           None)].
Proof.
  by apply (earlier_validateExternalArgs_input_accepted
              (JObj [("limit", JNum 10); ("unknown", JNum 1)])
              Fixtures.earlierPagination).
Defined.

(** X22 at [{limit: 10}] and [{limit: 10, unknown: 1}]. *)
Lemma earlier_validateExternalArgs_declared_keys_only_witness :
  Earlier.validateExternalArgs (JObj [("limit", JNum 10)])
    (Some Fixtures.earlierPagination) ["users"]
  = Earlier.validateExternalArgs (JObj [("limit", JNum 10); ("unknown", JNum 1)])
      (Some Fixtures.earlierPagination) ["users"].
Proof.
  eapply (earlier_validateExternalArgs_declared_keys_only
            [("limit", JNum 10)] [("limit", JNum 10); ("unknown", JNum 1)]
            Fixtures.earlierPagination).
  - reflexivity.
  - reflexivity.
  - by intros key ->%list_elem_of_singleton.
Defined.

(** ** initializeJomql *)

Section InitializeFacts.
Import Initialize.

(** The route registered for a root resolver. *)
Local Abbreviation restRoute :=
  (fun ki : string * RootResolverObject =>
     (method ki.2, route ki.2, createRestRequestHandler ki.2 ki.1)).

Lemma registerRootResolvers_all path items : forall st,
  Forall (fun ki => route ki.2 ≠ path) items ->
  registerRootResolvers path items st
  = ({| routes := routes st ++ map restRoute items;
        jsonReplacer := jsonReplacer st;
        exportedSchema := exportedSchema st;
        exportedLookupValue := exportedLookupValue st;
        exportedDebug := exportedDebug st |}, Ok tt).
Proof.
  induction items as [|[key item] items IH]; intros st Hitems.
  { simpl. rewrite app_nil_r. by destruct st. }
  apply Forall_cons in Hitems as [Hitem Hitems]. simpl in *.
  destruct (String.eqb_spec (route item) path); [done|].
  rewrite IH by done. simpl. by rewrite <- app_assoc.
Qed.

Lemma registerRootResolvers_duplicate path before key item after : forall st,
  Forall (fun ki => route ki.2 ≠ path) before ->
  route item = path ->
  registerRootResolvers path (before ++ (key, item) :: after) st
  = ({| routes := routes st ++ map restRoute before;
        jsonReplacer := jsonReplacer st;
        exportedSchema := exportedSchema st;
        exportedLookupValue := exportedLookupValue st;
        exportedDebug := exportedDebug st |},
     Throw (OtherError ("Duplicate route for jomql path: '"
                        +:+ path +:+ "'"))).
Proof.
  induction before as [|[key0 item0] before IH]; intros st Hbefore Hitem.
  { simpl. rewrite Hitem, String.eqb_refl, app_nil_r. by destruct st. }
  apply Forall_cons in Hbefore as [Hitem0 Hbefore]. simpl in *.
  destruct (String.eqb_spec (route item0) path); [done|].
  rewrite IH by done. simpl. by rewrite <- app_assoc.
Qed.

(** The items before the first one whose route is the jomql path. *)
Lemma first_duplicate path (items : list (string * RootResolverObject)) :
  Forall (fun ki => route ki.2 ≠ path) items
  \/ exists before key item after,
       items = before ++ (key, item) :: after
       /\ Forall (fun ki => route ki.2 ≠ path) before
       /\ route item = path.
Proof.
  induction items as [|[key item] items IH]; [by left|].
  destruct (decide (route item = path)) as [Hitem|Hitem].
  { right. by exists [], key, item, items. }
  destruct IH as [Hitems|(before & key' & item' & after & -> & Hbefore & ?)].
  - left. by constructor.
  - right. exists ((key, item) :: before), key', item', after.
    split_and!; [done| |done]. by constructor.
Qed.

(** X23: [initializeJomql] returns exactly when the jomql path
    ("/jomql" when none is given) starts with a slash and no root
    resolver has that path as its route. *)
Theorem initializeJomql_returns params st :
  (initializeJomql params st).2 = Ok tt
  <-> startsWithSlash (default "/jomql" (jomqlPath params)) = true
      /\ Forall (fun ki => route ki.2 ≠ default "/jomql" (jomqlPath params))
           (rootResolvers (schema params)).
Proof.
  unfold initializeJomql.
  destruct (startsWithSlash (default "/jomql" (jomqlPath params)));
    simpl; [|split; [done|by intros [? _]]].
  destruct (first_duplicate (default "/jomql" (jomqlPath params))
              (rootResolvers (schema params)))
    as [Hitems|(before & key & item & after & Heq & Hbefore & Hitem)].
  - rewrite registerRootResolvers_all by done. by split.
  - rewrite Heq, registerRootResolvers_duplicate by done. simpl.
    split; [done|]. intros [_ Hitems].
    apply Forall_app in Hitems as [_ Hitems].
    by apply Forall_cons in Hitems as [? _].
Qed.

(** X24: a call that returns has registered the POST route of the jomql
    path and then one route per root resolver, in the order of the map,
    after what was registered before; it has set the JSON replacer and
    exported the schema, the lookup value, null when none is given, and
    the debug flag as a boolean. *)
Theorem initializeJomql_registers params st st' :
  initializeJomql params st = (st', Ok tt) ->
  routes st'
  = routes st
    ++ (post, default "/jomql" (jomqlPath params),
        createJomqlRequestHandler (rootResolvers (schema params)))
    :: map restRoute (rootResolvers (schema params))
  /\ jsonReplacer st' = true
  /\ exportedSchema st' = Some (schema params)
  /\ getLookupValue st'
     = (if isUndefined (lookupValue params) then JNull
        else lookupValue params)
  /\ isDebug st' = Some (default false (debug params)).
Proof.
  unfold initializeJomql.
  destruct (startsWithSlash (default "/jomql" (jomqlPath params)));
    simpl; [|done].
  destruct (first_duplicate (default "/jomql" (jomqlPath params))
              (rootResolvers (schema params)))
    as [Hitems|(before & key & item & after & Heq & Hbefore & Hitem)].
  - rewrite registerRootResolvers_all by done.
    intros [= <-]. simpl. by rewrite <- app_assoc.
  - set (handler := createJomqlRequestHandler _).
    by rewrite Heq, registerRootResolvers_duplicate by done.
Qed.

(** X25: a call that throws has either found the path invalid and
    changed nothing, or found a duplicate route, and then it has already
    exported the schema and registered the POST route and the routes of
    the root resolvers before the duplicate; the JSON replacer is as it
    was. *)
Theorem initializeJomql_throws params st st' e :
  initializeJomql params st = (st', Throw e) ->
  (e = OtherError "Invalid jomqlPath" /\ st' = st)
  \/ (e = OtherError ("Duplicate route for jomql path: '"
                      +:+ default "/jomql" (jomqlPath params) +:+ "'")
      /\ exportedSchema st' = Some (schema params)
      /\ jsonReplacer st' = jsonReplacer st
      /\ exists before key item after,
           rootResolvers (schema params) = before ++ (key, item) :: after
           /\ Forall (fun ki => route ki.2
                                ≠ default "/jomql" (jomqlPath params)) before
           /\ route item = default "/jomql" (jomqlPath params)
           /\ routes st'
              = routes st
                ++ (post, default "/jomql" (jomqlPath params),
                    createJomqlRequestHandler (rootResolvers (schema params)))
                :: map restRoute before).
Proof.
  unfold initializeJomql.
  destruct (startsWithSlash (default "/jomql" (jomqlPath params)));
    simpl; [|intros [= <- <-]; by left].
  destruct (first_duplicate (default "/jomql" (jomqlPath params))
              (rootResolvers (schema params)))
    as [Hitems|(before & key & item & after & Heq & Hbefore & Hitem)].
  - by rewrite registerRootResolvers_all by done.
  - set (handler := createJomqlRequestHandler _).
    rewrite Heq, registerRootResolvers_duplicate by done.
    intros [= <- <-]. right. simpl. split_and!; try done.
    exists before, key, item, after. split_and!; try done.
    by rewrite <- app_assoc.
Qed.
End InitializeFacts.

(** X24 at a schema with one REST route. *)
Lemma initializeJomql_registers_witness :
  exists st',
    Initialize.initializeJomql
      (Fixtures.paramsOf [("getUsers", Fixtures.restUsers)])
      Fixtures.freshState
    = (st', Ok tt)
    /\ Initialize.routes st'
       = [(Initialize.post, "/jomql",
           Initialize.createJomqlRequestHandler
             [("getUsers", Fixtures.restUsers)]);
          (Initialize.get, "/users",
           Initialize.createRestRequestHandler Fixtures.restUsers "getUsers")]
    /\ Initialize.jsonReplacer st' = true
    /\ Initialize.exportedSchema st'
       = Some {| Initialize.rootResolvers :=
                   [("getUsers", Fixtures.restUsers)] |}
    /\ Initialize.getLookupValue st' = JNull
    /\ Initialize.isDebug st' = Some false.
Proof.
  eexists. split; [reflexivity|].
  by apply (initializeJomql_registers
              (Fixtures.paramsOf [("getUsers", Fixtures.restUsers)])
              Fixtures.freshState).
Defined.

(** X25 at a schema whose second root resolver is routed at the jomql
    path: the first route is already registered. *)
Lemma initializeJomql_throws_witness :
  let items := [("getUsers", Fixtures.restUsers);
                ("clash", Fixtures.restClash)] in
  exists st' e,
    Initialize.initializeJomql (Fixtures.paramsOf items) Fixtures.freshState
    = (st', Throw e)
    /\ ((e = OtherError "Invalid jomqlPath" /\ st' = Fixtures.freshState)
        \/ (e = OtherError "Duplicate route for jomql path: '/jomql'"
            /\ Initialize.exportedSchema st'
               = Some {| Initialize.rootResolvers := items |}
            /\ Initialize.jsonReplacer st' = false
            /\ exists before key item after,
                 items = before ++ (key, item) :: after
                 /\ Forall (fun ki => Initialize.route ki.2 ≠ "/jomql") before
                 /\ Initialize.route item = "/jomql"
                 /\ Initialize.routes st'
                    = [] ++ (Initialize.post, "/jomql",
                             Initialize.createJomqlRequestHandler items)
                         :: map (fun ki =>
                                   (Initialize.method ki.2,
                                    Initialize.route ki.2,
                                    Initialize.createRestRequestHandler
                                      ki.2 ki.1))
                              before)).
Proof.
  eexists _, _. split; [reflexivity|].
  by apply (initializeJomql_throws
              (Fixtures.paramsOf [("getUsers", Fixtures.restUsers);
                                  ("clash", Fixtures.restClash)])
              Fixtures.freshState).
Defined.

(** ** Termination *)

Lemma bind_returns {A B} (m : result A) (f : A -> result B) :
  m ≠ OutOfFuel -> (forall a, m = Ok a -> f a ≠ OutOfFuel) ->
  m ≫= f ≠ OutOfFuel.
Proof. destruct m as [a| |]; simpl; [|done..]. intros _ Hf. by apply Hf. Qed.

Lemma throwIf_returns c e : throwIf c e ≠ OutOfFuel.
Proof. by destruct c. Qed.

Lemma mapM_returns {A B} (f : A -> result B) l :
  (forall a, a ∈ l -> f a ≠ OutOfFuel) -> mapM f l ≠ OutOfFuel.
Proof.
  induction l as [|a l IH]; intros Hf; [done|]. rewrite mapM_cons.
  apply bind_returns; [apply Hf; left|]. intros b _.
  apply bind_returns; [|done]. apply IH. intros a' Ha'. apply Hf. by right.
Qed.

Lemma depth_element ele elements :
  ele ∈ elements -> (depth ele < depth (JArr elements))%nat.
Proof.
  simpl. induction 1 as [ele elements|ele ele' elements _ IH]; simpl; lia.
Qed.

Lemma depth_property key v properties :
  (key, v) ∈ properties -> (depth v < depth (JObj properties))%nat.
Proof.
  simpl. revert key v.
  induction properties as [|[k w] properties IH]; intros key v.
  { by intros ?%elem_of_nil. }
  intros [[= <- <-]|Hin]%elem_of_cons; simpl; [lia|].
  specialize (IH key v Hin). lia.
Qed.

Lemma depth_getProp o key : (depth (getProp o key) < depth (JObj o))%nat.
Proof.
  unfold getProp. destruct (lookupKey key o) as [v|] eqn:Hv; [|simpl; lia].
  apply lookupKey_Some in Hv. by eapply depth_property.
Qed.

Lemma lookupKey_deleteProp_ne {A} key key' (o : list (string * A)) :
  key' ≠ key -> lookupKey key' (deleteProp key o) = lookupKey key' o.
Proof.
  intros Hne. induction o as [|[k w] o IH]; [done|].
  rewrite deleteProp_cons. simpl.
  destruct (String.eqb_spec k key) as [->|Hk].
  - rewrite IH. by destruct (String.eqb_spec key key').
  - simpl. by rewrite IH.
Qed.

Lemma lookupKey_setProp_ne {A} key key' (v : A) (o : list (string * A)) :
  key' ≠ key -> lookupKey key' (setProp key v o) = lookupKey key' o.
Proof.
  intros Hne. induction o as [|[k w] o IH]; simpl.
  - by destruct (String.eqb_spec key key').
  - destruct (String.eqb_spec k key) as [->|Hk]; simpl.
    + by destruct (String.eqb_spec key key').
    + by rewrite IH.
Qed.

Section Termination.
Context (objectTypeDefs : gmap string JomqlObjectType).
Context (inputTypeDefs : gmap string JomqlInputType).
Context (lookupValue : json).
Hypothesis inputTypeDefs_return : forall name inputType,
  inputTypeDefs !! name = Some inputType -> inputTypeReturns inputType.
Hypothesis objectTypeDefs_return : forall name objectType,
  objectTypeDefs !! name = Some objectType -> objectTypeReturns objectType.

Lemma resolveArgType_returns t fieldPath inputType :
  inputKindReturns t ->
  resolveArgType inputTypeDefs t fieldPath = Ok (inl inputType) ->
  inputTypeReturns inputType.
Proof.
  intros Ht. destruct t as [s|i|name]; simpl.
  - done.
  - intros [= <-]. by inversion Ht.
  - destruct (inputTypeDefs !! name) as [i|] eqn:Hi; [|done].
    intros [= <-]. by eapply inputTypeDefs_return.
Qed.

(** The loop over the declared fields comes back when the recursive
    call does on what is less deep than the argument. *)
Lemma validateKey_loop_returns validate fieldPath o fields :
  (forall args d fieldPath',
     inputKindReturns (argType d) ->
     (depth args < depth (JObj o))%nat ->
     validate args (Some d) fieldPath' ≠ OutOfFuel) ->
  NoDup (keys fields) ->
  Forall (fun kd => inputKindReturns (argType kd.2)) fields ->
  forall arg ks,
    (forall key, key ∈ keys fields -> getProp arg key = getProp o key) ->
    forEachM (validateKey validate fieldPath) fields (arg, ks) ≠ OutOfFuel.
Proof.
  intros Hvalidate. induction fields as [|[key argDef] fields IH];
    intros Hnodup Hkinds arg ks Harg; [done|].
  change (keys ((key, argDef) :: fields)) with (key :: keys fields) in *.
  apply NoDup_cons in Hnodup as [Hkey Hnodup].
  apply Forall_cons in Hkinds as [Hkind Hkinds]. simpl in Hkind.
  rewrite forEachM_cons. apply bind_returns.
  - unfold validateKey. apply bind_returns; [|by intros [? ?]].
    apply Hvalidate; [done|]. rewrite Harg by left. apply depth_getProp.
  - intros [arg' ks'] Hstep. unfold validateKey in Hstep.
    apply bind_Ok in Hstep as ([validatedArg a] & _ & [= <- <-]).
    apply IH; [done|done|]. intros key' Hkey'.
    assert (key' ≠ key) by (intros ->; done).
    rewrite <- Harg by by right. unfold getProp.
    destruct (isUndefined validatedArg).
    + by rewrite lookupKey_deleteProp_ne.
    + by rewrite lookupKey_setProp_ne.
Qed.

Lemma validateExternalArgs_returns fuel :
  forall args argDefinition fieldPath,
    from_option (fun d => inputKindReturns (argType d)) True argDefinition ->
    (depth args < fuel)%nat ->
    validateExternalArgs inputTypeDefs fuel args argDefinition fieldPath
    ≠ OutOfFuel.
Proof.
  induction fuel as [|fuel IH]; intros args argDefinition fieldPath Hd Hdepth;
    [lia|].
  cbn [validateExternalArgs]. destruct argDefinition as [d|]; simpl in Hd.
  2:{ by destruct (truthy args). }
  destruct (negb (argRequired d) && isUndefined args); [done|].
  apply bind_returns; [apply throwIf_returns|intros _ _].
  apply bind_returns; [apply throwIf_returns|intros _ _].
  apply bind_returns.
  { unfold checkArrayField. destruct (argArrayOptions d); [|done].
    apply bind_returns; [apply throwIf_returns|intros _ _].
    apply throwIf_returns. }
  intros _ _. apply bind_returns.
  { destruct (argType d) as [| |name]; try done. simpl.
    by destruct (inputTypeDefs !! name). }
  intros argDefType Hres. apply bind_returns; [|by intros [? ?]].
  destruct argDefType as [inputType|scalar].
  2:{ apply bind_returns; [|done]. unfold parseScalar.
      destruct (parseValue scalar) as [parse|] eqn:Hparse; [|done].
      destruct (negb (isNull args)); [|done].
      assert (Hreturns : forall v, parse v ≠ OutOfFuel).
      { destruct (argType d) as [s| |name]; simpl in Hres.
        - injection Hres as <-. inversion Hd as [? Hs| |]; subst.
          by rewrite Hparse in Hs.
        - done.
        - by destruct (inputTypeDefs !! name). }
      assert (applyParseValue parse d args ≠ OutOfFuel).
      { unfold applyParseValue.
        destruct args, (argArrayOptions d); try apply Hreturns.
        apply bind_returns; [|done]. apply mapM_returns. by intros. }
      by destruct (applyParseValue parse d args). }
  pose proof (resolveArgType_returns _ _ _ Hd Hres) as Hinput.
  inversion Hinput as [inputName fields check Hnodup Hcheck Hkinds]; subst.
  apply bind_returns; [|done]. unfold validateInput.
  apply bind_returns.
  { unfold argsArrayOf. destruct args, (argArrayOptions d); try done.
    apply bind_returns; [apply throwIf_returns|done]. }
  intros argsArray HargsArray. apply bind_returns; [|done].
  apply mapM_returns. intros arg Harg.
  assert (Harg_depth : (depth arg <= depth args)%nat).
  { unfold argsArrayOf in HargsArray.
    destruct args as [| | | | | |elements|], (argArrayOptions d);
      try (injection HargsArray as <-;
           apply list_elem_of_singleton in Harg as ->; done).
    apply bind_Ok in HargsArray as (_ & _ & [= <-]).
    apply depth_element in Harg. lia. }
  unfold validateArg. apply bind_returns; [apply throwIf_returns|intros _ _].
  destruct arg as [| | | | | | |o]; try done.
  apply bind_returns.
  { apply (validateKey_loop_returns _ _ o); try done.
    intros args' d' fieldPath' Hd' Hdepth'. apply IH; [done|lia]. }
  intros [o' ks] _. apply bind_returns; [apply throwIf_returns|intros _ _].
  apply bind_returns; [|done]. simpl.
  destruct check as [check|]; [apply Hcheck|done].
Qed.

(** X26: [validateExternalArgs] comes back, with a value or an error,
    on every argument: with callbacks that return or throw, fuel beyond
    the depth of the argument is enough, and more fuel gives the same
    outcome. *)
Theorem validateExternalArgs_terminates
    fuel fuel' args argDefinition fieldPath :
  from_option (fun d => inputKindReturns (argType d)) True argDefinition ->
  (depth args < fuel)%nat ->
  (fuel <= fuel')%nat ->
  validateExternalArgs inputTypeDefs fuel args argDefinition fieldPath
  ≠ OutOfFuel
  /\ validateExternalArgs inputTypeDefs fuel' args argDefinition fieldPath
     = validateExternalArgs inputTypeDefs fuel args argDefinition fieldPath.
Proof.
  intros Hd Hdepth Hle.
  pose proof (validateExternalArgs_returns fuel args argDefinition fieldPath
                Hd Hdepth) as Hreturns.
  split; [done|]. by eapply validateExternalArgs_fuel_mono.
Qed.

Lemma generateJomqlResolverTree_returns fuel :
  forall fieldValue resolverObject fieldPath fullTree,
    fieldReturns resolverObject ->
    (depth fieldValue < fuel)%nat ->
    generateJomqlResolverTree objectTypeDefs inputTypeDefs lookupValue fuel
      fieldValue resolverObject fieldPath fullTree
    ≠ OutOfFuel.
Proof.
  induction fuel as [|fuel IH];
    intros fieldValue resolverObject fieldPath fullTree Hfield Hdepth; [lia|].
  cbn [generateJomqlResolverTree].
  inversion Hfield as [t ? ? a ? ? ? ? Hargs Hkind]; subst. simpl.
  apply bind_returns.
  { destruct t as [| |name]; try done. simpl.
    by destruct (objectTypeDefs !! name). }
  intros type' Htype.
  apply bind_returns; [apply throwIf_returns|intros _ _].
  apply bind_returns;
    [destruct fieldValue; try done; apply throwIf_returns|intros _ _].
  apply bind_returns; [apply throwIf_returns|intros _ _].
  apply bind_returns; [apply throwIf_returns|intros _ _].
  destruct fieldValue as [| | | | | | |o]; try done.
  apply bind_returns.
  { apply validateExternalArgs_returns; [done|].
    pose proof (depth_getProp o "__args"). lia. }
  intros [? ?] _. apply bind_returns; [|done].
  destruct type' as [objectType|scalar]; [|done].
  apply bind_returns; [|done].
  assert (Hobject : objectTypeReturns objectType).
  { destruct t as [s|ot|name]; simpl in Htype.
    - done.
    - injection Htype as <-. by inversion Hkind.
    - destruct (objectTypeDefs !! name) as [ot|] eqn:Hot; [|done].
      injection Htype as <-. by eapply objectTypeDefs_return. }
  inversion Hobject as [objectName fields Hfields]; subst.
  assert (Hloop : forall entries nodes,
    (forall key v, (key, v) ∈ entries -> (depth v < fuel)%nat) ->
    forEachM
      (generateChild
         (generateJomqlResolverTree objectTypeDefs inputTypeDefs lookupValue
            fuel)
         (mkObjectType objectName fields)
         (mkField t allowNull' arrayOptions' a hidden' resolver' defer'
            isRootResolverDefinition')
         fieldPath fullTree)
      entries nodes
    ≠ OutOfFuel).
  { induction entries as [|[field v] entries IHentries]; intros nodes Hentries;
      [done|].
    rewrite forEachM_cons. apply bind_returns.
    - unfold generateChild. destruct (String.eqb field "__args"); [done|].
      simpl. destruct (lookupKey field fields) as [fieldDef|] eqn:Hdef; [|done].
      apply bind_returns; [apply throwIf_returns|intros _ _].
      destruct (fullTree || _); [|done].
      apply bind_returns; [|done]. apply IH.
      + apply lookupKey_Some in Hdef. rewrite Forall_forall in Hfields.
        apply (Hfields (field, fieldDef) Hdef).
      + apply (Hentries field v). left.
    - intros nodes' _. apply IHentries. intros key w Hin.
      apply (Hentries key w). by right. }
  apply Hloop. intros key v Hin. apply depth_property in Hin. lia.
Qed.

(** X27: [generateJomqlResolverTree] comes back, with a node or an
    error, on every query, also when object types refer to themselves
    through lookups: fuel beyond the depth of the query is enough, and
    more fuel gives the same outcome. *)
Theorem generateJomqlResolverTree_terminates
    fuel fuel' fieldValue resolverObject fieldPath fullTree :
  fieldReturns resolverObject ->
  (depth fieldValue < fuel)%nat ->
  (fuel <= fuel')%nat ->
  generateJomqlResolverTree objectTypeDefs inputTypeDefs lookupValue fuel
    fieldValue resolverObject fieldPath fullTree
  ≠ OutOfFuel
  /\ generateJomqlResolverTree objectTypeDefs inputTypeDefs lookupValue fuel'
       fieldValue resolverObject fieldPath fullTree
     = generateJomqlResolverTree objectTypeDefs inputTypeDefs lookupValue fuel
         fieldValue resolverObject fieldPath fullTree.
Proof.
  intros Hfield Hdepth Hle.
  pose proof (generateJomqlResolverTree_returns fuel fieldValue resolverObject
                fieldPath fullTree Hfield Hdepth) as Hreturns.
  split; [done|]. by eapply generateJomqlResolverTree_fuel_mono.
Qed.
End Termination.

(** X26 at the unknown keys of [pagination]. *)
Lemma validateExternalArgs_terminates_witness :
  validateExternalArgs ∅ 2 (JObj Example.unknownArgs)
    (Some Example.paginationArg) ["__args"]
  ≠ OutOfFuel
  /\ validateExternalArgs ∅ 5 (JObj Example.unknownArgs)
       (Some Example.paginationArg) ["__args"]
     = validateExternalArgs ∅ 2 (JObj Example.unknownArgs)
         (Some Example.paginationArg) ["__args"].
Proof.
  apply (validateExternalArgs_terminates ∅).
  - intros name inputType H. by rewrite lookup_empty in H.
  - simpl. do 2 constructor.
    + apply (bool_decide_unpack _). by vm_compute.
    + done.
    + by repeat constructor.
  - simpl. lia.
  - lia.
Defined.

(** X27 at the query [{id, name}]. *)
Lemma generateJomqlResolverTree_terminates_witness :
  generateJomqlResolverTree ∅ ∅ JNull 2 (JObj Fixtures.userQuery)
    Example.plainUserField ["user"] false
  ≠ OutOfFuel
  /\ generateJomqlResolverTree ∅ ∅ JNull 5 (JObj Fixtures.userQuery)
       Example.plainUserField ["user"] false
     = generateJomqlResolverTree ∅ ∅ JNull 2 (JObj Fixtures.userQuery)
         Example.plainUserField ["user"] false.
Proof.
  apply (generateJomqlResolverTree_terminates ∅ ∅ JNull).
  - intros name inputType H. by rewrite lookup_empty in H.
  - intros name objectType H. by rewrite lookup_empty in H.
  - constructor; [done|]. do 2 constructor.
    all: repeat constructor.
  - simpl. lia.
  - lia.
Defined.
